(** * quick-alias: alias extraction, alias merge and change scheduling

    A shallow embedding of [src/main.js] (the Obsidian plugin
    [QuickAliasPlugin]) and the properties of its specification.

    Conventions of the embedding.
    - A JavaScript string is a [string]: a sequence of code units.  The
      code units are those of the Latin-1 range (0..255), on which
      [toLowerCase], [trim] and the line terminators of the regular
      expression engine are written out in full.
    - The built-in [Array.prototype.sort] without comparator orders strings
      by code units; [Set] keeps its elements in insertion order.
    - A JavaScript object used as a dictionary in iteration order is an
      association list (own properties in insertion order); the frontmatter
      object and the stores of the host are finite maps.
    - The host (vault, metadata cache, file manager, timers, notices) is an
      explicit state that every method threads through.  An [async] method
      runs to its end in one step: the handlers are not interleaved at
      their [await]s.
    - Time is the clock of the host in milliseconds; a timer fires when the
      clock reaches the time it is due. *)

From Stdlib Require Import Ascii NArith.
From stdpp Require Import gmap strings list fin_maps sorting.

(** ** JavaScript strings *)

Module JsString.

(** Code unit of a character. *)
Definition code (c : ascii) : N := N_of_ascii c.

(** LineTerminator of ECMAScript, restricted to the modelled code units:
    LF and CR (U+2028 and U+2029 lie outside the range). *)
Definition isLineTerminator (c : ascii) : bool :=
  (code c =? 10)%N || (code c =? 13)%N.

(** WhiteSpace and LineTerminator of ECMAScript, as removed by
    [String.prototype.trim]: TAB, LF, VT, FF, CR, SP and NBSP. *)
Definition isWhiteSpace (c : ascii) : bool :=
  ((9 <=? code c)%N && (code c <=? 13)%N)
  || (code c =? 32)%N || (code c =? 160)%N.

(** Simple lower-case mapping of a code unit: A-Z, and the upper-case
    letters of Latin-1 (U+00C0..U+00DE without the multiplication sign). *)
Definition isUpper (c : ascii) : bool :=
  ((65 <=? code c)%N && (code c <=? 90)%N)
  || ((192 <=? code c)%N && (code c <=? 222)%N && negb (code c =? 215)%N).

Definition lowerChar (c : ascii) : ascii :=
  if isUpper c then ascii_of_N (code c + 32) else c.

(** [String.prototype.toLowerCase]. *)
Fixpoint toLowerCase (s : string) : string :=
  match s with
  | EmptyString => EmptyString
  | String c r => String (lowerChar c) (toLowerCase r)
  end.

Fixpoint trimStart (s : string) : string :=
  match s with
  | EmptyString => EmptyString
  | String c r => if isWhiteSpace c then trimStart r else s
  end.

(** Drops the trailing white space: a character is kept when it is not
    white space or when something is kept after it. *)
Fixpoint trimEnd (s : string) : string :=
  match s with
  | EmptyString => EmptyString
  | String c r =>
      match trimEnd r with
      | EmptyString => if isWhiteSpace c then EmptyString else String c EmptyString
      | r' => String c r'
      end
  end.

(** [String.prototype.trim]. *)
Definition trim (s : string) : string := trimEnd (trimStart s).

(** Truthiness of a string: the empty string is falsy. *)
Definition truthy (s : string) : bool :=
  match s with EmptyString => false | _ => true end.

(** Every character of [s] satisfies [p]. *)
Fixpoint forallb (p : ascii -> bool) (s : string) : bool :=
  match s with
  | EmptyString => true
  | String c r => p c && forallb p r
  end.

(** The string holds no line terminator. *)
Definition singleLine (s : string) : bool :=
  forallb (fun c => negb (isLineTerminator c)) s.

(** Order of the relational operators on strings: code unit by code unit. *)
Definition lt (a b : string) : Prop := String.compare a b = Lt.
Definition leb (a b : string) : bool := String.leb a b.

(** [a <= b] in the order of [sort]. *)
Definition le (a b : string) : Prop := leb a b = true.

(** An alias in lower case. *)
Definition lowerCased (s : string) : Prop := toLowerCase s = s.

End JsString.

(** ** JavaScript arrays of strings and [Set] *)

Module JsArray.

(** [Set.prototype.add]: a value already in the set is not added again,
    a new value goes last. *)
Fixpoint Set_add (x : string) (s : list string) : list string :=
  match s with
  | [] => [x]
  | y :: r => if String.eqb x y then s else y :: Set_add x r
  end.

(** [new Set(iterable)]: the values are added from left to right. *)
Definition Set_from (l : list string) : list string :=
  fold_left (fun s x => Set_add x s) l [].

(** Insertion of [x] in a sorted array. *)
Fixpoint insert (x : string) (l : list string) : list string :=
  match l with
  | [] => [x]
  | y :: r => if JsString.leb x y then x :: l else y :: insert x r
  end.

(** [Array.prototype.sort()] with the default comparator, on strings. *)
Definition sort (l : list string) : list string :=
  fold_right insert [] l.

End JsArray.

(** ** Completions: a method returns normally or throws *)

Inductive Error : Set :=
| TypeError     (* a property of the wrong kind is used *)
| SyntaxError   (* [new RegExp] on an invalid pattern *)
| HostError.    (* a rejected promise of the host: unreadable or unwritable file *)

Inductive Completion (A : Type) : Type :=
| Normal (a : A)
| Throw (e : Error).
Arguments Normal {A} a.
Arguments Throw {A} e.

#[global] Instance Completion_ret : MRet Completion := @Normal.

#[global] Instance Completion_bind : MBind Completion := fun A B k c =>
  match c with
  | Normal a => k a
  | Throw e => Throw e
  end.

(** ** The regular expression of the extractor: [aliasRegex] *)

Module AliasRegex.
Import JsString.

(** The result of one [aliasRegex.exec]: the two captures.  [m2] is
    [None] when the optional group did not take part in the match
    ([match[2]] is [undefined]). *)
Record RegExpMatch : Set := { m1 : string; m2 : option string }.

(** The literal parts of the pattern: [\[\[], [\|] and [\]\]].  Each gives
    the text after it when [s] starts with it. *)
Definition opening (s : string) : option string :=
  match s with
  | String a (String b rest) =>
      if Ascii.eqb a "[" && Ascii.eqb b "[" then Some rest else None
  | _ => None
  end.

Definition pipe (s : string) : option string :=
  match s with
  | String a rest => if Ascii.eqb a "|" then Some rest else None
  | EmptyString => None
  end.

Definition closing (s : string) : option string :=
  match s with
  | String a (String b rest) =>
      if Ascii.eqb a "]" && Ascii.eqb b "]" then Some rest else None
  | _ => None
  end.

(** [(.*?)\]\]] at the end of the pattern: the shortest run of characters
    other than line terminators that is followed by two closing brackets.
    Returns the capture and the text after the match. *)
Fixpoint lazyToClose (s : string) : option (string * string) :=
  match closing s with
  | Some rest => Some (EmptyString, rest)
  | None =>
      match s with
      | String c r =>
          if isLineTerminator c then None
          else match lazyToClose r with
               | Some (cap, rest) => Some (String c cap, rest)
               | None => None
               end
      | EmptyString => None
      end
  end.

(** [(?:\|(.*?))?\]\]]: the optional group is tried first (the quantifier
    [?] is greedy), then the pattern without it. *)
Definition afterTarget (s : string) : option (option string * string) :=
  match (r ← pipe s; lazyToClose r) with
  | Some (cap, rest) => Some (Some cap, rest)
  | None =>
      match closing s with
      | Some rest => Some (None, rest)
      | None => None
      end
  end.

(** [(.*?)(?:\|(.*?))?\]\]] after the opening brackets: the first capture
    grows by one character (no line terminator) each time the rest of the
    pattern fails. *)
Fixpoint matchTarget (s : string) : option (RegExpMatch * string) :=
  match afterTarget s with
  | Some (cap2, rest) => Some ({| m1 := EmptyString; m2 := cap2 |}, rest)
  | None =>
      match s with
      | String c r =>
          if isLineTerminator c then None
          else match matchTarget r with
               | Some (m, rest) => Some ({| m1 := String c (m1 m); m2 := m2 m |}, rest)
               | None => None
               end
      | EmptyString => None
      end
  end.

(** The whole pattern [/\[\[(.*?)(?:\|(.*?))?\]\]/] tried at the start of [s]. *)
Definition matchAt (s : string) : option (RegExpMatch * string) :=
  r ← opening s; matchTarget r.

(** [aliasRegex.exec(content)] with the [g] flag.  [s] is the content from
    [lastIndex] on; the match is searched at [lastIndex], then one
    character further, and so on.  On success the text after the match is
    returned ([lastIndex] is set to the end of the match); on failure
    [exec] returns [null]. *)
Fixpoint exec (s : string) : option (RegExpMatch * string) :=
  match matchAt s with
  | Some res => Some res
  | None =>
      match s with
      | EmptyString => None
      | String _ r => exec r
      end
  end.

(** The text of the link that a match stands for. *)
Definition aliasPart (cap2 : option string) : string :=
  match cap2 with
  | Some alias => "|" +:+ alias
  | None => ""
  end.

Definition linkText (m : RegExpMatch) : string :=
  "[[" +:+ m1 m +:+ aliasPart (m2 m) +:+ "]]".

(** Both captures are free of line terminators. *)
Definition singleLineMatch (m : RegExpMatch) : Prop :=
  singleLine (m1 m) = true /\ forall alias, m2 m = Some alias -> singleLine alias = true.

(** A text without opening bracket holds no link. *)
Definition noOpening (s : string) : Prop :=
  forallb (fun c => negb (Ascii.eqb c "[")) s = true.

End AliasRegex.

(** ** JavaScript objects used as dictionaries *)

Module JsObject.

(** The own properties of an ordinary object, in the order of their
    creation. *)
Definition t (A : Type) : Type := list (string * A).

(** The property names that every object inherits from
    [Object.prototype]; all of them hold a function or an object. *)
Definition Object_prototype_keys : list string :=
  [ "constructor"; "hasOwnProperty"; "isPrototypeOf"; "propertyIsEnumerable";
    "toLocaleString"; "toString"; "valueOf"; "__proto__";
    "__defineGetter__"; "__defineSetter__"; "__lookupGetter__"; "__lookupSetter__" ].

Definition inherited (k : string) : bool :=
  existsb (String.eqb k) Object_prototype_keys.

Section Props.
Context {A : Type}.

Fixpoint getOwn (k : string) (o : t A) : option A :=
  match o with
  | [] => None
  | (k', v) :: r => if String.eqb k k' then Some v else getOwn k r
  end.

(** Assignment [o[k] = v] to an own property: an existing property
    keeps its place, a new one goes last. *)
Fixpoint setOwn (k : string) (v : A) (o : t A) : t A :=
  match o with
  | [] => [(k, v)]
  | (k', v') :: r =>
      if String.eqb k k' then (k, v) :: r else (k', v') :: setOwn k v r
  end.

(** Value of a decimal digit. *)
Definition digit (c : ascii) : option N :=
  let n := N_of_ascii c in
  if ((48 <=? n) && (n <=? 57))%N then Some (n - 48)%N else None.

Fixpoint digits (acc : N) (s : string) : option N :=
  match s with
  | EmptyString => Some acc
  | String c r =>
      match digit c with
      | Some d => digits (acc * 10 + d)%N r
      | None => None
      end
  end.

(** An array index: the canonical decimal form of an integer below
    2^32 - 1. *)
Definition arrayIndex (k : string) : option N :=
  match k with
  | EmptyString => None
  | String "0" EmptyString => Some 0%N
  | String "0" _ => None
  | _ =>
      match digits 0 k with
      | Some n => if (n <? 4294967295)%N then Some n else None
      | None => None
      end
  end.

Fixpoint insertIndex (n : N) (e : string * A) (l : list (N * (string * A)))
  : list (N * (string * A)) :=
  match l with
  | [] => [(n, e)]
  | (n', e') :: r =>
      if (n <=? n')%N then (n, e) :: l else (n', e') :: insertIndex n e r
  end.

Fixpoint indexEntries (o : t A) : list (N * (string * A)) :=
  match o with
  | [] => []
  | (k, v) :: r =>
      match arrayIndex k with
      | Some n => insertIndex n (k, v) (indexEntries r)
      | None => indexEntries r
      end
  end.

Definition isIndex (k : string) : bool :=
  match arrayIndex k with Some _ => true | None => false end.

(** [Object.entries(o)]: the array indices in ascending order first,
    then the other names in the order of their creation. *)
Definition entries (o : t A) : list (string * A) :=
  map snd (indexEntries o) ++ filter (fun e => isIndex (fst e) = false) o.

(** [Object.keys(o)]. *)
Definition keys (o : t A) : list string := map fst (entries o).

End Props.

End JsObject.

(** ** The alias extractor: [extractAliases] *)

Module Extractor.
Import JsString JsArray AliasRegex.

(** The map under construction: a [Set] of aliases per target note. *)
Definition AliasSets : Type := JsObject.t (list string).

(** The finished map: a sorted array of aliases per target note. *)
Definition AliasMap : Type := JsObject.t (list string).

(** The body of the [while] loop for one match.  [aliasMap[targetNote]]
    reads through the prototype chain: a name inherited from
    [Object.prototype] is truthy, no [Set] is created for it, and the call
    of its [add] throws. *)
Definition loopBody (m : RegExpMatch) (aliasMap : AliasSets) : Completion AliasSets :=
  let targetNote := trim (m1 m) in
  let alias := trim <$> m2 m in
  match alias with
  | Some alias =>
      if truthy alias && truthy targetNote then
        match JsObject.getOwn targetNote aliasMap with
        | Some set =>
            Normal (JsObject.setOwn targetNote (Set_add (toLowerCase alias) set) aliasMap)
        | None =>
            if JsObject.inherited targetNote then Throw TypeError
            else Normal (JsObject.setOwn targetNote (Set_add (toLowerCase alias) []) aliasMap)
        end
      else Normal aliasMap
  | None => Normal aliasMap
  end.

(** [while ((match = aliasRegex.exec(content)) !== null) { ... }], with
    [fuel] bounding the number of calls of [exec]. *)
Fixpoint whileExec (fuel : nat) (s : string) (aliasMap : AliasSets)
  : Completion AliasSets :=
  match fuel with
  | O => Normal aliasMap
  | S fuel =>
      match exec s with
      | None => Normal aliasMap
      | Some (m, rest) =>
          aliasMap' ← loopBody m aliasMap; whileExec fuel rest aliasMap'
      end
  end.

(** [for (const note in aliasMap) aliasMap[note] = Array.from(aliasMap[note]).sort()] *)
Definition finalize (aliasMap : AliasSets) : AliasMap :=
  map (fun e => (fst e, sort (snd e))) aliasMap.

(** [extractAliases(content)].  Every successful [exec] consumes at least
    four characters, so the length of the content bounds the number of
    iterations. *)
Definition extractAliases (content : string) : Completion AliasMap :=
  aliasMap ← whileExec (String.length content) content []; Normal (finalize aliasMap).

(** The link of a match stands somewhere in the content. *)
Definition occursIn (content : string) (m : RegExpMatch) : Prop :=
  exists pre post, content = pre +:+ linkText m +:+ post.

(** The loop of [extractAliases] with the fuel that [extractAliases] gives it. *)
Definition scan (s : string) (aliasMap : AliasSets) : Completion AliasSets :=
  whileExec (String.length s) s aliasMap.

(** The sets of the loop hold lower-cased aliases, each once. *)
Definition goodSets (aliasMap : AliasSets) : Prop :=
  forall target set, (target, set) ∈ aliasMap -> NoDup set /\ Forall lowerCased set.

(** No two entries of the list are equal when case is ignored. *)
Definition caseInsensitiveDistinct (l : list string) : Prop :=
  forall i j x y, l !! i = Some x -> l !! j = Some y ->
                  toLowerCase x = toLowerCase y -> i = j.

(** Where an entry of the map comes from: a link of the content whose
    target and alias hold no line terminator. *)
Definition fromSingleLineLink (content target alias : string) : Prop :=
  exists pre t a post,
    content = pre +:+ "[[" +:+ t +:+ "|" +:+ a +:+ "]]" +:+ post
    /\ singleLine t = true /\ singleLine a = true
    /\ target = trim t /\ alias = toLowerCase (trim a).

Definition provenance (content : string) (aliasMap : AliasSets) : Prop :=
  forall target set alias,
    (target, set) ∈ aliasMap -> alias ∈ set -> fromSingleLineLink content target alias.

End Extractor.

(** ** The alias merger: the callback of [updateFrontmatter] *)

Module Merger.
Import JsString JsArray.

(** A value of the frontmatter, as the YAML parser of the host builds it.
    A number is kept as an integer: only its truthiness is used. *)
#[warnings="-register-all"]
Inductive Value : Type :=
| VNull
| VBool (b : bool)
| VNumber (n : Z)
| VString (s : string)
| VArray (l : list Value)
| VObject (o : list (string * Value)).

(** The frontmatter object of a note. *)
Abbreviation Frontmatter := (gmap string Value).

(** Truthiness of a value that is present. *)
Definition truthy (v : Value) : bool :=
  match v with
  | VNull => false
  | VBool b => b
  | VNumber n => negb (n =? 0)%Z
  | VString s => JsString.truthy s
  | VArray _ | VObject _ => true
  end.

(** [alias => alias.toLowerCase()] on one element of the array: only a
    string has the method. *)
Definition lowerElement (v : Value) : Completion string :=
  match v with
  | VString s => Normal (toLowerCase s)
  | _ => Throw TypeError
  end.

(** [(frontmatter['aliases'] || []).map(alias => alias.toLowerCase())]:
    a missing or falsy field counts as the empty array, a truthy value
    other than an array has no [map]. *)
Definition existingAliases (frontmatter : Frontmatter) : Completion (list string) :=
  match frontmatter !! "aliases" with
  | None => Normal []
  | Some v =>
      if truthy v then
        match v with
        | VArray l => mapM lowerElement l
        | _ => Throw TypeError
        end
      else Normal []
  end.

(** [[...new Set([...existingAliases, ...aliases])].sort()] *)
Definition combine (existingAliases aliases : list string) : list string :=
  sort (Set_from (existingAliases ++ aliases)).

(** The function that [updateFrontmatter] hands to [processFrontMatter]. *)
Definition callback (aliases : list string) (frontmatter : Frontmatter)
  : Completion Frontmatter :=
  existing ← existingAliases frontmatter;
  Normal (<["aliases" := VArray (VString <$> combine existing aliases)]> frontmatter).

(** The merge of the specification, read off the callback: from the
    aliases recorded in the metadata and the aliases of the scan to the
    aliases recorded afterwards. *)
Definition merge (existing incoming : list string) : list string :=
  combine (toLowerCase <$> existing) incoming.

End Merger.

(** ** The settings of the plugin *)

Record Settings : Set := {
  fileRegex : string;
  showUpdateNotice : bool;
  debounceTimeout : Z
}.

Definition DEFAULT_SETTINGS : Settings :=
  {| fileRegex := "[0-9]{4}\-[0-9]{2}\-[0-9]{2}";
     showUpdateNotice := true;
     debounceTimeout := 1000 |}.

(** The object that [loadData] resolves to: any of the fields may be
    missing.  A field that is present has the type of what
    [saveData(this.settings)] writes for it: a string, a boolean, an
    integer.  A data file changed by other means can hold any JSON value
    in a field ([Object.assign] copies it as it is, and a timeout that is
    no number goes through [Math.min] and [Math.max] as [NaN]); such a file
    is outside this type, and what is proved of [loadSettings] is proved
    for the stored objects of this type only. *)
Record Data : Set := {
  dataFileRegex : option string;
  dataShowUpdateNotice : option bool;
  dataDebounceTimeout : option Z
}.

(** ** The host: vault, metadata cache, file manager, notices *)

(** The regular expression engine of the runtime, as [processFile] and the
    settings tab use it: [RegExp_new source] is [new RegExp(source)], which
    throws a [SyntaxError] on an invalid pattern; the regular expression it
    returns is kept as the test [name => name.match(regex) !== null]. *)
Class RegExpEngine := RegExp_new : string -> Completion (string -> bool).

Module Host.
Import Merger.

(** A [TFile] object is known by its identity; its attributes are kept by
    the host and change when the host renames or moves the file. *)
Definition FileRef : Set := nat.

Record TFile : Set := { path : string; basename : string; extension : string }.

Inductive Notice : Set :=
| NoticeLoaded
| NoticeInitFailed
| NoticeUpdated (updatedCount : nat)
| NoticeProcessError (basename : string) (e : Error)
| NoticeLoadFailed
| NoticeSaveFailed
| NoticeInvalidRegex (e : Error)
| NoticeDebounceRange
| NoticeDebounceUpdated.

(** What a method does to the outside, in the order it does it. *)
Inductive Effect : Set :=
| VaultRead (file : FileRef)             (* [vault.read(file)] *)
| ProcessFrontMatter (file : FileRef)    (* [fileManager.processFrontMatter(file, _)] *)
| ConsoleLogSkipped (targetNote : string)
| ConsoleErrorUpdating (path : string) (e : Error)
| ConsoleErrorProcessing (path : string) (e : Error)
| ConsoleErrorSaving (e : Error)
| ConsoleErrorLoading (e : Error)
| ConsoleLogLoaded
| ShowNotice (n : Notice).

(** What the plugin reads from the host and never changes itself. *)
Record Env : Type := {
  files : FileRef -> TFile;
  (** [vault.read]: the content, or a rejection. *)
  read : FileRef -> Completion string;
  (** [metadataCache.getFirstLinkpathDest(linkpath, sourcePath)]. *)
  getFirstLinkpathDest : string -> string -> option FileRef;
  (** [processFrontMatter] is rejected for these files. *)
  unwritable : FileRef -> bool;
  (** [workspace.getActiveFile()]. *)
  getActiveFile : option FileRef;
  (** [loadData()]: the saved object, [null], or a rejection. *)
  loadData : Completion (option Data);
  (** [saveData] is rejected. *)
  saveDataRejects : bool
}.

(** What the plugin changes: the frontmatter of the notes (a note without
    frontmatter has the empty object), the saved settings, and the trace of
    its effects. *)
Record Store : Type := {
  frontmatters : gmap FileRef Frontmatter;
  (** The settings kept by [saveData]. *)
  savedData : option Settings;
  trace : list Effect
}.

Definition emit (e : Effect) (st : Store) : Store :=
  {| frontmatters := frontmatters st; savedData := savedData st;
     trace := trace st ++ [e] |}.

Definition frontmatterOf (file : FileRef) (st : Store) : Frontmatter :=
  default ∅ (frontmatters st !! file).

Definition setFrontmatter (file : FileRef) (fm : Frontmatter) (st : Store) : Store :=
  {| frontmatters := <[file := fm]> (frontmatters st); savedData := savedData st;
     trace := trace st |}.

Definition setSavedData (settings : Settings) (st : Store) : Store :=
  {| frontmatters := frontmatters st; savedData := Some settings;
     trace := trace st |}.

(** An [async] method: it changes the store and returns or throws. *)
Definition Run (A : Type) : Type := Store -> Store * Completion A.

#[global] Instance Run_ret : MRet Run := fun A a st => (st, Normal a).

#[global] Instance Run_bind : MBind Run := fun A B k m st =>
  match m st with
  | (st', Normal a) => k a st'
  | (st', Throw e) => (st', Throw e)
  end.

Definition throw {A} (e : Error) : Run A := fun st => (st, Throw e).

Definition lift {A} (c : Completion A) : Run A := fun st => (st, c).

Definition effect (e : Effect) : Run unit := fun st => (emit e st, Normal ()).

(** [try { body } catch (error) { handler }] *)
Definition tryCatch {A} (body : Run A) (handler : Error -> Run A) : Run A :=
  fun st =>
    match body st with
    | (st', Normal a) => (st', Normal a)
    | (st', Throw e) => handler e st'
    end.

(** [fileManager.processFrontMatter(file, fn)]: the frontmatter is read,
    [fn] changes it, and it is written back as one step; nothing is
    written when [fn] throws or the host rejects the call. *)
Definition processFrontMatter (env : Env) (file : FileRef)
    (fn : Frontmatter -> Completion Frontmatter) : Run unit :=
  fun st =>
    let st := emit (ProcessFrontMatter file) st in
    if unwritable env file then (st, Throw HostError)
    else
      match fn (frontmatterOf file st) with
      | Normal fm => (setFrontmatter file fm st, Normal ())
      | Throw e => (st, Throw e)
      end.

(** [vault.read(file)] *)
Definition vaultRead (env : Env) (file : FileRef) : Run string :=
  fun st => (emit (VaultRead file) st, read env file).

(** The effects that a run from [st] to [st'] has added to the trace. *)
Definition added (st st' : Store) : list Effect :=
  drop (length (trace st)) (trace st').

(** A method only adds to the trace. *)
Definition monotone {A} (m : Run A) : Prop :=
  forall st, trace st `prefix_of` trace (m st).1.

(** Unfolds the steps of a method down to the stores. *)
Ltac run_steps :=
  unfold mbind, mret, Run_bind, Run_ret, effect, throw, lift, emit, setFrontmatter;
  cbn [fst snd trace frontmatters savedData].

End Host.

(** ** The document pipeline: [processFile] and [updateFrontmatter] *)

Module Pipeline.
Import Host Extractor.

Section WithEngine.
Context `{RegExpEngine}.

Definition updateFrontmatter (env : Env) (file : FileRef) (aliases : list string)
  : Run unit :=
  tryCatch
    (processFrontMatter env file (Merger.callback aliases))
    (fun error =>
       _ ← effect (ConsoleErrorUpdating (path (files env file)) error);
       throw error).

(** [for (const [targetNote, aliases] of Object.entries(aliasMap)) { ... }];
    the value is [updatedCount] after the loop. *)
Fixpoint forEntries (env : Env) (file : FileRef)
    (entries : list (string * list string)) (updatedCount : nat) : Run nat :=
  match entries with
  | [] => mret updatedCount
  | (targetNote, aliases) :: rest =>
      match getFirstLinkpathDest env targetNote (path (files env file)) with
      | Some targetFile =>
          if String.eqb (extension (files env targetFile)) "md" then
            _ ← updateFrontmatter env targetFile aliases;
            forEntries env file rest (S updatedCount)
          else
            _ ← effect (ConsoleLogSkipped targetNote);
            forEntries env file rest updatedCount
      | None =>
          _ ← effect (ConsoleLogSkipped targetNote);
          forEntries env file rest updatedCount
      end
  end.

(** The body of the [try] block of [processFile]. *)
Definition processFileBody (settings : Settings) (env : Env) (file : FileRef)
  : Run unit :=
  regex ← lift (RegExp_new ("^" +:+ fileRegex settings +:+ "$"));
  if negb (regex (basename (files env file))) then mret ()
  else
    content ← vaultRead env file;
    aliasMap ← lift (extractAliases content);
    if (0 <? length (JsObject.keys aliasMap))%nat then
      updatedCount ← forEntries env file (JsObject.entries aliasMap) 0;
      if (0 <? updatedCount)%nat && showUpdateNotice settings then
        effect (ShowNotice (NoticeUpdated updatedCount))
      else mret ()
    else mret ().

(** [processFile(file)]: whatever the body throws is reported and not
    thrown further. *)
Definition processFile (settings : Settings) (env : Env) (file : FileRef)
    (st : Store) : Store :=
  fst (tryCatch
         (processFileBody settings env file)
         (fun error =>
            _ ← effect (ConsoleErrorProcessing (path (files env file)) error);
            effect (ShowNotice (NoticeProcessError (basename (files env file)) error)))
         st).

(** The part of [processFile] after the test of the file name. *)
Definition afterGate (settings : Settings) (env : Env) (file : FileRef) : Run unit :=
  content ← vaultRead env file;
  aliasMap ← lift (extractAliases content);
  if (0 <? length (JsObject.keys aliasMap))%nat then
    updatedCount ← forEntries env file (JsObject.entries aliasMap) 0;
    if (0 <? updatedCount)%nat && showUpdateNotice settings then
      effect (ShowNotice (NoticeUpdated updatedCount))
    else mret ()
  else mret ().

Definition report (env : Env) (file : FileRef) (error : Error) : Run unit :=
  _ ← effect (ConsoleErrorProcessing (path (files env file)) error);
  effect (ShowNotice (NoticeProcessError (basename (files env file)) error)).

(** The test of the file name succeeds: the regular expression made of
    [^], the configured pattern and [$] compiles and finds a match in the
    base name of the file. *)
Definition nameMatches (settings : Settings) (env : Env) (file : FileRef) : Prop :=
  exists regex,
    RegExp_new ("^" +:+ fileRegex settings +:+ "$") = Normal regex
    /\ regex (basename (files env file)) = true.

End WithEngine.
End Pipeline.

(** ** The change scheduler: [debounce], [onload] and the settings tab *)

Module Scheduler.
Import Host.

(** A timer of the host that has not fired yet.  The only call of
    [setTimeout] is the one of [debounce], so the callback of a timer is
    known by the arguments it applies the debounced function to. *)
Record Timer : Set := { timerId : nat; due : Z; timerArg : FileRef }.

(** The function that [debounce(func, wait)] returns: its parameter [wait]
    and its variable [timeout], which holds the identifier of the last
    timer, fired or not. *)
Record Debounced : Set := { wait : Z; timeout : option nat }.

(** [debounce(func, wait)]: the function it returns has no timer yet. *)
Definition debounce (wait : Z) : Debounced := {| wait := wait; timeout := None |}.

(** The plugin object: its settings and the handler that [onload] builds
    with [debounce]. *)
Record Plugin : Set := {
  settings : Settings;
  debouncedProcessFile : Debounced
}.

(** The plugin in its host: the clock in milliseconds, the pending timers
    in the order in which they fire, and the calls of [processFile] with
    the time of each. *)
Record System : Type := {
  plugin : Plugin;
  env : Env;
  store : Store;
  now : Z;
  timers : list Timer;
  nextTimerId : nat;
  calls : list (Z * FileRef)
}.

Definition setPlugin (p : Plugin) (sys : System) : System :=
  {| plugin := p; env := env sys; store := store sys; now := now sys;
     timers := timers sys; nextTimerId := nextTimerId sys; calls := calls sys |}.

Definition setEnv (e : Env) (sys : System) : System :=
  {| plugin := plugin sys; env := e; store := store sys; now := now sys;
     timers := timers sys; nextTimerId := nextTimerId sys; calls := calls sys |}.

Definition setStore (st : Store) (sys : System) : System :=
  {| plugin := plugin sys; env := env sys; store := st; now := now sys;
     timers := timers sys; nextTimerId := nextTimerId sys; calls := calls sys |}.

Definition setNow (t : Z) (sys : System) : System :=
  {| plugin := plugin sys; env := env sys; store := store sys; now := t;
     timers := timers sys; nextTimerId := nextTimerId sys; calls := calls sys |}.

Definition setTimers (ts : list Timer) (sys : System) : System :=
  {| plugin := plugin sys; env := env sys; store := store sys; now := now sys;
     timers := ts; nextTimerId := nextTimerId sys; calls := calls sys |}.

Definition setSettings (s : Settings) (sys : System) : System :=
  setPlugin {| settings := s; debouncedProcessFile := debouncedProcessFile (plugin sys) |} sys.

Definition emitS (e : Effect) (sys : System) : System :=
  setStore (emit e (store sys)) sys.

(** A new timer goes after the pending timers that are due no later. *)
Fixpoint insertTimer (t : Timer) (ts : list Timer) : list Timer :=
  match ts with
  | [] => [t]
  | t' :: r => if (due t' <=? due t)%Z then t' :: insertTimer t r else t :: ts
  end.

(** [clearTimeout(id)]; nothing happens for [undefined] and for the
    identifier of a timer that has fired. *)
Definition clearTimeout (id : option nat) (ts : list Timer) : list Timer :=
  match id with
  | Some i => filter (fun t => timerId t ≠ i) ts
  | None => ts
  end.

Section WithEngine.
Context `{RegExpEngine}.

(** A call [this.processFile(file)], noted with its time. *)
Definition callProcessFile (file : FileRef) (sys : System) : System :=
  {| plugin := plugin sys; env := env sys;
     store := Pipeline.processFile (settings (plugin sys)) (env sys) file (store sys);
     now := now sys; timers := timers sys; nextTimerId := nextTimerId sys;
     calls := calls sys ++ [(now sys, file)] |}.

(** The handler of ['file-open']; the event carries [null] when no file is
    open. *)
Definition onFileOpen (file : option FileRef) (sys : System) : System :=
  match file with
  | Some f =>
      if String.eqb (extension (files (env sys) f)) "md" then callProcessFile f sys
      else sys
  | None => sys
  end.

(** The function handed to [debounce]: it runs when the timer fires. *)
Definition debouncedFunc (file : FileRef) (sys : System) : System :=
  if String.eqb (extension (files (env sys) file)) "md"
     && bool_decide (getActiveFile (env sys) = Some file)
  then callProcessFile file sys
  else sys.

(** The handler of ['modify']: the function returned by [debounce].
    [clearTimeout(timeout); timeout = setTimeout(..., wait)]. *)
Definition onModify (file : FileRef) (sys : System) : System :=
  let d := debouncedProcessFile (plugin sys) in
  let id := nextTimerId sys in
  let t := {| timerId := id; due := now sys + Z.max 0 (wait d); timerArg := file |} in
  {| plugin := {| settings := settings (plugin sys);
                  debouncedProcessFile := {| wait := wait d; timeout := Some id |} |};
     env := env sys; store := store sys; now := now sys;
     timers := insertTimer t (clearTimeout (timeout d) (timers sys));
     nextTimerId := S id; calls := calls sys |}.

(** The timers due by [target] fire in their order; the clock shows the
    due time of a timer when it fires. *)
Fixpoint runDue (target : Z) (pending : list Timer) (sys : System) : System :=
  match pending with
  | [] => setTimers [] sys
  | t :: rest =>
      if (due t <=? target)%Z then
        runDue target rest
          (debouncedFunc (timerArg t) (setNow (Z.max (now sys) (due t)) (setTimers rest sys)))
      else setTimers pending sys
  end.

(** [ms] milliseconds pass. *)
Definition elapse (ms : N) (sys : System) : System :=
  let target := (now sys + Z.of_N ms)%Z in
  setNow target (runDue target (timers sys) sys).

(** [saveSettings()] *)
Definition saveSettings (sys : System) : System :=
  if saveDataRejects (env sys) then
    emitS (ShowNotice NoticeSaveFailed) (emitS (ConsoleErrorSaving HostError) sys)
  else setStore (setSavedData (settings (plugin sys)) (store sys)) sys.

(** [onChange] of the text field of the file name pattern. *)
Definition onChangeFileRegex (value : string) (sys : System) : System :=
  match RegExp_new value with
  | Normal _ =>
      let s := settings (plugin sys) in
      saveSettings
        (setSettings
           {| fileRegex := if JsString.truthy value then value
                           else fileRegex DEFAULT_SETTINGS;
              showUpdateNotice := showUpdateNotice s;
              debounceTimeout := debounceTimeout s |} sys)
  | Throw e => emitS (ShowNotice (NoticeInvalidRegex e)) sys
  end.

(** [onChange] of the toggle of the update notice. *)
Definition onChangeShowNotice (value : bool) (sys : System) : System :=
  let s := settings (plugin sys) in
  saveSettings
    (setSettings
       {| fileRegex := fileRegex s; showUpdateNotice := value;
          debounceTimeout := debounceTimeout s |} sys).

(** The decimal digits at the start of [s], as a number. *)
Fixpoint leadingDigits (acc : option Z) (s : string) : option Z :=
  match s with
  | EmptyString => acc
  | String c r =>
      match JsObject.digit c with
      | Some d => leadingDigits (Some (default 0 acc * 10 + Z.of_N d)%Z) r
      | None => acc
      end
  end.

(** [parseInt(value, 10)]; [None] is [NaN]. *)
Definition parseInt (value : string) : option Z :=
  match JsString.trimStart value with
  | String "-" r => Z.opp <$> leadingDigits None r
  | String "+" r => leadingDigits None r
  | r => leadingDigits None r
  end.

(** [onChange] of the text field of the debounce timeout. *)
Definition onChangeDebounce (value : string) (sys : System) : System :=
  match parseInt value with
  | Some numValue =>
      if (numValue <? 1000)%Z || (5000 <? numValue)%Z then
        emitS (ShowNotice NoticeDebounceRange) sys
      else
        let s := settings (plugin sys) in
        emitS (ShowNotice NoticeDebounceUpdated)
          (saveSettings
             (setSettings
                {| fileRegex := fileRegex s; showUpdateNotice := showUpdateNotice s;
                   debounceTimeout := numValue |} sys))
  | None => emitS (ShowNotice NoticeDebounceRange) sys
  end.

(** [Object.assign({}, DEFAULT_SETTINGS, data || {})] *)
Definition assignData (data : option Data) : Settings :=
  match data with
  | Some d =>
      {| fileRegex := default (fileRegex DEFAULT_SETTINGS) (dataFileRegex d);
         showUpdateNotice := default (showUpdateNotice DEFAULT_SETTINGS) (dataShowUpdateNotice d);
         debounceTimeout := default (debounceTimeout DEFAULT_SETTINGS) (dataDebounceTimeout d) |}
  | None => DEFAULT_SETTINGS
  end.

(** [Math.max(1000, Math.min(5000, t || DEFAULT_SETTINGS.debounceTimeout))] *)
Definition clampTimeout (t : Z) : Z :=
  Z.max 1000 (Z.min 5000 (if (t =? 0)%Z then debounceTimeout DEFAULT_SETTINGS else t)).

(** [loadSettings()]: the settings, and what it reports. *)
Definition loadSettings (e : Env) : Settings * list Effect :=
  match loadData e with
  | Normal data =>
      let s := assignData data in
      ({| fileRegex := fileRegex s; showUpdateNotice := showUpdateNotice s;
          debounceTimeout := clampTimeout (debounceTimeout s) |}, [])
  | Throw err =>
      (DEFAULT_SETTINGS, [ConsoleErrorLoading err; ShowNotice NoticeLoadFailed])
  end.

(** [onload()]: the settings are loaded, the handlers are registered, and
    [debounce] receives the value of [this.settings.debounceTimeout] of
    this moment. *)
Definition onload (e : Env) (st : Store) (t : Z) : System :=
  let (s, effects) := loadSettings e in
  {| plugin := {| settings := s;
                  debouncedProcessFile := debounce (debounceTimeout s) |};
     env := e;
     store := fold_left (fun st eff => emit eff st) (effects ++ [ConsoleLogLoaded; ShowNotice NoticeLoaded]) st;
     now := t; timers := []; nextTimerId := 0; calls := [] |}.

(** What happens to the loaded plugin. *)
Inductive Event : Type :=
| FileOpen (file : option FileRef)
| Modify (file : FileRef)
| Elapse (ms : N)
| HostChange (e : Env)            (* the host changes what the plugin reads *)
| EditFileRegex (value : string)
| ToggleShowNotice (value : bool)
| EditDebounce (value : string).

Definition step (ev : Event) (sys : System) : System :=
  match ev with
  | FileOpen file => onFileOpen file sys
  | Modify file => onModify file sys
  | Elapse ms => elapse ms sys
  | HostChange e => setEnv e sys
  | EditFileRegex value => onChangeFileRegex value sys
  | ToggleShowNotice value => onChangeShowNotice value sys
  | EditDebounce value => onChangeDebounce value sys
  end.

Definition run (evs : list Event) (sys : System) : System :=
  fold_left (fun sys ev => step ev sys) evs sys.

End WithEngine.

(** The wait of the debounced handler. *)
Definition handlerWait (sys : System) : Z := wait (debouncedProcessFile (plugin sys)).

(** At most one timer is pending, and it is the one that the variable
    [timeout] of the debounced handler names. *)
Definition singleTimer (sys : System) : Prop :=
  match timers sys with
  | [] => True
  | [t] => timeout (debouncedProcessFile (plugin sys)) = Some (timerId t)
  | _ => False
  end.

(** The calls of [processFile] that a run from [sys] to [sys'] has added. *)
Definition newCalls (sys sys' : System) : list (Z * FileRef) :=
  drop (length (calls sys)) (calls sys').



End Scheduler.

(** ** A regular expression engine for a fragment of the pattern language

    The properties of the pipeline and of the scheduler hold for every
    engine.  To run them on concrete documents, this engine decides the
    patterns built from literal characters, [.], the escapes [\d], [\w],
    [\s] and [\] before a character that is neither a letter nor a digit,
    character classes with ranges, groups, [|], [^], [$] and the
    quantifiers [*], [+], [?], [{n}], [{n,}], [{n,m}] (lazy or not).  It
    rejects every other pattern, also those that the full language
    accepts; it is meant for patterns of the fragment only. *)

Module Fragment.
Import JsString.

Inductive Regex : Set :=
| Empty
| Char (c : ascii)
| Any
| Class (negated : bool) (ranges : list (ascii * ascii))
| Bol
| Eol
| Seq (r1 r2 : Regex)
| Alt (r1 r2 : Regex)
| Repeat (r : Regex) (min : nat) (max : option nat).

Definition inRanges (c : ascii) (ranges : list (ascii * ascii)) : bool :=
  existsb (fun r => (code (fst r) <=? code c)%N && (code c <=? code (snd r))%N) ranges.

(** [matchHere r pos s k]: some match of [r] at the start of [s], which is
    the subject from position [pos] on, ends where [k] accepts. *)
Fixpoint matchHere (r : Regex) (pos : nat) (s : string)
    (k : nat -> string -> bool) : bool :=
  match r with
  | Empty => k pos s
  | Char c =>
      match s with
      | String c' s' => Ascii.eqb c c' && k (S pos) s'
      | EmptyString => false
      end
  | Any =>
      match s with
      | String c' s' => negb (isLineTerminator c') && k (S pos) s'
      | EmptyString => false
      end
  | Class negated ranges =>
      match s with
      | String c' s' => xorb negated (inRanges c' ranges) && k (S pos) s'
      | EmptyString => false
      end
  | Bol => (pos =? 0)%nat && k pos s
  | Eol => match s with EmptyString => k pos s | _ => false end
  | Seq r1 r2 => matchHere r1 pos s (fun pos' s' => matchHere r2 pos' s' k)
  | Alt r1 r2 => matchHere r1 pos s k || matchHere r2 pos s k
  | Repeat r1 min max =>
      let extra := match max with
                   | Some n => (n - min)%nat
                   | None => String.length s
                   end in
      (fix rep (must may : nat) (pos : nat) (s : string) {struct must} : bool :=
         match must with
         | S must' => matchHere r1 pos s (rep must' may)
         | O =>
             (fix more (may : nat) (pos : nat) (s : string) {struct may} : bool :=
                k pos s ||
                match may with
                | S may' => matchHere r1 pos s (more may')
                | O => false
                end) may pos s
         end) min extra pos s
  end.

(** [subject.match(regex) !== null] without the flags [g] and [y]: a match
    may start at any position. *)
Fixpoint searchFrom (r : Regex) (pos : nat) (s : string) : bool :=
  matchHere r pos s (fun _ _ => true)
  || match s with
     | EmptyString => false
     | String _ s' => searchFrom r (S pos) s'
     end.

Definition isDigit (c : ascii) : bool := ((48 <=? code c) && (code c <=? 57))%N.

Definition isAlnum (c : ascii) : bool :=
  isDigit c || ((65 <=? code c) && (code c <=? 90))%N
  || ((97 <=? code c) && (code c <=? 122))%N.

Definition digitRanges : list (ascii * ascii) := [("0", "9")]%char.
Definition wordRanges : list (ascii * ascii) :=
  [("0", "9"); ("A", "Z"); ("a", "z"); ("_", "_")]%char.
Definition spaceRanges : list (ascii * ascii) :=
  [("009", "013"); (" ", " "); ("160", "160")]%char.

(** The class that an escape stands for, in a pattern or in a class. *)
Definition escapeRanges (c : ascii) : Completion (list (ascii * ascii)) :=
  if Ascii.eqb c "d" then Normal digitRanges
  else if Ascii.eqb c "w" then Normal wordRanges
  else if Ascii.eqb c "s" then Normal spaceRanges
  else if isAlnum c then Throw SyntaxError
  else Normal [(c, c)].

(** The items of a character class up to the closing bracket. *)
Fixpoint classItems (fuel : nat) (s : string) (acc : list (ascii * ascii))
  : Completion (list (ascii * ascii) * string) :=
  match fuel with
  | O => Throw SyntaxError
  | S fuel =>
      match s with
      | EmptyString => Throw SyntaxError
      | String a r =>
          if Ascii.eqb a "]" then Normal (acc, r)
          else if Ascii.eqb a "\" then
            match r with
            | String c r' => rs ← escapeRanges c; classItems fuel r' (acc ++ rs)
            | EmptyString => Throw SyntaxError
            end
          else
            match r with
            | String dash (String b r') =>
                if negb (Ascii.eqb dash "-") then classItems fuel r (acc ++ [(a, a)])
                else if Ascii.eqb b "]" then Normal (acc ++ [(a, a); ("-", "-")]%char, r')
                else if Ascii.eqb b "\" then Throw SyntaxError
                else if (code a <=? code b)%N then classItems fuel r' (acc ++ [(a, b)])
                else Throw SyntaxError
            | _ => classItems fuel r (acc ++ [(a, a)])
            end
      end
  end.

(** A decimal number at the start of [s]. *)
Fixpoint number (s : string) (acc : option nat) : option nat * string :=
  match s with
  | String c r =>
      if isDigit c then
        number r (Some (default 0 acc * 10 + N.to_nat (code c - 48))%nat)
      else (acc, s)
  | EmptyString => (acc, s)
  end.

(** The quantifier after an atom, if any, with its lazy mark. *)
Definition quantifier (atom : Regex) (s : string) : Completion (Regex * string) :=
  let lazy (res : Regex * string) :=
    match snd res with
    | String "?" r => (fst res, r)
    | _ => res
    end in
  match s with
  | String "*" r => Normal (lazy (Repeat atom 0 None, r))
  | String "+" r => Normal (lazy (Repeat atom 1 None, r))
  | String "?" r => Normal (lazy (Repeat atom 0 (Some 1), r))
  | String "{" r =>
      match number r None with
      | (Some n, String "}" r') => Normal (lazy (Repeat atom n (Some n), r'))
      | (Some n, String "," (String "}" r')) => Normal (lazy (Repeat atom n None, r'))
      | (Some n, String "," r') =>
          match number r' None with
          | (Some m, String "}" r'') =>
              if (n <=? m)%nat then Normal (lazy (Repeat atom n (Some m), r''))
              else Throw SyntaxError
          | _ => Throw SyntaxError
          end
      | _ => Throw SyntaxError
      end
  | _ => Normal (atom, s)
  end.

(** Disjunction, alternative and term of the pattern grammar. *)
Fixpoint disjunction (fuel : nat) (s : string) : Completion (Regex * string) :=
  match fuel with
  | O => Throw SyntaxError
  | S fuel =>
      '(a, rest) ← alternative fuel s;
      match rest with
      | String "|" r => '(d, rest') ← disjunction fuel r; Normal (Alt a d, rest')
      | _ => Normal (a, rest)
      end
  end
with alternative (fuel : nat) (s : string) : Completion (Regex * string) :=
  match fuel with
  | O => Throw SyntaxError
  | S fuel =>
      match s with
      | EmptyString | String "|" _ | String ")" _ => Normal (Empty, s)
      | _ =>
          '(t, rest) ← term fuel s;
          '(a, rest') ← alternative fuel rest;
          Normal (Seq t a, rest')
      end
  end
with term (fuel : nat) (s : string) : Completion (Regex * string) :=
  match fuel with
  | O => Throw SyntaxError
  | S fuel =>
      match s with
      | EmptyString => Throw SyntaxError
      | String "^" r => Normal (Bol, r)
      | String "$" r => Normal (Eol, r)
      | String "." r => quantifier Any r
      | String "(" r =>
          let body := match r with
                      | String "?" (String ":" r') => Normal r'
                      | String "?" _ => Throw SyntaxError
                      | _ => Normal r
                      end in
          r' ← body;
          '(d, rest) ← disjunction fuel r';
          match rest with
          | String ")" rest' => quantifier d rest'
          | _ => Throw SyntaxError
          end
      | String "[" (String "^" r) =>
          '(rs, rest) ← classItems (S (String.length r)) r []; quantifier (Class true rs) rest
      | String "[" r =>
          '(rs, rest) ← classItems (S (String.length r)) r []; quantifier (Class false rs) rest
      | String "\" (String c r) =>
          rs ← escapeRanges c;
          quantifier (match rs with [(a, b)] => if Ascii.eqb a b then Char a else Class false rs
                                  | _ => Class false rs end) r
      | String c r =>
          if existsb (Ascii.eqb c) ["*"; "+"; "?"; "{"; "}"; "]"; "\"]%char
          then Throw SyntaxError
          else quantifier (Char c) r
      end
  end.

Definition parse (source : string) : Completion Regex :=
  '(r, rest) ← disjunction (3 * String.length source + 3) source;
  match rest with
  | EmptyString => Normal r
  | _ => Throw SyntaxError
  end.

(** The engine. *)
Definition engine : RegExpEngine :=
  fun source => r ← parse source; Normal (searchFrom r 0).

End Fragment.

(** ** A small vault, to run the plugin on *)

Module Vault.
Import Host.

(** The daily note, the notes [A] and [B], and a note whose name is not a
    date. *)
Definition daily : FileRef := 0.
Definition noteA : FileRef := 1.
Definition noteB : FileRef := 2.
Definition notes : FileRef := 3.

Definition vaultFiles (f : FileRef) : TFile :=
  match f with
  | 0 => {| path := "2024-01-01.md"; basename := "2024-01-01"; extension := "md" |}
  | 1 => {| path := "A.md"; basename := "A"; extension := "md" |}
  | 2 => {| path := "B.md"; basename := "B"; extension := "md" |}
  | _ => {| path := "notes.md"; basename := "notes"; extension := "md" |}
  end.

Definition vaultRead (f : FileRef) : Completion string :=
  match f with
  | 0 => Normal "On [[A|x]] and [[B|y]]."
  | 3 => Normal "See [[A|z]]."
  | _ => Normal ""
  end.

Definition vaultLinks (linkpath sourcePath : string) : option FileRef :=
  if String.eqb linkpath "A" then Some noteA
  else if String.eqb linkpath "B" then Some noteB
  else None.

(** The vault where [processFrontMatter] is rejected for the files in
    [locked] and where [active] is the active file. *)
Definition vault (locked : FileRef -> bool) (active : option FileRef) : Env :=
  {| files := vaultFiles;
     read := vaultRead;
     getFirstLinkpathDest := vaultLinks;
     unwritable := locked;
     getActiveFile := active;
     loadData := Normal None;
     saveDataRejects := false |}.

Definition emptyStore : Store :=
  {| frontmatters := ∅; savedData := None; trace := [] |}.

(** A store in which the note [A] has aliases and another field. *)
Definition taggedStore : Store :=
  {| frontmatters :=
       {[ noteA := {[ "aliases" := Merger.VArray [Merger.VString "Foo"]; "tags" := Merger.VString "x" ]} ]};
     savedData := None; trace := [] |}.

(** The vault in which the frontmatter of the note [A] cannot be written. *)
Definition lockedA : Env := vault (fun f => bool_decide (f = noteA)) None.

(** The vault with the daily note as the active file, and the loaded plugin
    in it at time 0. *)
Definition editing : Env := vault (fun _ => false) (Some daily).

Definition loaded : Scheduler.System := Scheduler.onload editing emptyStore 0.

(** The same vault after the user has moved to the note [A]. *)
Definition movedToA : Env := vault (fun _ => false) (Some noteA).

End Vault.

(** ** Further notions used by the properties *)

Module Notions.
Import JsString AliasRegex Extractor Merger Host Scheduler.

(** The field [aliases] of a frontmatter is one that the callback of
    [updateFrontmatter] can read: missing, falsy, or an array of strings. *)
Definition readableAliases (frontmatter : Frontmatter) : Prop :=
  match frontmatter !! "aliases" with
  | None => True
  | Some v => truthy v = false \/ exists l, v = VArray (VString <$> l)
  end.

(** The text of a target that the pattern takes whole: no pipe, no closing
    bracket, no line terminator. *)
Definition plainTarget (t : string) : Prop :=
  forallb (fun c => negb (Ascii.eqb c "|") && negb (Ascii.eqb c "]")
                    && negb (isLineTerminator c)) t = true.

(** The text of an alias that the pattern takes whole: no closing bracket,
    no line terminator. *)
Definition plainAlias (a : string) : Prop :=
  forallb (fun c => negb (Ascii.eqb c "]") && negb (isLineTerminator c)) a = true.

(** The entry of the map is one that the loop of [processFile] updates:
    its target resolves to a note. *)
Definition resolves (env : Env) (file : FileRef) (entry : string * list string) : bool :=
  match getFirstLinkpathDest env entry.1 (path (files env file)) with
  | Some targetFile => String.eqb (extension (files env targetFile)) "md"
  | None => false
  end.

(** Two stores with the same frontmatters and the same saved settings:
    they differ in their traces at most. *)
Definition sameData (st st' : Store) : Prop :=
  frontmatters st = frontmatters st' /\ savedData st = savedData st'.

Definition isNotice (e : Effect) : bool :=
  match e with
  | ShowNotice _ => true
  | _ => false
  end.

(** The number of notices among the effects. *)
Definition noticeCount (l : list Effect) : nat := length (List.filter isNotice l).

(** [saveData(this.settings)] stores the settings object with all its
    fields. *)
Definition dataOf (s : Settings) : Data :=
  {| dataFileRegex := Some (fileRegex s);
     dataShowUpdateNotice := Some (showUpdateNotice s);
     dataDebounceTimeout := Some (debounceTimeout s) |}.

(** The host when the plugin is loaded again: [loadData] resolves to what
    [saveData] has stored, or to [null] when nothing was stored. *)
Definition reopened (e : Env) (st : Store) : Env :=
  {| files := files e; read := read e;
     getFirstLinkpathDest := getFirstLinkpathDest e;
     unwritable := unwritable e; getActiveFile := getActiveFile e;
     loadData := Normal (dataOf <$> savedData st);
     saveDataRejects := saveDataRejects e |}.

(** The timeout lies in the range that the settings tab accepts. *)
Definition timeoutInRange (s : Settings) : Prop :=
  (1000 <= debounceTimeout s <= 5000)%Z.

(** A pending timer is not overdue and is due within one wait. *)
Definition timersDueSoon (sys : System) : Prop :=
  forall t, t ∈ timers sys ->
            (now sys <= due t <= now sys + wait (debouncedProcessFile (plugin sys)))%Z.

(** The map of the extractor is tidy: a target is not empty, has at least
    one alias, and no alias is empty. *)
Definition tidy (aliasMap : JsObject.t (list string)) : Prop :=
  forall target aliases,
    (target, aliases) ∈ aliasMap ->
    target <> "" /\ aliases <> [] /\ forall alias, alias ∈ aliases -> alias <> "".

(** The string has no white space at its ends. *)
Definition trimmed (s : string) : Prop := trim s = s.

(** The note [f] records at least the aliases [aliases]: its field
    [aliases] is a sorted array of lower-cased strings that holds them. *)
Definition recorded (F : gmap FileRef Frontmatter) (f : FileRef)
    (aliases : list string) : Prop :=
  exists (fm : gmap string Value) l,
    F !! f = Some fm
    /\ fm !! "aliases" = Some (VArray (VString <$> l))
    /\ StronglySorted JsString.lt l /\ Forall lowerCased l /\ aliases ⊆ l.

(** Every frontmatter can be written and has a field [aliases] that the
    callback can read. *)
Definition healthy (env : Env) (st : Store) : Prop :=
  (forall f, unwritable env f = false)
  /\ (forall f, readableAliases (frontmatterOf f st)).

(** The method shows no notice. *)
Definition quiet {A} (m : Run A) : Prop :=
  forall st, exists l, trace (m st).1 = trace st ++ l /\ noticeCount l = 0.

(** The entries that [processFile] loops over for a file: those of the map
    of its content, when its name passes the test and its content can be
    read and scanned; none otherwise. *)
Definition linkedEntries `{RegExpEngine} (settings : Settings) (env : Env)
    (file : FileRef) : list (string * list string) :=
  match RegExp_new ("^" +:+ fileRegex settings +:+ "$") with
  | Normal regex =>
      if regex (basename (files env file)) then
        match read env file with
        | Normal content =>
            match extractAliases content with
            | Normal aliasMap => JsObject.entries aliasMap
            | Throw _ => []
            end
        | Throw _ => []
        end
      else []
  | Throw _ => []
  end.

(** The settings that [saveData] keeps, if any, have their timeout in
    range. *)
Definition savedInRange (st : Store) : Prop :=
  forall s, savedData st = Some s -> timeoutInRange s.

(** [new RegExp] accepts the configured pattern. *)
Definition patternCompiles `{RegExpEngine} (s : Settings) : Prop :=
  exists regex, RegExp_new (fileRegex s) = Normal regex.

(** The events that can lead to a call of [processFile]: a file is opened
    or modified. *)
Definition isTrigger (ev : Event) : bool :=
  match ev with
  | FileOpen (Some _) | Modify _ => true
  | _ => false
  end.

Definition triggers (evs : list Event) : nat := length (List.filter isTrigger evs).

(** The text holds two opening brackets in a row somewhere. *)
Fixpoint hasLinkOpening (s : string) : bool :=
  match opening s with
  | Some _ => true
  | None =>
      match s with
      | EmptyString => false
      | String _ r => hasLinkOpening r
      end
  end.

Definition noLinkOpening (s : string) : Prop := hasLinkOpening s = false.

(** Decimal digits only. *)
Definition allDigits (s : string) : Prop :=
  forallb (fun c => bool_decide (is_Some (JsObject.digit c))) s = true.

(** The string is empty or starts with a character that is no digit. *)
Definition startsNoDigit (s : string) : Prop :=
  match s with
  | EmptyString => True
  | String c _ => JsObject.digit c = None
  end.

End Notions.

(** ** A host that fails, and other settings *)

Module Outage.
Import Host Vault.

(** The vault when the disk fails: no file can be read, and the data of
    the plugin can be neither loaded nor saved. *)
Definition failingDisk : Env :=
  {| files := vaultFiles;
     read := fun _ => Throw HostError;
     getFirstLinkpathDest := vaultLinks;
     unwritable := fun _ => false;
     getActiveFile := Some daily;
     loadData := Throw HostError;
     saveDataRejects := true |}.

(** Stored data with a timeout above the range. *)
Definition slowData : Data :=
  {| dataFileRegex := Some "[a-z]+";
     dataShowUpdateNotice := Some false;
     dataDebounceTimeout := Some 9000%Z |}.

Definition storedSlow : Env :=
  {| files := vaultFiles;
     read := vaultRead;
     getFirstLinkpathDest := vaultLinks;
     unwritable := fun _ => false;
     getActiveFile := Some daily;
     loadData := Normal (Some slowData);
     saveDataRejects := false |}.

(** Settings whose pattern accepts the name of the note [A]. *)
Definition upperCaseNames : Settings :=
  {| fileRegex := "[A-Z]"; showUpdateNotice := true; debounceTimeout := 1000 |}.

(** Settings whose pattern accepts the names in lower-case letters. *)
Definition lowerCaseNames : Settings :=
  {| fileRegex := "[a-z]+"; showUpdateNotice := true; debounceTimeout := 1000 |}.

(** Settings whose pattern is an alternation: the name [n] or the name
    [zzz]. *)
Definition alternation : Settings :=
  {| fileRegex := "n|zzz"; showUpdateNotice := true; debounceTimeout := 1000 |}.

(** A store in which the note [B] has aliases. *)
Definition taggedB : Store :=
  {| frontmatters := {[ noteB := {[ "aliases" := Merger.VArray [Merger.VString "keep"] ]} ]};
     savedData := None; trace := [] |}.

(** The vault in which every file is a task list with an ordinary link:
    single brackets, no link to a note. *)
Definition taskLists : Env :=
  {| files := vaultFiles;
     read := fun _ => Normal "- [ ] call [Ann](https://example.org) [x]";
     getFirstLinkpathDest := vaultLinks;
     unwritable := fun _ => false;
     getActiveFile := Some daily;
     loadData := Normal None;
     saveDataRejects := false |}.

End Outage.

(** ** The test of the file name as the specification words it *)

Module NameTest.

(** Follows the words of the specification, to be compared with the test
    of [processFile]: the pattern, anchored at the start and at the end,
    matches the entire base name, that is, the whole of [name] is one match
    of the whole pattern [source] (what [^(?:source)$] tests).  The pattern
    is read by the parser of the fragment. *)
Definition specMatches (source name : string) : bool :=
  match Fragment.parse source with
  | Normal r =>
      Fragment.matchHere r 0 name
        (fun _ rest => match rest with EmptyString => true | _ => false end)
  | Throw _ => false
  end.

End NameTest.

(** * Properties of the embedding *)

(** ** Strings: case mapping, white space, order *)

Module JsStringFacts.
Import JsString.

Lemma lowerChar_idem c : lowerChar (lowerChar c) = lowerChar c.
Proof. destruct c as [[] [] [] [] [] [] [] []]; reflexivity. Qed.

Lemma toLowerCase_idem s : toLowerCase (toLowerCase s) = toLowerCase s.
Proof.
  induction s as [|c s IH]; simpl; [reflexivity|].
  rewrite lowerChar_idem, IH. reflexivity.
Qed.

Lemma lowerChar_lineTerminator c :
  isLineTerminator (lowerChar c) = isLineTerminator c.
Proof. destruct c as [[] [] [] [] [] [] [] []]; reflexivity. Qed.

Lemma singleLine_toLowerCase s : singleLine (toLowerCase s) = singleLine s.
Proof.
  unfold singleLine. induction s as [|c s IH]; simpl; [reflexivity|].
  rewrite lowerChar_lineTerminator, IH. reflexivity.
Qed.

Lemma singleLine_trimStart s : singleLine s = true -> singleLine (trimStart s) = true.
Proof.
  unfold singleLine. induction s as [|c s IH]; simpl; [done|].
  intros [Hc Hs]%andb_prop. destruct (isWhiteSpace c); simpl; [auto|].
  rewrite Hc, Hs. reflexivity.
Qed.

Lemma singleLine_trimEnd s : singleLine s = true -> singleLine (trimEnd s) = true.
Proof.
  unfold singleLine. induction s as [|c s IH]; simpl; [done|].
  intros [Hc Hs]%andb_prop. specialize (IH Hs).
  destruct (trimEnd s) as [|c' s'] eqn:E.
  - destruct (isWhiteSpace c); simpl; [done|]. rewrite Hc. reflexivity.
  - cbn [forallb]. rewrite Hc. exact IH.
Qed.

Lemma singleLine_trim s : singleLine s = true -> singleLine (trim s) = true.
Proof. intros Hs. apply singleLine_trimEnd, singleLine_trimStart, Hs. Qed.

Lemma singleLine_app s1 s2 :
  singleLine (s1 +:+ s2) = singleLine s1 && singleLine s2.
Proof.
  unfold singleLine. induction s1 as [|c s1 IH]; simpl; [reflexivity|].
  rewrite IH, andb_assoc. reflexivity.
Qed.

(** The order of the code units. *)

Lemma ascii_compare_refl a : Ascii.compare a a = Eq.
Proof. unfold Ascii.compare. apply N.compare_refl. Qed.

Lemma compare_refl s : String.compare s s = Eq.
Proof.
  induction s as [|c s IH]; simpl; [reflexivity|].
  rewrite ascii_compare_refl. exact IH.
Qed.

Lemma ascii_compare_lt_trans a b c :
  Ascii.compare a b = Lt -> Ascii.compare b c = Lt -> Ascii.compare a c = Lt.
Proof.
  unfold Ascii.compare. rewrite !N.compare_lt_iff. apply N.lt_trans.
Qed.

Lemma ascii_compare_eq a b : Ascii.compare a b = Eq -> a = b.
Proof. apply Ascii.compare_eq_iff. Qed.

Lemma lt_trans a b c : lt a b -> lt b c -> lt a c.
Proof.
  unfold lt. revert b c.
  induction a as [|x a IH]; intros [|y b] [|z c]; simpl; try done.
  destruct (Ascii.compare x y) eqn:Exy; try done;
    destruct (Ascii.compare y z) eqn:Eyz; try done.
  - apply ascii_compare_eq in Exy, Eyz. subst. rewrite ascii_compare_refl. apply IH.
  - apply ascii_compare_eq in Exy. subst. rewrite Eyz. done.
  - apply ascii_compare_eq in Eyz. subst. rewrite Exy. done.
  - rewrite (ascii_compare_lt_trans _ _ _ Exy Eyz). done.
Qed.

Lemma lt_irrefl a : ~ lt a a.
Proof. unfold lt. rewrite compare_refl. done. Qed.

Lemma leb_lt_or_eq a b : leb a b = true <-> lt a b \/ a = b.
Proof.
  unfold leb, String.leb, lt. split.
  - destruct (String.compare a b) eqn:E; try done.
    + right. apply String.compare_eq_iff, E.
    + left. reflexivity.
  - intros [->| ->]; [done|]. rewrite compare_refl. done.
Qed.

#[export] Instance le_trans : Transitive le.
Proof.
  intros a b c. unfold le. rewrite !leb_lt_or_eq.
  intros [Hab| ->] [Hbc| ->]; eauto using lt_trans.
Qed.

#[export] Instance le_total : Total le.
Proof. intros a b. apply String.leb_total. Qed.

#[export] Instance le_antisymm : AntiSymm (=) le.
Proof. intros a b Hab Hba. apply String.leb_antisym; assumption. Qed.

#[export] Instance lt_transitive : Transitive lt.
Proof. intros a b c. apply lt_trans. Qed.

Lemma le_neq_lt a b : le a b -> a <> b -> lt a b.
Proof. unfold le. rewrite leb_lt_or_eq. intros [?|?]; done. Qed.

End JsStringFacts.

(** ** Arrays: [Set] and [sort] *)

Module JsArrayFacts.
Import JsString JsArray JsStringFacts.

Lemma Set_add_elem x y s : y ∈ Set_add x s <-> y = x \/ y ∈ s.
Proof.
  induction s as [|z s IH]; simpl.
  - rewrite list_elem_of_singleton. split; [intros ->; left; reflexivity|].
    intros [->|Hin]; [reflexivity|]. apply elem_of_nil in Hin. done.
  - destruct (String.eqb_spec x z) as [->|Hne].
    + rewrite elem_of_cons. split; [intros Hin; right; exact Hin|].
      intros [->|Hin]; [left; reflexivity|exact Hin].
    + rewrite !elem_of_cons, IH. split.
      * intros [->|[->|Hin]]; [right; left; reflexivity|left; reflexivity|right; right; exact Hin].
      * intros [->|[->|Hin]]; [right; left; reflexivity|left; reflexivity|right; right; exact Hin].
Qed.

Lemma Set_add_NoDup x s : NoDup s -> NoDup (Set_add x s).
Proof.
  induction s as [|z s IH]; simpl; intros Hnd.
  - apply NoDup_singleton.
  - destruct (String.eqb_spec x z) as [->|Hne]; [exact Hnd|].
    apply NoDup_cons in Hnd as [Hz Hs]. apply NoDup_cons. split; [|auto].
    rewrite Set_add_elem. intros [->|?]; done.
Qed.

Lemma fold_Set_add_elem l s y :
  y ∈ fold_left (fun s x => Set_add x s) l s <-> y ∈ s \/ y ∈ l.
Proof.
  revert s. induction l as [|x l IH]; intros s; simpl.
  - split; [intros Hin; left; exact Hin|].
    intros [Hin|Hin]; [exact Hin|]. apply elem_of_nil in Hin. done.
  - rewrite IH, Set_add_elem, elem_of_cons. split.
    + intros [[->|Hin]|Hin]; [right; left; reflexivity|left; exact Hin|right; right; exact Hin].
    + intros [Hin|[->|Hin]]; [left; right; exact Hin|left; left; reflexivity|right; exact Hin].
Qed.

Lemma fold_Set_add_NoDup l s :
  NoDup s -> NoDup (fold_left (fun s x => Set_add x s) l s).
Proof.
  revert s. induction l as [|x l IH]; intros s Hs; simpl; [exact Hs|].
  apply IH, Set_add_NoDup, Hs.
Qed.

Lemma Set_from_elem l y : y ∈ Set_from l <-> y ∈ l.
Proof.
  unfold Set_from. rewrite fold_Set_add_elem. split; [|intros Hin; right; exact Hin].
  intros [Hin|Hin]; [|exact Hin]. apply elem_of_nil in Hin. done.
Qed.

Lemma Set_from_NoDup l : NoDup (Set_from l).
Proof. apply fold_Set_add_NoDup, NoDup_nil_2. Qed.

Lemma insert_Permutation x l : insert x l ≡ₚ x :: l.
Proof.
  induction l as [|y l IH]; simpl; [reflexivity|].
  destruct (leb x y); [reflexivity|].
  rewrite IH. apply Permutation_swap.
Qed.

Lemma sort_Permutation l : sort l ≡ₚ l.
Proof.
  induction l as [|x l IH]; simpl; [reflexivity|].
  rewrite insert_Permutation, IH. reflexivity.
Qed.

Lemma insert_sorted x l : StronglySorted le l -> StronglySorted le (insert x l).
Proof.
  induction l as [|y l IH]; simpl; intros Hs.
  - repeat constructor.
  - apply StronglySorted_inv in Hs as [Hl Hy].
    destruct (leb x y) eqn:E.
    + constructor; [constructor; assumption|].
      constructor; [exact E|].
      eapply Forall_impl; [exact Hy|]. intros z Hz. etrans; [exact E|exact Hz].
    + constructor; [auto|].
      rewrite insert_Permutation. constructor; [|exact Hy].
      destruct (le_total x y) as [Hxy|Hyx]; [|exact Hyx].
      unfold le in Hxy. congruence.
Qed.

Lemma sort_sorted l : StronglySorted le (sort l).
Proof.
  induction l as [|x l IH]; simpl; [constructor|]. apply insert_sorted, IH.
Qed.

Lemma sort_elem l y : y ∈ sort l <-> y ∈ l.
Proof. rewrite sort_Permutation. reflexivity. Qed.

Lemma sort_NoDup l : NoDup l -> NoDup (sort l).
Proof. rewrite sort_Permutation. done. Qed.

(** A sorted array without duplicates is strictly increasing. *)
Lemma sorted_NoDup_strict l :
  StronglySorted le l -> NoDup l -> StronglySorted lt l.
Proof.
  induction 1 as [|x l Hs IH Hx]; intros Hnd; [constructor|].
  apply NoDup_cons in Hnd as [Hxl Hl]. constructor; [auto|].
  apply Forall_forall. intros y Hy.
  apply le_neq_lt; [exact (proj1 (Forall_forall _ _) Hx y Hy)|].
  intros ->. done.
Qed.

Lemma strict_NoDup l : StronglySorted lt l -> NoDup l.
Proof.
  induction 1 as [|x l Hs IH Hx]; [constructor|].
  apply NoDup_cons. split; [|exact IH].
  intros Hin. apply (lt_irrefl x). exact (proj1 (Forall_forall _ _) Hx x Hin).
Qed.

Lemma strict_sorted_le l : StronglySorted lt l -> StronglySorted le l.
Proof.
  induction 1 as [|x l Hs IH Hx]; [constructor|]. constructor; [exact IH|].
  eapply Forall_impl; [exact Hx|]. intros y Hy. apply leb_lt_or_eq. left. exact Hy.
Qed.

(** Two strictly increasing arrays with the same elements are equal. *)
Lemma strict_sorted_ext l1 l2 :
  StronglySorted lt l1 -> StronglySorted lt l2 ->
  (forall x, x ∈ l1 <-> x ∈ l2) -> l1 = l2.
Proof.
  intros H1 H2 Hel.
  apply (StronglySorted_unique le); [apply strict_sorted_le, H1|apply strict_sorted_le, H2|].
  apply NoDup_Permutation; [apply strict_NoDup, H1|apply strict_NoDup, H2|exact Hel].
Qed.

End JsArrayFacts.

(** ** The alias merger *)

Module MergerFacts.
Import JsString JsArray JsStringFacts JsArrayFacts Merger.

Lemma combine_elem l1 l2 x : x ∈ combine l1 l2 <-> x ∈ l1 \/ x ∈ l2.
Proof. unfold combine. rewrite sort_elem, Set_from_elem, elem_of_app. reflexivity. Qed.

Lemma combine_strict l1 l2 : StronglySorted lt (combine l1 l2).
Proof.
  unfold combine. apply sorted_NoDup_strict; [apply sort_sorted|].
  apply sort_NoDup, Set_from_NoDup.
Qed.

Lemma merge_elem existing incoming x :
  x ∈ merge existing incoming <-> x ∈ toLowerCase <$> existing \/ x ∈ incoming.
Proof. apply combine_elem. Qed.

Lemma merge_strict existing incoming : StronglySorted lt (merge existing incoming).
Proof. apply combine_strict. Qed.

(** The callback on a frontmatter whose aliases are an array of strings
    (or are missing) is the merge. *)
Lemma mapM_lowerElement l :
  mapM lowerElement (VString <$> l) = Normal (toLowerCase <$> l).
Proof.
  induction l as [|x l IH]; [reflexivity|].
  cbn [fmap list_fmap mapM]. cbn [fmap list_fmap] in IH. rewrite IH. reflexivity.
Qed.

Lemma callback_merge aliases (frontmatter : gmap string Value) existing :
  frontmatter !! "aliases" = Some (VArray (VString <$> existing)) ->
  callback aliases frontmatter
  = Normal (<["aliases" := VArray (VString <$> merge existing aliases)]> frontmatter).
Proof.
  intros Hfm. unfold callback, existingAliases. rewrite Hfm. cbn [truthy].
  rewrite mapM_lowerElement. reflexivity.
Qed.

Lemma callback_absent aliases (frontmatter : gmap string Value) :
  frontmatter !! "aliases" = None ->
  callback aliases frontmatter
  = Normal (<["aliases" := VArray (VString <$> merge [] aliases)]> frontmatter).
Proof. intros Hfm. unfold callback, existingAliases. rewrite Hfm. reflexivity. Qed.

(** What the expression of the callback computes for any two lists: the
    result is strictly increasing in the order of the code units (sorted,
    without duplicates) and holds exactly the lower-cased existing entries
    and the incoming entries, the latter in the case they come in. *)
Theorem merge_sorted_union (existing incoming : list string) :
  StronglySorted lt (merge existing incoming)
  /\ (forall x, x ∈ merge existing incoming
                <-> x ∈ toLowerCase <$> existing \/ x ∈ incoming)
  /\ merge ["Foo"] ["bar"; "foo"] = ["bar"; "foo"]
  /\ merge [] ["X"; "x"] = ["X"; "x"].
Proof.
  split; [apply merge_strict|].
  split; [intros x; apply merge_elem|].
  split; reflexivity.
Qed.

(** The incoming entries are not lower-cased, so [merge([], ["X","x"])]
    is not [["x"]] and keeps an entry that is not in lower case. *)
Lemma merge_keeps_incoming_case :
  merge [] ["X"; "x"] <> ["x"] /\ "X" ∈ merge [] ["X"; "x"] /\ toLowerCase "X" <> "X".
Proof.
  split; [discriminate|]. split; [|discriminate].
  apply merge_elem. right. apply elem_of_cons. left. reflexivity.
Qed.


Lemma lowerCased_fmap (l : list string) x :
  x ∈ toLowerCase <$> l -> lowerCased x.
Proof.
  intros (y & -> & _)%list_elem_of_fmap. apply toLowerCase_idem.
Qed.

(** With incoming aliases in lower case, as the extractor hands them over,
    the merge is the lower-cased union of both lists. *)
Lemma merge_lowerCased_incoming existing incoming :
  Forall lowerCased incoming ->
  Forall lowerCased (merge existing incoming)
  /\ forall x, x ∈ merge existing incoming <-> x ∈ toLowerCase <$> (existing ++ incoming).
Proof.
  intros Hin. split.
  - apply Forall_forall. intros x [Hx|Hx]%merge_elem.
    + exact (lowerCased_fmap _ _ Hx).
    + exact (proj1 (Forall_forall _ _) Hin x Hx).
  - intros x. rewrite merge_elem, fmap_app, elem_of_app. split.
    + intros [Hx|Hx]; [left; exact Hx|right].
      apply list_elem_of_fmap. exists x. split; [|exact Hx].
      symmetry. exact (proj1 (Forall_forall _ _) Hin x Hx).
    + intros [Hx|(y & -> & Hy)%list_elem_of_fmap]; [left; exact Hx|right].
      rewrite (proj1 (Forall_forall _ _) Hin y Hy). exact Hy.
Qed.

(** C3, as the code has it.  For all alias lists [a] and [b] where the
    entries of [b] are in lower case (as the extractor produces them),
    [merge(merge(a,b), b) = merge(a,b)]. *)
Theorem merge_idempotent (a b : list string) :
  Forall lowerCased b -> merge (merge a b) b = merge a b.
Proof.
  intros Hb. apply strict_sorted_ext; [apply merge_strict|apply merge_strict|].
  intros x. rewrite !merge_elem. split.
  - intros [(y & -> & Hy)%list_elem_of_fmap|Hx]; [|right; exact Hx].
    apply merge_elem in Hy as [Hy|Hy].
    + left. rewrite (lowerCased_fmap _ _ Hy). exact Hy.
    + right. rewrite (proj1 (Forall_forall _ _) Hb y Hy). exact Hy.
  - intros [Hx|Hx]; [|right; exact Hx].
    left. apply list_elem_of_fmap. exists x. split.
    + symmetry. exact (lowerCased_fmap _ _ Hx).
    + apply merge_elem. left. exact Hx.
Qed.

Lemma merge_idempotent_witness :
  Forall lowerCased ["plan"; "roadmap"]
  /\ merge (merge ["Plan"; "Old"] ["plan"; "roadmap"]) ["plan"; "roadmap"]
     = merge ["Plan"; "Old"] ["plan"; "roadmap"].
Proof.
  assert (Hb : Forall lowerCased ["plan"; "roadmap"]).
  { repeat constructor. }
  split; [exact Hb|]. exact (merge_idempotent ["Plan"; "Old"] ["plan"; "roadmap"] Hb).
Defined.

(** C3 as it is stated fails for an incoming list that is not in lower
    case: the second merge lower-cases the entry that the first one kept. *)
Lemma merge_not_idempotent :
  merge (merge [] ["X"]) ["X"] = ["X"; "x"] /\ merge [] ["X"] = ["X"]
  /\ merge (merge [] ["X"]) ["X"] <> merge [] ["X"].
Proof. split; [reflexivity|]. split; [reflexivity|discriminate]. Qed.

(** What the callback of [updateFrontmatter] returns differs from the
    frontmatter it received in the field [aliases] only. *)
Lemma callback_frame aliases (frontmatter frontmatter' : gmap string Value) key :
  callback aliases frontmatter = Normal frontmatter' ->
  key <> "aliases" -> frontmatter' !! key = frontmatter !! key.
Proof.
  unfold callback. destruct (existingAliases frontmatter) as [existing|e]; [|done].
  intros [= <-] Hkey. apply lookup_insert_ne. congruence.
Qed.

End MergerFacts.

(** ** The regular expression of the extractor *)

Module AliasRegexFacts.
Import JsString JsStringFacts AliasRegex.

Lemma append_nil (b : string) : "" +:+ b = b.
Proof. reflexivity. Qed.

Lemma append_cons c (a b : string) : String c a +:+ b = String c (a +:+ b).
Proof. reflexivity. Qed.

Lemma append_assoc (a b c : string) : (a +:+ b) +:+ c = a +:+ b +:+ c.
Proof.
  induction a as [|x a IH]; [reflexivity|]. rewrite !append_cons, IH. reflexivity.
Qed.

Lemma length_append (a b : string) :
  String.length (a +:+ b) = String.length a + String.length b.
Proof.
  induction a as [|x a IH]; [reflexivity|]. rewrite append_cons. simpl.
  rewrite IH. reflexivity.
Qed.

Lemma opening_Some s rest : opening s = Some rest <-> s = "[[" +:+ rest.
Proof.
  change ("[[" +:+ rest) with (String "[" (String "[" rest)).
  unfold opening. destruct s as [|a [|b r]]; simpl; try (split; discriminate).
  destruct (Ascii.eqb_spec a "[") as [->|Ha], (Ascii.eqb_spec b "[") as [->|Hb]; simpl;
    split; intros E; inversion E; subst; congruence.
Qed.

Lemma pipe_Some s rest : pipe s = Some rest <-> s = "|" +:+ rest.
Proof.
  change ("|" +:+ rest) with (String "|" rest).
  unfold pipe. destruct s as [|a r]; simpl; [split; discriminate|].
  destruct (Ascii.eqb_spec a "|") as [->|Ha]; split; intros E; inversion E; subst; congruence.
Qed.

Lemma closing_Some s rest : closing s = Some rest <-> s = "]]" +:+ rest.
Proof.
  change ("]]" +:+ rest) with (String "]" (String "]" rest)).
  unfold closing. destruct s as [|a [|b r]]; simpl; try (split; discriminate).
  destruct (Ascii.eqb_spec a "]") as [->|Ha], (Ascii.eqb_spec b "]") as [->|Hb]; simpl;
    split; intros E; inversion E; subst; congruence.
Qed.

Lemma lazyToClose_sound s cap rest :
  lazyToClose s = Some (cap, rest) -> s = cap +:+ "]]" +:+ rest /\ singleLine cap = true.
Proof.
  revert cap rest. induction s as [|c s IH]; intros cap rest; [discriminate|].
  cbn [lazyToClose]. destruct (closing (String c s)) as [rest'|] eqn:Ec.
  - intros [= <- <-]. apply closing_Some in Ec. split; [exact Ec|reflexivity].
  - destruct (isLineTerminator c) eqn:Elt; [discriminate|].
    destruct (lazyToClose s) as [[cap' rest']|]; [|discriminate].
    intros [= <- <-]. destruct (IH _ _ eq_refl) as [-> Hsl].
    split; [reflexivity|]. unfold singleLine in *. simpl. rewrite Elt, Hsl. reflexivity.
Qed.

Lemma afterTarget_sound s cap2 rest :
  afterTarget s = Some (cap2, rest) ->
  s = aliasPart cap2 +:+ "]]" +:+ rest
  /\ forall alias, cap2 = Some alias -> singleLine alias = true.
Proof.
  unfold afterTarget. destruct (pipe s) as [r|] eqn:Ep; simpl.
  - destruct (lazyToClose r) as [[cap rest']|] eqn:El.
    + intros [= <- <-]. apply pipe_Some in Ep. apply lazyToClose_sound in El as [-> Hsl].
      split; [exact Ep|]. intros alias [= <-]. exact Hsl.
    + destruct (closing s) as [rest'|] eqn:Ec; [|discriminate].
      intros [= <- <-]. apply closing_Some in Ec. split; [exact Ec|discriminate].
  - destruct (closing s) as [rest'|] eqn:Ec; [|discriminate].
    intros [= <- <-]. apply closing_Some in Ec. split; [exact Ec|discriminate].
Qed.

Lemma matchTarget_sound s m rest :
  matchTarget s = Some (m, rest) ->
  s = m1 m +:+ aliasPart (m2 m) +:+ "]]" +:+ rest /\ singleLineMatch m.
Proof.
  revert m rest. induction s as [|c s IH]; intros m rest.
  - cbn [matchTarget]. destruct (afterTarget "") as [[cap2 rest']|] eqn:Ea; [|discriminate].
    intros [= <- <-]. apply afterTarget_sound in Ea as [Hs Hsl].
    split; [exact Hs|]. split; [reflexivity|exact Hsl].
  - cbn [matchTarget]. destruct (afterTarget (String c s)) as [[cap2 rest']|] eqn:Ea.
    + intros [= <- <-]. apply afterTarget_sound in Ea as [Hs Hsl].
      split; [exact Hs|]. split; [reflexivity|exact Hsl].
    + destruct (isLineTerminator c) eqn:Elt; [discriminate|].
      destruct (matchTarget s) as [[m' rest']|]; [|discriminate].
      intros [= <- <-]. destruct (IH _ _ eq_refl) as [Hs [Hsl1 Hsl2]].
      split; [cbn [m1 m2]; rewrite append_cons, <- Hs; reflexivity|].
      split; [|exact Hsl2]. unfold singleLine in *. simpl. rewrite Elt, Hsl1. reflexivity.
Qed.

Lemma matchAt_sound s m rest :
  matchAt s = Some (m, rest) -> s = linkText m +:+ rest /\ singleLineMatch m.
Proof.
  unfold matchAt. destruct (opening s) as [r|] eqn:Eo; [|discriminate]. simpl.
  intros Hm. apply opening_Some in Eo. apply matchTarget_sound in Hm as [Hr Hsl].
  split; [|exact Hsl]. unfold linkText. rewrite Eo, Hr. rewrite !append_assoc. reflexivity.
Qed.

(** A successful [exec] returns a link that stands in the text, with
    captures that do not span lines, and the text after that link. *)
Lemma exec_sound s m rest :
  exec s = Some (m, rest) ->
  exists pre, s = pre +:+ linkText m +:+ rest /\ singleLineMatch m.
Proof.
  induction s as [|c s IH].
  - simpl. discriminate.
  - cbn [exec]. destruct (matchAt (String c s)) as [[m' rest']|] eqn:Em.
    + intros [= <- <-]. apply matchAt_sound in Em as [Hs Hsl].
      exists "". split; [exact Hs|exact Hsl].
    + intros Hex. destruct (IH Hex) as (pre & -> & Hsl).
      exists (String c pre). split; [reflexivity|exact Hsl].
Qed.

Lemma exec_shorter s m rest :
  exec s = Some (m, rest) -> String.length rest < String.length s.
Proof.
  intros (pre & -> & _)%exec_sound. unfold linkText.
  rewrite !length_append. simpl. lia.
Qed.

Lemma matchAt_not_opening c s : Ascii.eqb c "[" = false -> matchAt (String c s) = None.
Proof.
  intros Hc. unfold matchAt, opening. destruct s as [|b r]; [reflexivity|].
  rewrite Hc. reflexivity.
Qed.

Lemma exec_noOpening_app pre s : noOpening pre -> exec (pre +:+ s) = exec s.
Proof.
  unfold noOpening. induction pre as [|c pre IH]; [reflexivity|].
  cbn [forallb]. intros [Hc Hpre]%andb_prop. apply negb_true_iff in Hc.
  rewrite append_cons. cbn [exec]. rewrite (matchAt_not_opening _ _ Hc).
  apply IH, Hpre.
Qed.

Lemma exec_noOpening s : noOpening s -> exec s = None.
Proof.
  unfold noOpening. induction s as [|c s IH]; [reflexivity|].
  cbn [forallb]. intros [Hc Hs]%andb_prop. apply negb_true_iff in Hc.
  cbn [exec]. rewrite (matchAt_not_opening _ _ Hc). apply IH, Hs.
Qed.

End AliasRegexFacts.

(** ** Objects as dictionaries *)

Module JsObjectFacts.
Import JsObject.

Section Props.
Context {A : Type}.
Implicit Types (o : t A) (k : string) (v : A).

Lemma getOwn_elem k v o : getOwn k o = Some v -> (k, v) ∈ o.
Proof.
  induction o as [|[k' v'] o IH]; simpl; [discriminate|].
  destruct (String.eqb_spec k k') as [->|Hne].
  - intros [= ->]. apply elem_of_cons. left. reflexivity.
  - intros Hg. apply elem_of_cons. right. exact (IH Hg).
Qed.

Lemma setOwn_elem k v o e : e ∈ setOwn k v o -> e = (k, v) \/ e ∈ o.
Proof.
  induction o as [|[k' v'] o IH]; simpl.
  - intros ->%list_elem_of_singleton. left. reflexivity.
  - destruct (String.eqb_spec k k') as [->|Hne]; rewrite !elem_of_cons.
    + intros [->|He]; [left; reflexivity|right; right; exact He].
    + intros [->|He]; [right; left; reflexivity|].
      destruct (IH He) as [->|He']; [left; reflexivity|right; right; exact He'].
Qed.

End Props.
End JsObjectFacts.

(** ** The alias extractor *)

Module ExtractorFacts.
Import JsString JsArray AliasRegex Extractor.
Import JsStringFacts JsArrayFacts AliasRegexFacts JsObjectFacts MergerFacts.

Lemma whileExec_fuel fuel1 : forall fuel2 s aliasMap,
  String.length s <= fuel1 -> String.length s <= fuel2 ->
  whileExec fuel1 s aliasMap = whileExec fuel2 s aliasMap.
Proof.
  induction fuel1 as [|fuel1 IH]; intros fuel2 s aliasMap H1 H2.
  - destruct s; [|simpl in H1; lia]. destruct fuel2; reflexivity.
  - destruct fuel2 as [|fuel2].
    + destruct s; [reflexivity|simpl in H2; lia].
    + cbn [whileExec]. destruct (exec s) as [[m rest]|] eqn:Ex; [|reflexivity].
      apply exec_shorter in Ex.
      destruct (loopBody m aliasMap) as [aliasMap'|e]; [|reflexivity].
      cbn. apply IH; lia.
Qed.

(** The fuel never runs out: the loop ends when [exec] returns [null]. *)
Lemma scan_eq s aliasMap :
  scan s aliasMap =
  match exec s with
  | None => Normal aliasMap
  | Some (m, rest) => aliasMap' ← loopBody m aliasMap; scan rest aliasMap'
  end.
Proof.
  unfold scan. destruct s as [|c s].
  - reflexivity.
  - cbn [String.length whileExec].
    destruct (exec (String c s)) as [[m rest]|] eqn:Ex; [|reflexivity].
    apply exec_shorter in Ex. cbn [String.length] in Ex.
    destruct (loopBody m aliasMap) as [aliasMap'|e]; [|reflexivity].
    cbn. apply whileExec_fuel; lia.
Qed.

Lemma extractAliases_scan content :
  extractAliases content = (aliasMap ← scan content []; Normal (finalize aliasMap)).
Proof. reflexivity. Qed.

(** Loop invariants: a property of the map that every iteration on a
    match of the content keeps holds when the loop ends. *)
Lemma whileExec_invariant content (P : AliasSets -> Prop) :
  (forall m aliasMap aliasMap',
      occursIn content m -> singleLineMatch m -> P aliasMap ->
      loopBody m aliasMap = Normal aliasMap' -> P aliasMap') ->
  forall fuel s pre aliasMap result,
    content = pre +:+ s -> P aliasMap ->
    whileExec fuel s aliasMap = Normal result -> P result.
Proof.
  intros Hstep. induction fuel as [|fuel IH]; intros s pre aliasMap result Hc HP.
  - intros [= <-]. exact HP.
  - cbn [whileExec]. destruct (exec s) as [[m rest]|] eqn:Ex.
    + apply exec_sound in Ex as (pre' & -> & Hsl).
      destruct (loopBody m aliasMap) as [aliasMap'|e] eqn:Eb; [|discriminate].
      cbn. apply (IH rest (pre +:+ pre' +:+ linkText m)).
      * rewrite Hc, !append_assoc. reflexivity.
      * apply (Hstep m aliasMap aliasMap'); [|exact Hsl|exact HP|exact Eb].
        exists (pre +:+ pre'), rest. rewrite Hc, !append_assoc. reflexivity.
    + intros [= <-]. exact HP.
Qed.

(** What one iteration adds to the map. *)
Lemma loopBody_elem m aliasMap aliasMap' target set :
  loopBody m aliasMap = Normal aliasMap' -> (target, set) ∈ aliasMap' ->
  (target, set) ∈ aliasMap
  \/ exists alias old,
       m2 m = Some alias /\ target = trim (m1 m)
       /\ set = Set_add (toLowerCase (trim alias)) old
       /\ (old = [] \/ (target, old) ∈ aliasMap).
Proof.
  unfold loopBody. destruct (m2 m) as [alias|]; cbn [fmap option_fmap option_map].
  - destruct (truthy (trim alias) && truthy (trim (m1 m))).
    + destruct (JsObject.getOwn (trim (m1 m)) aliasMap) as [old|] eqn:Eg.
      * intros [= <-]. intros [[= -> ->]|He]%setOwn_elem; [|left; exact He].
        right. exists alias, old. repeat split. right. apply getOwn_elem, Eg.
      * destruct (JsObject.inherited (trim (m1 m))); [discriminate|].
        intros [= <-]. intros [[= -> ->]|He]%setOwn_elem; [|left; exact He].
        right. exists alias, []. repeat split. left. reflexivity.
    + intros [= <-] He. left. exact He.
  - intros [= <-] He. left. exact He.
Qed.

Lemma finalize_elem aliasMap target aliases :
  (target, aliases) ∈ finalize aliasMap ->
  exists set, (target, set) ∈ aliasMap /\ aliases = sort set.
Proof.
  unfold finalize. intros ([k set] & [= -> ->] & He)%list_elem_of_fmap.
  exists set. split; [exact He|reflexivity].
Qed.

Lemma loopBody_goodSets m aliasMap aliasMap' :
  goodSets aliasMap -> loopBody m aliasMap = Normal aliasMap' -> goodSets aliasMap'.
Proof.
  intros Hgood Hb target set He.
  destruct (loopBody_elem _ _ _ _ _ Hb He) as [Hold|(alias & old & _ & _ & -> & Hin)].
  - exact (Hgood _ _ Hold).
  - assert (NoDup old /\ Forall lowerCased old) as [Hnd Hlow].
    { destruct Hin as [->|Hin]; [split; constructor|exact (Hgood _ _ Hin)]. }
    split; [apply Set_add_NoDup, Hnd|].
    apply Forall_forall. intros x [->|Hx]%Set_add_elem.
    + apply toLowerCase_idem.
    + exact (proj1 (Forall_forall _ _) Hlow x Hx).
Qed.

Lemma lowerCased_NoDup_distinct l :
  Forall lowerCased l -> NoDup l -> caseInsensitiveDistinct l.
Proof.
  intros Hlow Hnd i j x y Hi Hj Hxy.
  assert (Hx : lowerCased x).
  { apply (proj1 (Forall_forall _ _) Hlow). eapply list_elem_of_lookup_2, Hi. }
  assert (Hy : lowerCased y).
  { apply (proj1 (Forall_forall _ _) Hlow). eapply list_elem_of_lookup_2, Hj. }
  unfold lowerCased in Hx, Hy. rewrite Hx, Hy in Hxy. subst y.
  eapply NoDup_lookup; eauto.
Qed.

Lemma extractAliases_good content aliasMap target aliases :
  extractAliases content = Normal aliasMap -> (target, aliases) ∈ aliasMap ->
  Forall lowerCased aliases /\ StronglySorted lt aliases.
Proof.
  unfold extractAliases.
  destruct (whileExec (String.length content) content []) as [sets|e] eqn:Ew; [|discriminate].
  intros [= <-] He.
  assert (Hgood : goodSets sets).
  { apply (whileExec_invariant content goodSets) with (4 := Ew) (pre := "").
    - intros m a a' _ _ Ha Hb. exact (loopBody_goodSets _ _ _ Ha Hb).
    - reflexivity.
    - intros t s' Hin. apply elem_of_nil in Hin. done. }
  apply finalize_elem in He as (set & Hset & ->).
  destruct (Hgood _ _ Hset) as [Hnd Hlow]. split.
  - apply Forall_forall. intros x Hx. apply (proj1 (sort_elem _ _)) in Hx.
    exact (proj1 (Forall_forall _ _) Hlow x Hx).
  - apply sorted_NoDup_strict; [apply sort_sorted|apply sort_NoDup, Hnd].
Qed.

(** [extractAliases] returns a map whenever no link of the content has a
    target that names a property inherited from [Object.prototype]. *)
Lemma loopBody_returns m aliasMap :
  JsObject.inherited (trim (m1 m)) = false ->
  exists aliasMap', loopBody m aliasMap = Normal aliasMap'.
Proof.
  intros Hin. unfold loopBody.
  destruct (m2 m) as [alias|]; cbn [fmap option_fmap option_map]; [|eauto].
  destruct (truthy (trim alias) && truthy (trim (m1 m))); [|eauto].
  destruct (JsObject.getOwn _ aliasMap); [eauto|]. rewrite Hin. eauto.
Qed.

Lemma extractAliases_returns content :
  (forall m, occursIn content m -> JsObject.inherited (trim (m1 m)) = false) ->
  exists aliasMap, extractAliases content = Normal aliasMap.
Proof.
  intros Hown.
  assert (Hloop : forall fuel s pre aliasMap,
             content = pre +:+ s -> exists result, whileExec fuel s aliasMap = Normal result).
  { induction fuel as [|fuel IH]; intros s pre aliasMap Hc; [eexists; reflexivity|].
    cbn [whileExec]. destruct (exec s) as [[m rest]|] eqn:Ex; [|eexists; reflexivity].
    apply exec_sound in Ex as (pre' & -> & _).
    destruct (loopBody_returns m aliasMap) as [aliasMap' ->].
    - apply Hown. exists (pre +:+ pre'), rest. rewrite Hc, !append_assoc. reflexivity.
    - cbn. apply (IH rest (pre +:+ pre' +:+ linkText m)).
      rewrite Hc, !append_assoc. reflexivity. }
  unfold extractAliases.
  destruct (Hloop (String.length content) content "" [] eq_refl) as [sets ->].
  eexists. reflexivity.
Qed.

Lemma scan_step s m rest aliasMap aliasMap' :
  exec s = Some (m, rest) -> loopBody m aliasMap = Normal aliasMap' ->
  scan s aliasMap = scan rest aliasMap'.
Proof. intros Ex Eb. rewrite scan_eq, Ex, Eb. reflexivity. Qed.

Lemma scan_done s aliasMap : exec s = None -> scan s aliasMap = Normal aliasMap.
Proof. intros Ex. rewrite scan_eq, Ex. reflexivity. Qed.

Lemma exec_link_lower rest :
  exec ("[[A|b]]" +:+ rest) = Some ({| m1 := "A"; m2 := Some "b" |}, rest).
Proof. reflexivity. Qed.

Lemma exec_link_upper rest :
  exec ("[[A|B]]" +:+ rest) = Some ({| m1 := "A"; m2 := Some "B" |}, rest).
Proof. reflexivity. Qed.

Lemma extractAliases_two_links pre mid post (x y : string) :
  noOpening pre -> noOpening mid -> noOpening post ->
  (forall rest, exec (("[[A|" +:+ x +:+ "]]") +:+ rest)
                = Some ({| m1 := "A"; m2 := Some x |}, rest)) ->
  (forall rest, exec (("[[A|" +:+ y +:+ "]]") +:+ rest)
                = Some ({| m1 := "A"; m2 := Some y |}, rest)) ->
  loopBody {| m1 := "A"; m2 := Some x |} [] = Normal [("A", ["b"])] ->
  loopBody {| m1 := "A"; m2 := Some y |} [("A", ["b"])] = Normal [("A", ["b"])] ->
  extractAliases (pre +:+ ("[[A|" +:+ x +:+ "]]") +:+ mid +:+ ("[[A|" +:+ y +:+ "]]") +:+ post)
  = Normal [("A", ["b"])].
Proof.
  intros Hpre Hmid Hpost Hx Hy Hbx Hby. rewrite extractAliases_scan.
  rewrite (scan_step _ _ (mid +:+ ("[[A|" +:+ y +:+ "]]") +:+ post) _ _
             (eq_trans (exec_noOpening_app _ _ Hpre) (Hx _)) Hbx).
  rewrite (scan_step _ _ post _ _
             (eq_trans (exec_noOpening_app _ _ Hmid) (Hy _)) Hby).
  rewrite (scan_done _ _ (exec_noOpening _ Hpost)). reflexivity.
Qed.

(** C4, as the code has it.  For every input text on which [extract]
    returns, every alias list of the map is lower-cased, strictly
    increasing in the order of the code units (sorted, no duplicates) and
    holds no two entries that are equal when case is ignored.  A text made
    of the links [[[A|b]]] and [[[A|B]]], in either order, and of text
    without opening bracket around and between them yields [{A: ["b"]}]. *)
Theorem extractAliases_lists :
  (forall content aliasMap target aliases,
      extractAliases content = Normal aliasMap -> (target, aliases) ∈ aliasMap ->
      Forall lowerCased aliases /\ StronglySorted lt aliases
      /\ caseInsensitiveDistinct aliases)
  /\ (forall pre mid post,
        noOpening pre -> noOpening mid -> noOpening post ->
        extractAliases (pre +:+ "[[A|b]]" +:+ mid +:+ "[[A|B]]" +:+ post)
        = Normal [("A", ["b"])]
        /\ extractAliases (pre +:+ "[[A|B]]" +:+ mid +:+ "[[A|b]]" +:+ post)
           = Normal [("A", ["b"])]).
Proof.
  split.
  - intros content aliasMap target aliases Hex He.
    destruct (extractAliases_good _ _ _ _ Hex He) as [Hlow Hs].
    split; [exact Hlow|]. split; [exact Hs|].
    apply lowerCased_NoDup_distinct; [exact Hlow|apply strict_NoDup, Hs].
  - intros pre mid post Hpre Hmid Hpost. split.
    + apply (extractAliases_two_links pre mid post "b" "B"); try assumption;
        first [exact exec_link_lower|exact exec_link_upper|reflexivity].
    + apply (extractAliases_two_links pre mid post "B" "b"); try assumption;
        first [exact exec_link_lower|exact exec_link_upper|reflexivity].
Qed.

Lemma extractAliases_lists_witness :
  extractAliases "see [[A|b]] and [[A|B]]." = Normal [("A", ["b"])]
  /\ Forall lowerCased ["b"] /\ StronglySorted lt ["b"] /\ caseInsensitiveDistinct ["b"].
Proof.
  destruct extractAliases_lists as [Hlists Hlinks].
  assert (Hex : extractAliases "see [[A|b]] and [[A|B]]." = Normal [("A", ["b"])]).
  { exact (proj1 (Hlinks "see " " and " "." eq_refl eq_refl eq_refl)). }
  split; [exact Hex|].
  apply (Hlists _ _ "A" ["b"] Hex). apply elem_of_cons. left. reflexivity.
Defined.

(** C4 as it is stated fails: a text that contains both links and a third
    link to the same target yields more than [{A: ["b"]}]. *)
Lemma extractAliases_more_links :
  extractAliases "[[A|b]] [[A|B]] [[A|c]]" = Normal [("A", ["b"; "c"])]
  /\ extractAliases "[[A|b]] [[A|B]] [[A|c]]" <> Normal [("A", ["b"])].
Proof. split; [reflexivity|discriminate]. Qed.

Lemma loopBody_provenance content m aliasMap aliasMap' :
  occursIn content m -> singleLineMatch m -> provenance content aliasMap ->
  loopBody m aliasMap = Normal aliasMap' -> provenance content aliasMap'.
Proof.
  intros (pre & post & Hc) [Hsl1 Hsl2] Hprov Hb target set alias He Ha.
  destruct (loopBody_elem _ _ _ _ _ Hb He) as [Hold|(al & old & Hm2 & -> & -> & Hin)].
  - exact (Hprov _ _ _ Hold Ha).
  - apply Set_add_elem in Ha as [->|Ha].
    + exists pre, (m1 m), al, post. unfold linkText in Hc. rewrite Hm2 in Hc.
      cbn [aliasPart] in Hc. rewrite !append_assoc in Hc.
      split; [exact Hc|]. split; [exact Hsl1|]. split; [exact (Hsl2 _ Hm2)|]. done.
    + destruct Hin as [->|Hin]; [apply elem_of_nil in Ha; done|].
      exact (Hprov _ _ _ Hin Ha).
Qed.

(** C8.  For every input text on which [extract] returns, every alias of
    every target of the map comes from a link [[[target|alias]]] of the
    text whose target and alias hold no line break, and the target and the
    alias of the map hold none either: nothing is extracted from a
    double-bracket construct that spans a line break. *)
Theorem extractAliases_single_line content aliasMap target aliases alias :
  extractAliases content = Normal aliasMap ->
  (target, aliases) ∈ aliasMap -> alias ∈ aliases ->
  fromSingleLineLink content target alias
  /\ singleLine target = true /\ singleLine alias = true.
Proof.
  unfold extractAliases.
  destruct (whileExec (String.length content) content []) as [sets|e] eqn:Ew; [|discriminate].
  intros [= <-] He Ha.
  assert (Hprov : provenance content sets).
  { apply (whileExec_invariant content (provenance content)) with (4 := Ew) (pre := "").
    - intros m a a' Hocc Hsl Hp Hb. exact (loopBody_provenance _ _ _ _ Hocc Hsl Hp Hb).
    - reflexivity.
    - intros t s' al Hin. apply elem_of_nil in Hin. done. }
  apply finalize_elem in He as (set & Hset & ->).
  apply (proj1 (sort_elem _ _)) in Ha.
  pose proof (Hprov _ _ _ Hset Ha) as Hfrom. split; [exact Hfrom|].
  destruct Hfrom as (pre & t & a & post & _ & Ht & Hal & -> & ->).
  split; [apply singleLine_trim, Ht|].
  rewrite singleLine_toLowerCase. apply singleLine_trim, Hal.
Qed.

Lemma extractAliases_single_line_witness :
  fromSingleLineLink "[[a
b|x]] [[ Plan |Road Map]]" "Plan" "road map"
  /\ singleLine "Plan" = true /\ singleLine "road map" = true.
Proof.
  apply (extractAliases_single_line _ [("Plan", ["road map"])] "Plan" ["road map"]).
  - reflexivity.
  - apply elem_of_cons. left. reflexivity.
  - apply elem_of_cons. left. reflexivity.
Defined.

End ExtractorFacts.

(** ** The document pipeline *)

Module PipelineFacts.
Import Host Merger Extractor Pipeline MergerFacts.

Lemma monotone_ret {A} (a : A) : monotone (mret a).
Proof. intros st. reflexivity. Qed.

Lemma monotone_throw {A} e : monotone (@throw A e).
Proof. intros st. reflexivity. Qed.

Lemma monotone_lift {A} (c : Completion A) : monotone (lift c).
Proof. intros st. reflexivity. Qed.

Lemma monotone_effect e : monotone (effect e).
Proof. intros st. apply prefix_app_r. reflexivity. Qed.

Lemma monotone_bind {A B} (m : Run A) (k : A -> Run B) :
  monotone m -> (forall a, monotone (k a)) -> monotone (m ≫= k).
Proof.
  intros Hm Hk st. specialize (Hm st). unfold mbind, Run_bind.
  destruct (m st) as [st' [a|e]]; [|exact Hm].
  etrans; [exact Hm|apply Hk].
Qed.

Lemma monotone_tryCatch {A} (body : Run A) handler :
  monotone body -> (forall e, monotone (handler e)) -> monotone (tryCatch body handler).
Proof.
  intros Hb Hh st. specialize (Hb st). unfold tryCatch.
  destruct (body st) as [st' [a|e]]; [exact Hb|].
  etrans; [exact Hb|apply Hh].
Qed.

Lemma monotone_processFrontMatter env file fn : monotone (processFrontMatter env file fn).
Proof.
  intros st. unfold processFrontMatter.
  destruct (unwritable env file); [apply prefix_app_r; reflexivity|].
  destruct (fn _); apply prefix_app_r; reflexivity.
Qed.

Lemma monotone_vaultRead env file : monotone (vaultRead env file).
Proof. intros st. apply prefix_app_r. reflexivity. Qed.

Lemma added_app st st' l : trace st' = trace st ++ l -> added st st' = l.
Proof. unfold added. intros ->. apply drop_app_length. Qed.

Section WithEngine.
Context `{RegExpEngine}.

Lemma monotone_updateFrontmatter env file aliases :
  monotone (updateFrontmatter env file aliases).
Proof.
  apply monotone_tryCatch; [apply monotone_processFrontMatter|].
  intros e. apply monotone_bind; [apply monotone_effect|]. intros _. apply monotone_throw.
Qed.

Lemma monotone_forEntries env file entries : forall count,
  monotone (forEntries env file entries count).
Proof.
  induction entries as [|[target aliases] rest IH]; intros count; cbn [forEntries].
  - apply monotone_ret.
  - destruct (getFirstLinkpathDest env target _) as [targetFile|].
    + destruct (String.eqb _ "md").
      * apply monotone_bind; [apply monotone_updateFrontmatter|]. intros _. apply IH.
      * apply monotone_bind; [apply monotone_effect|]. intros _. apply IH.
    + apply monotone_bind; [apply monotone_effect|]. intros _. apply IH.
Qed.

Lemma monotone_report env file e : monotone (report env file e).
Proof. apply monotone_bind; [apply monotone_effect|]. intros _. apply monotone_effect. Qed.

Lemma processFile_match settings env file st regex :
  RegExp_new ("^" +:+ fileRegex settings +:+ "$") = Normal regex ->
  regex (basename (files env file)) = true ->
  processFile settings env file st
  = (tryCatch (afterGate settings env file) (report env file) st).1.
Proof.
  intros Hnew Hm. unfold processFile, processFileBody, tryCatch.
  unfold mbind at 1. unfold Run_bind at 1. unfold lift at 1. rewrite Hnew, Hm.
  reflexivity.
Qed.

Lemma processFile_no_match settings env file st regex :
  RegExp_new ("^" +:+ fileRegex settings +:+ "$") = Normal regex ->
  regex (basename (files env file)) = false ->
  processFile settings env file st = st.
Proof.
  intros Hnew Hm. unfold processFile, processFileBody, tryCatch.
  unfold mbind at 1. unfold Run_bind at 1. unfold lift at 1. rewrite Hnew, Hm.
  reflexivity.
Qed.

Lemma processFile_invalid settings env file st e :
  RegExp_new ("^" +:+ fileRegex settings +:+ "$") = Throw e ->
  processFile settings env file st = (report env file e st).1.
Proof.
  intros Hnew. unfold processFile, processFileBody, tryCatch.
  unfold mbind at 1. unfold Run_bind at 1. unfold lift at 1. rewrite Hnew.
  reflexivity.
Qed.

Lemma afterGate_reads settings env file st :
  exists l, trace (tryCatch (afterGate settings env file) (report env file) st).1
            = trace st ++ VaultRead file :: l.
Proof.
  set (rest := fun content : string =>
         aliasMap ← lift (extractAliases content);
         if (0 <? length (JsObject.keys aliasMap))%nat then
           updatedCount ← forEntries env file (JsObject.entries aliasMap) 0;
           if (0 <? updatedCount)%nat && showUpdateNotice settings then
             effect (ShowNotice (NoticeUpdated updatedCount))
           else mret ()
         else mret ()).
  assert (Hrest : forall content, monotone (rest content)).
  { intros content. apply monotone_bind; [apply monotone_lift|]. intros aliasMap.
    destruct (0 <? _)%nat; [|apply monotone_ret].
    apply monotone_bind; [apply monotone_forEntries|]. intros n.
    destruct (_ && _); [apply monotone_effect|apply monotone_ret]. }
  assert (Hall : trace (emit (VaultRead file) st)
                 `prefix_of` trace (tryCatch (afterGate settings env file) (report env file) st).1).
  { unfold tryCatch, afterGate. fold rest. unfold mbind at 1. unfold Run_bind at 1.
    unfold vaultRead. destruct (read env file) as [content|e].
    - specialize (Hrest content (emit (VaultRead file) st)).
      destruct (rest content (emit (VaultRead file) st)) as [st' [[]|e]]; [exact Hrest|].
      etrans; [exact Hrest|apply monotone_report].
    - apply monotone_report. }
  destruct Hall as [l Hl]. exists l. rewrite Hl. cbn [emit trace].
  rewrite <- app_assoc. reflexivity.
Qed.

Lemma added_refl st : added st st = [].
Proof. unfold added. apply drop_all. Qed.

(** The test that [processFile] makes, for every engine: the document is
    read (and its links are gone through) if and only if the regular
    expression made of [^], the pattern and [$] compiles and finds a match
    in the base name of the document; when it does not, no content is read
    and no frontmatter is processed or changed. *)
Theorem processFile_gate settings env file st :
  (nameMatches settings env file
   <-> VaultRead file ∈ added st (processFile settings env file st))
  /\ (~ nameMatches settings env file ->
      frontmatters (processFile settings env file st) = frontmatters st
      /\ forall f, (VaultRead f ∉ added st (processFile settings env file st))
                   /\ (ProcessFrontMatter f ∉ added st (processFile settings env file st))).
Proof.
  destruct (RegExp_new ("^" +:+ fileRegex settings +:+ "$")) as [regex|e] eqn:Hnew.
  - destruct (regex (basename (files env file))) eqn:Hm.
    + assert (Hyes : nameMatches settings env file) by (exists regex; done).
      split; [|intros Hno; done]. split; [intros _|done].
      rewrite (processFile_match _ _ _ _ _ Hnew Hm).
      destruct (afterGate_reads settings env file st) as [l Hl].
      rewrite (added_app _ _ _ Hl). apply elem_of_cons. left. reflexivity.
    + rewrite (processFile_no_match _ _ _ _ _ Hnew Hm), added_refl.
      split; [split|].
      * intros (regex' & Hnew' & Hm'). congruence.
      * intros Hin. apply elem_of_nil in Hin. done.
      * intros _. split; [reflexivity|]. intros f. split; apply not_elem_of_nil.
  - rewrite (processFile_invalid _ _ _ _ _ Hnew).
    assert (Hadd : added st (report env file e st).1
                   = [ConsoleErrorProcessing (path (files env file)) e;
                      ShowNotice (NoticeProcessError (basename (files env file)) e)]).
    { apply added_app. unfold report. run_steps. rewrite <- app_assoc. reflexivity. }
    rewrite Hadd. split; [split|].
    + intros (regex' & Hnew' & _). congruence.
    + intros Hin. repeat (apply elem_of_cons in Hin as [Hin|Hin]; [discriminate|]).
      apply elem_of_nil in Hin. done.
    + intros _. split; [reflexivity|]. intros f.
      split; intros Hin;
        repeat (apply elem_of_cons in Hin as [Hin|Hin]; [discriminate|]);
        apply elem_of_nil in Hin; done.
Qed.

(** C9.  For every target document and every alias list,
    [updateFrontmatter] leaves every field of every frontmatter as it was,
    except the field [aliases] of the target; this holds whether the update
    succeeds or fails. *)
Theorem updateFrontmatter_frame env file aliases st f key :
  (f, key) <> (file, "aliases") ->
  frontmatterOf f (updateFrontmatter env file aliases st).1 !! key
  = frontmatterOf f st !! key.
Proof.
  intros Hne. unfold updateFrontmatter, tryCatch, processFrontMatter.
  destruct (unwritable env file); [reflexivity|].
  destruct (callback aliases (frontmatterOf file (emit (ProcessFrontMatter file) st)))
    as [fm|e] eqn:Hcb; [|reflexivity].
  cbn [fst]. unfold frontmatterOf, setFrontmatter. cbn [frontmatters emit].
  destruct (decide (f = file)) as [->|Hf].
  - rewrite lookup_insert_eq. cbn [default].
    apply (callback_frame _ _ _ _ Hcb). congruence.
  - rewrite lookup_insert_ne by congruence. reflexivity.
Qed.

(** What [forEntries] does with a target that fails: the loop ends there. *)
Lemma forEntries_app env file before rest count st st1 count1 :
  forEntries env file before count st = (st1, Normal count1) ->
  forEntries env file (before ++ rest) count st = forEntries env file rest count1 st1.
Proof.
  revert count st. induction before as [|[target aliases] before IH]; intros count st.
  - intros [= <- <-]. reflexivity.
  - cbn [forEntries app].
    destruct (getFirstLinkpathDest env target _) as [targetFile|].
    + destruct (String.eqb _ "md").
      * unfold mbind, Run_bind.
        destruct (updateFrontmatter env targetFile aliases st) as [st' [[]|e]];
          [apply IH|discriminate].
      * unfold mbind, Run_bind, effect. apply IH.
    + unfold mbind, Run_bind, effect. apply IH.
Qed.

Lemma updateFrontmatter_Throw env file aliases st e :
  (updateFrontmatter env file aliases st).2 = Throw e ->
  (updateFrontmatter env file aliases st).1
  = {| frontmatters := frontmatters st; savedData := savedData st;
       trace := trace st ++ [ProcessFrontMatter file;
                             ConsoleErrorUpdating (path (files env file)) e] |}.
Proof.
  unfold updateFrontmatter, tryCatch, processFrontMatter.
  destruct (unwritable env file).
  - run_steps. intros [= <-]. rewrite <- app_assoc. reflexivity.
  - destruct (callback aliases _) as [fm|e']; run_steps; [discriminate|].
    intros [= <-]. rewrite <- app_assoc. reflexivity.
Qed.

(** The loop ends at the first target whose update fails; the targets after
    it are not looked at. *)
Lemma forEntries_failure env file before target aliases after
    targetFile count st st1 count1 e :
  forEntries env file before count st = (st1, Normal count1) ->
  getFirstLinkpathDest env target (path (files env file)) = Some targetFile ->
  extension (files env targetFile) = "md" ->
  (updateFrontmatter env targetFile aliases st1).2 = Throw e ->
  forEntries env file (before ++ (target, aliases) :: after) count st
  = ({| frontmatters := frontmatters st1; savedData := savedData st1;
        trace := trace st1 ++ [ProcessFrontMatter targetFile;
                               ConsoleErrorUpdating (path (files env targetFile)) e] |},
     Throw e).
Proof.
  intros Hbefore Hdest Hext Hfail.
  rewrite (forEntries_app _ _ _ _ _ _ _ _ Hbefore). cbn [forEntries].
  rewrite Hdest, Hext, String.eqb_refl. unfold mbind, Run_bind.
  pose proof (updateFrontmatter_Throw _ _ _ _ _ Hfail) as Hst.
  destruct (updateFrontmatter env targetFile aliases st1) as [st' r].
  cbn [fst snd] in *. subst. reflexivity.
Qed.

(** C2, as the code has it.  For every AliasMap with several targets, an
    error while updating the metadata of one target ends the processing of
    the AliasMap: the error is logged by [updateFrontmatter], thrown on and
    reported once by [processFile]; the failing update changes no metadata,
    the targets before it in the order of iteration keep what they received
    ([st1] is the store after them), and the targets after it receive no
    merge and no metadata write, whatever they are. *)
Theorem processFile_stops_at_failure settings env file st content aliasMap
    before target aliases after targetFile st1 count1 e :
  nameMatches settings env file ->
  read env file = Normal content ->
  extractAliases content = Normal aliasMap ->
  JsObject.entries aliasMap = before ++ (target, aliases) :: after ->
  forEntries env file before 0 (emit (VaultRead file) st) = (st1, Normal count1) ->
  getFirstLinkpathDest env target (path (files env file)) = Some targetFile ->
  extension (files env targetFile) = "md" ->
  (updateFrontmatter env targetFile aliases st1).2 = Throw e ->
  processFile settings env file st
  = {| frontmatters := frontmatters st1; savedData := savedData st1;
       trace := trace st1 ++ [ProcessFrontMatter targetFile;
                              ConsoleErrorUpdating (path (files env targetFile)) e;
                              ConsoleErrorProcessing (path (files env file)) e;
                              ShowNotice (NoticeProcessError (basename (files env file)) e)] |}.
Proof.
  intros (regex & Hnew & Hm) Hread Hex Hentries Hbefore Hdest Hext Hfail.
  rewrite (processFile_match _ _ _ _ _ Hnew Hm).
  unfold tryCatch, afterGate. unfold mbind at 1. unfold Run_bind at 1.
  unfold vaultRead. rewrite Hread.
  unfold mbind at 1. unfold Run_bind at 1. unfold lift. rewrite Hex.
  assert (Hkeys : (0 <? length (JsObject.keys aliasMap))%nat = true).
  { unfold JsObject.keys. rewrite Hentries, length_fmap, length_app. cbn [length].
    apply Nat.ltb_lt. lia. }
  rewrite Hkeys. unfold mbind at 1. unfold Run_bind at 1.
  rewrite Hentries,
    (forEntries_failure _ _ _ _ _ after _ _ _ _ _ _ Hbefore Hdest Hext Hfail).
  unfold report. run_steps. rewrite <- !app_assoc. reflexivity.
Qed.

End WithEngine.
End PipelineFacts.

(** ** The pipeline on the small vault *)

Module PipelineRuns.
Import Host Merger Pipeline PipelineFacts Vault.

Lemma nameMatches_daily :
  @nameMatches Fragment.engine DEFAULT_SETTINGS (vault (fun _ => false) None) daily.
Proof.
  eexists. split; [vm_compute; reflexivity|]. vm_compute. reflexivity.
Qed.

Lemma nameMatches_notes :
  ~ @nameMatches Fragment.engine DEFAULT_SETTINGS (vault (fun _ => false) None) notes.
Proof.
  intros (regex & Hnew & Hm). vm_compute in Hnew. injection Hnew as <-.
  vm_compute in Hm. discriminate.
Qed.

Lemma processFile_gate_witness :
  VaultRead daily
    ∈ added emptyStore
        (@processFile Fragment.engine DEFAULT_SETTINGS (vault (fun _ => false) None)
           daily emptyStore)
  /\ frontmatters
       (@processFile Fragment.engine DEFAULT_SETTINGS (vault (fun _ => false) None)
          notes emptyStore)
     = frontmatters emptyStore.
Proof.
  split.
  - apply (proj1 (@processFile_gate Fragment.engine DEFAULT_SETTINGS
                    (vault (fun _ => false) None) daily emptyStore)).
    exact nameMatches_daily.
  - apply (proj2 (@processFile_gate Fragment.engine DEFAULT_SETTINGS
                    (vault (fun _ => false) None) notes emptyStore)).
    exact nameMatches_notes.
Defined.

Lemma updateFrontmatter_frame_witness :
  (noteA, "tags") <> (noteA, "aliases")
  /\ frontmatterOf noteA
       (updateFrontmatter (vault (fun _ => false) None) noteA ["bar"] taggedStore).1
     !! "tags"
     = frontmatterOf noteA taggedStore !! "tags".
Proof.
  assert (Hne : (noteA, "tags") <> (noteA, "aliases")) by discriminate.
  split; [exact Hne|].
  exact (updateFrontmatter_frame (vault (fun _ => false) None) noteA ["bar"]
           taggedStore noteA "tags" Hne).
Defined.

Lemma processFile_stops_at_failure_witness :
  @processFile Fragment.engine DEFAULT_SETTINGS lockedA daily emptyStore
  = {| frontmatters := ∅; savedData := None;
       trace := [VaultRead daily] ++
                [ProcessFrontMatter noteA;
                 ConsoleErrorUpdating "A.md" HostError;
                 ConsoleErrorProcessing "2024-01-01.md" HostError;
                 ShowNotice (NoticeProcessError "2024-01-01" HostError)] |}.
Proof.
  refine (@processFile_stops_at_failure Fragment.engine DEFAULT_SETTINGS lockedA daily
            emptyStore "On [[A|x]] and [[B|y]]." [("A", ["x"]); ("B", ["y"])]
            [] "A" ["x"] [("B", ["y"])] noteA (emit (VaultRead daily) emptyStore) 0
            HostError _ eq_refl eq_refl eq_refl eq_refl eq_refl eq_refl eq_refl).
  eexists. split; [vm_compute; reflexivity|]. vm_compute. reflexivity.
Defined.

(** C2 as it is stated fails: the daily note links to [A] and to [B], the
    metadata of [A] cannot be written, and [B], which resolves and could be
    written, is not processed: it receives no merge and no metadata write.
    With a writable [A] the same run records the alias of [B]. *)
Lemma processFile_failure_drops_later_targets :
  trace (@processFile Fragment.engine DEFAULT_SETTINGS lockedA daily emptyStore)
  = [VaultRead daily; ProcessFrontMatter noteA;
     ConsoleErrorUpdating "A.md" HostError;
     ConsoleErrorProcessing "2024-01-01.md" HostError;
     ShowNotice (NoticeProcessError "2024-01-01" HostError)]
  /\ frontmatterOf noteB
       (@processFile Fragment.engine DEFAULT_SETTINGS lockedA daily emptyStore)
     !! "aliases" = None
  /\ frontmatterOf noteB
       (@processFile Fragment.engine DEFAULT_SETTINGS (vault (fun _ => false) None)
          daily emptyStore)
     !! "aliases" = Some (VArray [VString "y"]).
Proof. split; [|split]; vm_compute; reflexivity. Qed.

End PipelineRuns.

(** ** The change scheduler *)

Module SchedulerFacts.
Import Host Scheduler.

Lemma loadSettings_range e :
  (1000 <= debounceTimeout (loadSettings e).1 <= 5000)%Z.
Proof.
  unfold loadSettings. destruct (loadData e) as [data|err]; cbn.
  - unfold clampTimeout. lia.
  - lia.
Qed.

Lemma onload_plugin e st t :
  plugin (onload e st t)
  = {| settings := (loadSettings e).1;
       debouncedProcessFile := {| wait := debounceTimeout (loadSettings e).1;
                                  timeout := None |} |}.
Proof. unfold onload. destruct (loadSettings e) as [s effects]. reflexivity. Qed.

Lemma onload_timers e st t : timers (onload e st t) = [].
Proof. unfold onload. destruct (loadSettings e) as [s effects]. reflexivity. Qed.

Lemma onload_wait_range e st t : (1000 <= handlerWait (onload e st t) <= 5000)%Z.
Proof. unfold handlerWait. rewrite onload_plugin. apply loadSettings_range. Qed.

Lemma onload_singleTimer e st t : singleTimer (onload e st t).
Proof. unfold singleTimer. rewrite onload_timers. exact I. Qed.

Lemma saveSettings_plugin sys : plugin (saveSettings sys) = plugin sys.
Proof. unfold saveSettings. destruct (saveDataRejects (env sys)); reflexivity. Qed.

Lemma saveSettings_timers sys : timers (saveSettings sys) = timers sys.
Proof. unfold saveSettings. destruct (saveDataRejects (env sys)); reflexivity. Qed.

Section WithEngine.
Context `{RegExpEngine}.

Lemma debouncedFunc_plugin file sys : plugin (debouncedFunc file sys) = plugin sys.
Proof. unfold debouncedFunc. destruct (_ && _); reflexivity. Qed.

Lemma debouncedFunc_env file sys : env (debouncedFunc file sys) = env sys.
Proof. unfold debouncedFunc. destruct (_ && _); reflexivity. Qed.

Lemma debouncedFunc_timers file sys : timers (debouncedFunc file sys) = timers sys.
Proof. unfold debouncedFunc. destruct (_ && _); reflexivity. Qed.

Lemma runDue_plugin target pending : forall sys,
  plugin (runDue target pending sys) = plugin sys.
Proof.
  induction pending as [|t rest IH]; intros sys; cbn [runDue]; [reflexivity|].
  destruct (due t <=? target)%Z; [|reflexivity].
  rewrite IH, debouncedFunc_plugin. reflexivity.
Qed.

Lemma runDue_env target pending : forall sys,
  env (runDue target pending sys) = env sys.
Proof.
  induction pending as [|t rest IH]; intros sys; cbn [runDue]; [reflexivity|].
  destruct (due t <=? target)%Z; [|reflexivity].
  rewrite IH, debouncedFunc_env. reflexivity.
Qed.

(** The timers that are left are a tail of the pending ones. *)
Lemma runDue_timers target pending : forall sys,
  timers (runDue target pending sys) `suffix_of` pending.
Proof.
  induction pending as [|t rest IH]; intros sys; cbn [runDue]; [reflexivity|].
  destruct (due t <=? target)%Z; [|reflexivity].
  apply suffix_cons_r, IH.
Qed.

Lemma step_plugin_wait ev sys : handlerWait (step ev sys) = handlerWait sys.
Proof.
  unfold handlerWait. destruct ev as [file|file|ms|e|value|value|value]; cbn [step].
  - unfold onFileOpen. destruct file as [f|]; [|reflexivity].
    destruct (String.eqb _ _); reflexivity.
  - reflexivity.
  - unfold elapse. cbn [plugin setNow]. rewrite runDue_plugin. reflexivity.
  - reflexivity.
  - unfold onChangeFileRegex. destruct (RegExp_new value); [|reflexivity].
    rewrite saveSettings_plugin. reflexivity.
  - unfold onChangeShowNotice. rewrite saveSettings_plugin. reflexivity.
  - unfold onChangeDebounce. destruct (parseInt value) as [n|]; [|reflexivity].
    destruct (_ || _); [reflexivity|]. cbn [plugin emitS setStore].
    rewrite saveSettings_plugin. reflexivity.
Qed.

Lemma run_wait evs : forall sys, handlerWait (run evs sys) = handlerWait sys.
Proof.
  unfold run. induction evs as [|ev evs IH]; intros sys; [reflexivity|].
  cbn [fold_left]. rewrite IH. apply step_plugin_wait.
Qed.

Lemma onModify_singleTimer file sys :
  singleTimer sys ->
  timers (onModify file sys)
  = [{| timerId := nextTimerId sys;
        due := now sys + Z.max 0 (handlerWait sys);
        timerArg := file |}].
Proof.
  unfold singleTimer, onModify, handlerWait. cbn [timers].
  destruct (timers sys) as [|t [|t' rest]]; [| |done].
  - intros _. destruct (timeout _); reflexivity.
  - intros ->. cbn [clearTimeout]. rewrite filter_cons_False by (intros Hne; apply Hne; reflexivity).
    reflexivity.
Qed.

Lemma step_singleTimer ev sys : singleTimer sys -> singleTimer (step ev sys).
Proof.
  intros Hinv. destruct ev as [file|file|ms|e|value|value|value]; cbn [step].
  - unfold onFileOpen. destruct file as [f|]; [|exact Hinv].
    destruct (String.eqb _ _); exact Hinv.
  - unfold singleTimer. rewrite (onModify_singleTimer _ _ Hinv). reflexivity.
  - unfold singleTimer in *. unfold elapse. cbn [timers plugin setNow].
    rewrite runDue_plugin.
    destruct (timers sys) as [|t [|t' rest]]; [exact I| |done].
    cbn [runDue]. destruct (due t <=? _)%Z; cbn [runDue timers setTimers]; [exact I|exact Hinv].
  - exact Hinv.
  - unfold onChangeFileRegex. destruct (RegExp_new value); [|exact Hinv].
    unfold singleTimer. rewrite saveSettings_plugin, saveSettings_timers. exact Hinv.
  - unfold onChangeShowNotice, singleTimer.
    rewrite saveSettings_plugin, saveSettings_timers. exact Hinv.
  - unfold onChangeDebounce. destruct (parseInt value) as [n|]; [|exact Hinv].
    destruct (_ || _); [exact Hinv|]. unfold singleTimer. cbn [plugin timers emitS setStore].
    rewrite saveSettings_plugin, saveSettings_timers. exact Hinv.
Qed.

Lemma run_singleTimer evs : forall sys, singleTimer sys -> singleTimer (run evs sys).
Proof.
  unfold run. induction evs as [|ev evs IH]; intros sys Hinv; [exact Hinv|].
  cbn [fold_left]. apply IH, step_singleTimer, Hinv.
Qed.

Lemma onModify_fields file sys :
  singleTimer sys -> (0 <= handlerWait sys)%Z ->
  onModify file sys
  = {| plugin := {| settings := settings (plugin sys);
                    debouncedProcessFile :=
                      {| wait := handlerWait sys; timeout := Some (nextTimerId sys) |} |};
       env := env sys; store := store sys; now := now sys;
       timers := [{| timerId := nextTimerId sys;
                     due := now sys + handlerWait sys;
                     timerArg := file |}];
       nextTimerId := S (nextTimerId sys); calls := calls sys |}.
Proof.
  intros Hinv Hw. pose proof (onModify_singleTimer file sys Hinv) as Ht.
  unfold onModify in *. cbn [timers] in Ht. rewrite Ht.
  unfold handlerWait in *. rewrite Z.max_r by exact Hw. reflexivity.
Qed.



(** The only pending timer fires and the file fails one of the tests:
    nothing is called, and the timer is gone. *)
Lemma elapse_skip p e st nw t nxt cs ms :
  (due t <= nw + Z.of_N ms)%Z ->
  extension (files e (timerArg t)) <> "md" \/ getActiveFile e <> Some (timerArg t) ->
  elapse ms {| plugin := p; env := e; store := st; now := nw; timers := [t];
               nextTimerId := nxt; calls := cs |}
  = {| plugin := p; env := e; store := st; now := nw + Z.of_N ms; timers := [];
       nextTimerId := nxt; calls := cs |}.
Proof.
  intros Hdue Hgate. unfold elapse. cbn [now timers runDue].
  rewrite (proj2 (Z.leb_le (due t) (nw + Z.of_N ms))) by lia.
  unfold debouncedFunc. cbn [setTimers setNow plugin env store now timers nextTimerId calls].
  assert (Htest : String.eqb (extension (files e (timerArg t))) "md"
                  && bool_decide (getActiveFile e = Some (timerArg t)) = false).
  { apply andb_false_iff. destruct Hgate as [Hext|Hact].
    - left. apply String.eqb_neq, Hext.
    - right. apply bool_decide_eq_false_2, Hact. }
  rewrite Htest. reflexivity.
Qed.





(** The calls that firing timers add pass both tests of the handler. *)
Lemma runDue_calls target pending : forall sys,
  exists l,
    calls (runDue target pending sys) = calls sys ++ l
    /\ forall t file, (t, file) ∈ l ->
         extension (files (env sys) file) = "md" /\ getActiveFile (env sys) = Some file.
Proof.
  induction pending as [|tm rest IH]; intros sys; cbn [runDue].
  - exists []. rewrite app_nil_r. split; [reflexivity|].
    intros t file Hin. apply elem_of_nil in Hin. done.
  - destruct (due tm <=? target)%Z.
    + destruct (IH (debouncedFunc (timerArg tm)
                      (setNow (Z.max (now sys) (due tm)) (setTimers rest sys))))
        as (l & Hl & Hgate).
      rewrite debouncedFunc_env in Hgate. cbn [env setNow setTimers] in Hgate.
      unfold debouncedFunc in Hl |- *.
      cbn [env setNow setTimers] in Hl |- *.
      destruct (String.eqb (extension (files (env sys) (timerArg tm))) "md"
                && bool_decide (getActiveFile (env sys) = Some (timerArg tm))) eqn:Htest.
      * apply andb_prop in Htest as [Hext%String.eqb_eq Hact%bool_decide_eq_true_1].
        exists ((Z.max (now sys) (due tm), timerArg tm) :: l). split.
        { rewrite Hl. cbn [calls callProcessFile setNow setTimers now].
          rewrite <- app_assoc. reflexivity. }
        intros t file [[= -> ->]|Hin]%elem_of_cons; [done|]. exact (Hgate _ _ Hin).
      * exists l. split; [exact Hl|exact Hgate].
    + exists []. rewrite app_nil_r. split; [reflexivity|].
      intros t file Hin. apply elem_of_nil in Hin. done.
Qed.

Lemma elapse_calls ms sys t file :
  (t, file) ∈ newCalls sys (elapse ms sys) ->
  extension (files (env sys) file) = "md" /\ getActiveFile (env sys) = Some file.
Proof.
  unfold newCalls, elapse. cbn [calls setNow].
  destruct (runDue_calls (now sys + Z.of_N ms) (timers sys) sys) as (l & -> & Hgate).
  rewrite drop_app_length. apply Hgate.
Qed.

Lemma elapse_no_timers p e st nw nxt cs ms :
  elapse ms {| plugin := p; env := e; store := st; now := nw; timers := [];
               nextTimerId := nxt; calls := cs |}
  = {| plugin := p; env := e; store := st; now := nw + Z.of_N ms; timers := [];
       nextTimerId := nxt; calls := cs |}.
Proof. reflexivity. Qed.

(** The document stops being active, or stops being a note, before the
    timer fires. *)
Lemma debounce_skip sys file env' quiet later :
  singleTimer sys -> (0 <= handlerWait sys)%Z -> (handlerWait sys <= Z.of_N quiet)%Z ->
  extension (files env' file) <> "md" \/ getActiveFile env' <> Some file ->
  calls (run [Modify file; HostChange env'; Elapse quiet] sys) = calls sys
  /\ store (run [Modify file; HostChange env'; Elapse quiet] sys) = store sys
  /\ timers (run [Modify file; HostChange env'; Elapse quiet] sys) = []
  /\ calls (run [Modify file; HostChange env'; Elapse quiet; Elapse later] sys) = calls sys.
Proof.
  intros Hinv Hw Hquiet Hgate.
  unfold run. cbn [fold_left step].
  rewrite (onModify_fields file sys Hinv Hw).
  unfold setEnv. cbn [plugin env store now timers nextTimerId calls].
  rewrite elapse_skip by (cbn [due timerArg]; first [lia|exact Hgate]).
  rewrite elapse_no_timers. done.
Qed.


(** C7.  When timers fire, [processFile] is called only for a file that has
    the extension [md] and is the active file of the host at that moment.
    After any history of the loaded plugin, if the modified document fails
    one of the two tests when its timer fires (the active document has
    changed, say), nothing is called and nothing is changed, no timer is
    left, and no call follows later. *)
Theorem debounce_fires_only_for_active e st t0 evs :
  let sys := run evs (onload e st t0) in
  (forall ms t file,
      (t, file) ∈ newCalls sys (elapse ms sys) ->
      extension (files (env sys) file) = "md" /\ getActiveFile (env sys) = Some file)
  /\ (forall file env' quiet later,
        (handlerWait sys <= Z.of_N quiet)%Z ->
        extension (files env' file) <> "md" \/ getActiveFile env' <> Some file ->
        calls (run [Modify file; HostChange env'; Elapse quiet] sys) = calls sys
        /\ store (run [Modify file; HostChange env'; Elapse quiet] sys) = store sys
        /\ timers (run [Modify file; HostChange env'; Elapse quiet] sys) = []
        /\ calls (run [Modify file; HostChange env'; Elapse quiet; Elapse later] sys)
           = calls sys).
Proof.
  intros sys.
  assert (Hinv : singleTimer sys) by apply run_singleTimer, onload_singleTimer.
  assert (Hw : (0 <= handlerWait sys)%Z).
  { unfold sys. rewrite run_wait. pose proof (onload_wait_range e st t0). lia. }
  split.
  - intros ms t file. apply elapse_calls.
  - intros file env' quiet later Hquiet Hgate.
    exact (debounce_skip sys file env' quiet later Hinv Hw Hquiet Hgate).
Qed.

Lemma onChangeDebounce_settings value n sys :
  parseInt value = Some n -> (1000 <= n <= 5000)%Z ->
  debounceTimeout (settings (plugin (onChangeDebounce value sys))) = n.
Proof.
  intros Hparse Hn. unfold onChangeDebounce. rewrite Hparse.
  destruct (Z.ltb_spec n 1000); [lia|]. destruct (Z.ltb_spec 5000 n); [lia|].
  cbn [orb plugin emitS setStore]. rewrite saveSettings_plugin. reflexivity.
Qed.

(** C10.  After any history of the loaded plugin, the wait of the registered
    content-modify handler is the value that [debounceTimeout] had when
    [onload] ran, and the timers it arms are due that much later; a change
    of the setting in the settings tab is stored in the settings and leaves
    the wait of the handler as it was. *)
Theorem debounce_wait_fixed_at_load e st t0 evs :
  let loaded := onload e st t0 in
  let sys := run evs loaded in
  handlerWait sys = debounceTimeout (settings (plugin loaded))
  /\ (forall file,
        timers (onModify file sys)
        = [{| timerId := nextTimerId sys;
              due := now sys + debounceTimeout (settings (plugin loaded));
              timerArg := file |}])
  /\ (forall value n,
        parseInt value = Some n -> (1000 <= n <= 5000)%Z ->
        debounceTimeout (settings (plugin (step (EditDebounce value) sys))) = n
        /\ handlerWait (step (EditDebounce value) sys)
           = debounceTimeout (settings (plugin loaded))).
Proof.
  intros loaded sys.
  assert (Hwait : handlerWait sys = debounceTimeout (settings (plugin loaded))).
  { unfold sys. rewrite run_wait. unfold handlerWait, loaded.
    rewrite onload_plugin. reflexivity. }
  assert (Hinv : singleTimer sys) by apply run_singleTimer, onload_singleTimer.
  assert (Hw : (0 <= handlerWait sys)%Z).
  { unfold sys, loaded. rewrite run_wait. pose proof (onload_wait_range e st t0). lia. }
  split; [exact Hwait|]. split.
  - intros file. rewrite (onModify_fields file sys Hinv Hw), Hwait. reflexivity.
  - intros value n Hparse Hn. split.
    + cbn [step]. exact (onChangeDebounce_settings value n sys Hparse Hn).
    + rewrite step_plugin_wait. exact Hwait.
Qed.

End WithEngine.
End SchedulerFacts.

(** ** The scheduler on the small vault *)

Module SchedulerRuns.
Import Host Scheduler SchedulerFacts Vault.


(** The daily note is modified, then the user moves to the note [A]: the
    timer fires for nothing. *)
Lemma debounce_fires_only_for_active_witness :
  calls (@run Fragment.engine [Modify daily; HostChange movedToA; Elapse 1000] loaded) = []
  /\ store (@run Fragment.engine [Modify daily; HostChange movedToA; Elapse 1000] loaded)
     = store loaded
  /\ timers (@run Fragment.engine [Modify daily; HostChange movedToA; Elapse 1000] loaded) = []
  /\ calls (@run Fragment.engine
              [Modify daily; HostChange movedToA; Elapse 1000; Elapse 5000] loaded) = [].
Proof.
  refine (proj2 (@debounce_fires_only_for_active Fragment.engine editing emptyStore 0 [])
            daily movedToA 1000%N 5000%N _ _).
  - vm_compute. discriminate.
  - right. discriminate.
Defined.

(** The timeout is set to 3000 ms in the settings tab: the setting changes,
    the wait of the handler stays at 1000 ms. *)
Lemma debounce_wait_fixed_at_load_witness :
  debounceTimeout
    (settings (plugin (@step Fragment.engine (EditDebounce "3000") loaded))) = 3000%Z
  /\ handlerWait (@step Fragment.engine (EditDebounce "3000") loaded) = 1000%Z.
Proof.
  refine (proj2 (proj2 (@debounce_wait_fixed_at_load Fragment.engine editing emptyStore 0 []))
            "3000" 3000%Z _ _).
  - reflexivity.
  - lia.
Defined.

End SchedulerRuns.

(** ** More on the alias merger *)

Module MergerMore.
Import JsString JsArray JsStringFacts JsArrayFacts Merger MergerFacts Notions.

(** Two merges with the same entries are equal. *)
Lemma merge_ext a b a' b' :
  (forall x, x ∈ toLowerCase <$> a \/ x ∈ b <-> x ∈ toLowerCase <$> a' \/ x ∈ b') ->
  merge a b = merge a' b'.
Proof.
  intros Hel. apply strict_sorted_ext; [apply merge_strict|apply merge_strict|].
  intros x. rewrite !merge_elem. apply Hel.
Qed.

(** The aliases already recorded absorb incoming aliases that they hold. *)
Lemma merge_absorb l incoming :
  StronglySorted lt l -> Forall lowerCased l -> incoming ⊆ l -> merge l incoming = l.
Proof.
  intros Hs Hlow Hsub. apply strict_sorted_ext; [apply merge_strict|exact Hs|].
  intros x. rewrite merge_elem. split.
  - intros [(y & -> & Hy)%list_elem_of_fmap|Hx]; [|apply Hsub, Hx].
    rewrite (proj1 (Forall_forall _ _) Hlow y Hy). exact Hy.
  - intros Hx. left. apply list_elem_of_fmap. exists x. split; [|exact Hx].
    symmetry. exact (proj1 (Forall_forall _ _) Hlow x Hx).
Qed.

(** X1.  The merge does not depend on the order of the entries of its two
    arguments, nor on how often an entry is repeated. *)
Theorem merge_same_entries a b a' b' :
  (forall x, x ∈ a <-> x ∈ a') -> (forall x, x ∈ b <-> x ∈ b') ->
  merge a b = merge a' b'.
Proof.
  intros Ha Hb. apply merge_ext. intros x.
  rewrite !list_elem_of_fmap. split.
  - intros [(y & -> & Hy)|Hx]; [left; exists y; split; [reflexivity|apply Ha, Hy]|].
    right. apply Hb, Hx.
  - intros [(y & -> & Hy)|Hx]; [left; exists y; split; [reflexivity|apply Ha, Hy]|].
    right. apply Hb, Hx.
Qed.

Lemma merge_same_entries_witness :
  (forall x, x ∈ ["Plan"; "old"; "Plan"] <-> x ∈ ["old"; "Plan"])
  /\ (forall x, x ∈ ["b"; "a"] <-> x ∈ ["a"; "b"; "a"])
  /\ merge ["Plan"; "old"; "Plan"] ["b"; "a"] = merge ["old"; "Plan"] ["a"; "b"; "a"].
Proof.
  assert (Ha : forall x, x ∈ ["Plan"; "old"; "Plan"] <-> x ∈ ["old"; "Plan"]).
  { intros x. rewrite !elem_of_cons. pose proof (elem_of_nil x). tauto. }
  assert (Hb : forall x, x ∈ ["b"; "a"] <-> x ∈ ["a"; "b"; "a"]).
  { intros x. rewrite !elem_of_cons. pose proof (elem_of_nil x). tauto. }
  split; [exact Ha|]. split; [exact Hb|].
  exact (merge_same_entries _ _ _ _ Ha Hb).
Defined.

(** X2.  Two merges in a row are one merge of both incoming lists, when the
    first incoming list is in lower case. *)
Theorem merge_compose a b c :
  Forall lowerCased b -> merge (merge a b) c = merge a (b ++ c).
Proof.
  intros Hb. apply merge_ext. intros x. rewrite elem_of_app. split.
  - intros [(y & -> & Hy)%list_elem_of_fmap|Hx]; [|right; right; exact Hx].
    apply merge_elem in Hy as [Hy|Hy].
    + left. rewrite (lowerCased_fmap _ _ Hy). exact Hy.
    + right. left. rewrite (proj1 (Forall_forall _ _) Hb y Hy). exact Hy.
  - intros [Hx|[Hx|Hx]]; [| |right; exact Hx].
    + left. apply list_elem_of_fmap. exists x. split.
      * symmetry. exact (lowerCased_fmap _ _ Hx).
      * apply merge_elem. left. exact Hx.
    + left. apply list_elem_of_fmap. exists x. split.
      * symmetry. exact (proj1 (Forall_forall _ _) Hb x Hx).
      * apply merge_elem. right. exact Hx.
Qed.

Lemma merge_compose_witness :
  Forall lowerCased ["plan"]
  /\ merge (merge ["Old"] ["plan"]) ["Road"] = merge ["Old"] (["plan"] ++ ["Road"]).
Proof.
  assert (Hb : Forall lowerCased ["plan"]) by (repeat constructor).
  split; [exact Hb|]. exact (merge_compose ["Old"] ["plan"] ["Road"] Hb).
Defined.

Lemma mapM_lowerElement_Normal l r :
  mapM lowerElement l = Normal r -> exists ss, l = VString <$> ss.
Proof.
  revert r. induction l as [|v l IH]; intros r; [exists []; reflexivity|].
  cbn [mapM]. destruct v as [| | |s| |]; try discriminate.
  cbn. destruct (mapM lowerElement l) as [r'|e] eqn:El; [|discriminate].
  intros _. destruct (IH r' eq_refl) as [ss ->]. exists (s :: ss). reflexivity.
Qed.

(** X3.  The callback of [updateFrontmatter] returns exactly when the field
    [aliases] of the frontmatter is missing, falsy or an array of strings;
    for every other frontmatter it throws a [TypeError]. *)
Theorem callback_returns_iff aliases (frontmatter : gmap string Value) :
  (readableAliases frontmatter <-> exists frontmatter', callback aliases frontmatter = Normal frontmatter')
  /\ (~ readableAliases frontmatter -> callback aliases frontmatter = Throw TypeError).
Proof.
  unfold readableAliases, callback, existingAliases.
  destruct (frontmatter !! "aliases") as [v|]; [|split; [split; eauto|tauto]].
  destruct (truthy v) eqn:Hv.
  - destruct v as [| | | |l|o]; try (split; [split; [intros [|[l' ?]]; done|intros [? ?]; done]|done]).
    destruct (mapM lowerElement l) as [r|e] eqn:El.
    + split; [split; [eauto|]|].
      * intros _. right. apply mapM_lowerElement_Normal in El as [ss ->]. eauto.
      * intros Hno. exfalso. apply Hno. right.
        apply mapM_lowerElement_Normal in El as [ss ->]. eauto.
    + assert (Hno : ~ (true = false \/ exists l', VArray l = VArray (VString <$> l'))).
      { intros [|[l' [= ->]]]; [done|]. rewrite mapM_lowerElement in El. done. }
      assert (He : e = TypeError).
      { clear Hno. revert e El. induction l as [|w l IH]; intros e; [done|].
        cbn [mapM]. destruct w; cbn; try (intros [= <-]; reflexivity).
        destruct (mapM lowerElement l) as [r'|e']; [done|]. intros [= <-]. eauto. }
      subst e. split; [split; [done|intros [? ?]; done]|done].
  - split; [split; [eauto|intros _; left; reflexivity]|]. intros Hno. exfalso. apply Hno. eauto.
Qed.

End MergerMore.

(** ** More on the alias extractor *)

Module ExtractorMore.
Import JsString JsArray AliasRegex Extractor Notions.
Import JsStringFacts JsArrayFacts AliasRegexFacts JsObjectFacts ExtractorFacts.

Lemma isWhiteSpace_lowerChar c : isWhiteSpace (lowerChar c) = isWhiteSpace c.
Proof. destruct c as [[] [] [] [] [] [] [] []]; reflexivity. Qed.

Lemma trimStart_toLowerCase s : trimStart (toLowerCase s) = toLowerCase (trimStart s).
Proof.
  induction s as [|c s IH]; [reflexivity|]. cbn [toLowerCase trimStart].
  rewrite isWhiteSpace_lowerChar. destruct (isWhiteSpace c); [exact IH|reflexivity].
Qed.

Lemma trimEnd_toLowerCase s : trimEnd (toLowerCase s) = toLowerCase (trimEnd s).
Proof.
  induction s as [|c s IH]; [reflexivity|]. cbn [toLowerCase trimEnd].
  rewrite IH, isWhiteSpace_lowerChar.
  destruct (trimEnd s) as [|c' s']; cbn [toLowerCase]; [|reflexivity].
  destruct (isWhiteSpace c); reflexivity.
Qed.

Lemma trim_toLowerCase s : trim (toLowerCase s) = toLowerCase (trim s).
Proof. unfold trim. rewrite trimStart_toLowerCase, trimEnd_toLowerCase. reflexivity. Qed.

Lemma trimEnd_idem s : trimEnd (trimEnd s) = trimEnd s.
Proof.
  induction s as [|c s IH]; [reflexivity|]. cbn [trimEnd].
  destruct (trimEnd s) as [|c' s'] eqn:E.
  - destruct (isWhiteSpace c) eqn:Ec; [reflexivity|]. cbn [trimEnd]. rewrite Ec. reflexivity.
  - change (trimEnd (String c (String c' s')))
      with (match trimEnd (String c' s') with
            | EmptyString => if isWhiteSpace c then EmptyString else String c EmptyString
            | String a r => String c (String a r)
            end).
    rewrite IH. reflexivity.
Qed.

(** What [trimEnd] keeps starts as the string does. *)
Lemma trimEnd_head c s :
  isWhiteSpace c = false -> exists r, trimEnd (String c s) = String c r.
Proof.
  intros Hc. cbn [trimEnd]. destruct (trimEnd s); [rewrite Hc|]; eauto.
Qed.

Lemma trimStart_head s :
  trimStart s = "" \/ exists c r, trimStart s = String c r /\ isWhiteSpace c = false.
Proof.
  induction s as [|c s IH]; [left; reflexivity|]. cbn [trimStart].
  destruct (isWhiteSpace c) eqn:Ec; [exact IH|]. right. eauto.
Qed.

Lemma trim_idem s : trim (trim s) = trim s.
Proof.
  unfold trim. destruct (trimStart_head s) as [->|(c & r & -> & Hc)]; [reflexivity|].
  destruct (trimEnd_head c r Hc) as [r' Hr]. rewrite Hr. cbn [trimStart]. rewrite Hc.
  rewrite <- Hr. apply trimEnd_idem.
Qed.

Lemma truthy_nonempty s : truthy s = true -> s <> "".
Proof. destruct s; [discriminate|]. intros _. discriminate. Qed.

Lemma toLowerCase_nonempty s : s <> "" -> toLowerCase s <> "".
Proof. destruct s; [done|]. intros _. discriminate. Qed.

(** What one iteration adds, with what the tests of the loop ensure. *)
Lemma loopBody_new m aliasMap aliasMap' target set :
  loopBody m aliasMap = Normal aliasMap' -> (target, set) ∈ aliasMap' ->
  (target, set) ∈ aliasMap
  \/ exists alias old,
       m2 m = Some alias /\ target = trim (m1 m)
       /\ trim (m1 m) <> "" /\ trim alias <> ""
       /\ set = Set_add (toLowerCase (trim alias)) old
       /\ (old = [] \/ (target, old) ∈ aliasMap).
Proof.
  unfold loopBody. destruct (m2 m) as [alias|]; cbn [fmap option_fmap option_map].
  - destruct (truthy (trim alias) && truthy (trim (m1 m))) eqn:Ht.
    + apply andb_prop in Ht as [Ha%truthy_nonempty Ht%truthy_nonempty].
      destruct (JsObject.getOwn (trim (m1 m)) aliasMap) as [old|] eqn:Eg.
      * intros [= <-]. intros [[= -> ->]|He]%setOwn_elem; [|left; exact He].
        right. exists alias, old. repeat split; try done. right. apply getOwn_elem, Eg.
      * destruct (JsObject.inherited (trim (m1 m))); [discriminate|].
        intros [= <-]. intros [[= -> ->]|He]%setOwn_elem; [|left; exact He].
        right. exists alias, []. repeat split; try done. left. reflexivity.
    + intros [= <-] He. left. exact He.
  - intros [= <-] He. left. exact He.
Qed.

(** The invariant of the loop: targets and aliases are trimmed and not
    empty, and no set is empty. *)
Lemma loopBody_tidy m aliasMap aliasMap' :
  (tidy aliasMap /\ forall target set alias,
      (target, set) ∈ aliasMap -> alias ∈ set -> trimmed target /\ trimmed alias) ->
  loopBody m aliasMap = Normal aliasMap' ->
  tidy aliasMap' /\ forall target set alias,
      (target, set) ∈ aliasMap' -> alias ∈ set -> trimmed target /\ trimmed alias.
Proof.
  intros [Htidy Htrim] Hb. split.
  - intros target set He.
    destruct (loopBody_new _ _ _ _ _ Hb He)
      as [Hold|(alias & old & _ & -> & Ht & Ha & -> & Hin)]; [exact (Htidy _ _ Hold)|].
    split; [exact Ht|]. split.
    + intros Hnil. assert (Hx : toLowerCase (trim alias) ∈ Set_add (toLowerCase (trim alias)) old)
        by (apply Set_add_elem; left; reflexivity).
      rewrite Hnil in Hx. apply elem_of_nil in Hx. done.
    + intros x [->|Hx]%Set_add_elem; [apply toLowerCase_nonempty, Ha|].
      destruct Hin as [->|Hin]; [apply elem_of_nil in Hx; done|].
      exact (proj2 (proj2 (Htidy _ _ Hin)) x Hx).
  - intros target set x He Hx.
    destruct (loopBody_new _ _ _ _ _ Hb He)
      as [Hold|(alias & old & _ & -> & Ht & Ha & -> & Hin)]; [exact (Htrim _ _ _ Hold Hx)|].
    apply Set_add_elem in Hx as [->|Hx].
    + split; [apply trim_idem|]. unfold trimmed. rewrite trim_toLowerCase, trim_idem. reflexivity.
    + destruct Hin as [->|Hin]; [apply elem_of_nil in Hx; done|].
      exact (Htrim _ _ _ Hin Hx).
Qed.

Lemma getOwn_None_keys {A} k (o : JsObject.t A) :
  JsObject.getOwn k o = None -> k ∉ o.*1.
Proof.
  induction o as [|[k' v'] o IH]; cbn; [intros _; apply not_elem_of_nil|].
  destruct (String.eqb_spec k k') as [->|Hne]; [discriminate|].
  intros Hg. apply not_elem_of_cons. split; [exact Hne|exact (IH Hg)].
Qed.

Lemma setOwn_keys {A} k (v : A) (o : JsObject.t A) :
  (JsObject.setOwn k v o).*1
  = match JsObject.getOwn k o with Some _ => o.*1 | None => o.*1 ++ [k] end.
Proof.
  induction o as [|[k' v'] o IH]; cbn; [reflexivity|].
  destruct (String.eqb_spec k k') as [->|Hne]; cbn; [reflexivity|].
  rewrite IH. destruct (JsObject.getOwn k o); reflexivity.
Qed.

(** A target is a key of the map once. *)
Lemma loopBody_keys m aliasMap aliasMap' :
  NoDup aliasMap.*1 -> loopBody m aliasMap = Normal aliasMap' -> NoDup aliasMap'.*1.
Proof.
  intros Hnd. unfold loopBody. destruct (m2 m) as [alias|]; cbn [fmap option_fmap option_map].
  - destruct (truthy (trim alias) && truthy (trim (m1 m))).
    + destruct (JsObject.getOwn (trim (m1 m)) aliasMap) as [old|] eqn:Eg.
      * intros [= <-]. rewrite setOwn_keys, Eg. exact Hnd.
      * destruct (JsObject.inherited (trim (m1 m))); [discriminate|].
        intros [= <-]. rewrite setOwn_keys, Eg.
        apply NoDup_app. split; [exact Hnd|]. split; [|apply NoDup_singleton].
        intros x Hx ->%list_elem_of_singleton. exact (getOwn_None_keys _ _ Eg Hx).
    + intros [= <-]. exact Hnd.
  - intros [= <-]. exact Hnd.
Qed.

Lemma finalize_keys aliasMap : (finalize aliasMap).*1 = aliasMap.*1.
Proof.
  unfold finalize. induction aliasMap as [|[k v] o IH]; cbn; [reflexivity|].
  f_equal. exact IH.
Qed.

(** X4.  For every text on which [extractAliases] returns, every target of the
    map occurs once as a key, is not empty and has no white space at its
    ends; its alias list is not empty, and no alias is empty or has white
    space at its ends. *)
Theorem extractAliases_tidy content aliasMap :
  extractAliases content = Normal aliasMap ->
  NoDup aliasMap.*1
  /\ tidy aliasMap
  /\ forall target aliases alias,
       (target, aliases) ∈ aliasMap -> alias ∈ aliases -> trimmed target /\ trimmed alias.
Proof.
  unfold extractAliases.
  destruct (whileExec (String.length content) content []) as [sets|e] eqn:Ew; [|discriminate].
  intros [= <-].
  assert (Hkeys : NoDup sets.*1).
  { apply (whileExec_invariant content (fun a => NoDup a.*1)) with (4 := Ew) (pre := "").
    - intros m a a' _ _ Ha Hb. exact (loopBody_keys _ _ _ Ha Hb).
    - reflexivity.
    - constructor. }
  assert (Hsets : tidy sets /\ forall target set alias,
             (target, set) ∈ sets -> alias ∈ set -> trimmed target /\ trimmed alias).
  { apply (whileExec_invariant content
             (fun a => tidy a /\ forall target set alias,
                  (target, set) ∈ a -> alias ∈ set -> trimmed target /\ trimmed alias))
      with (4 := Ew) (pre := "").
    - intros m a a' _ _ Ha Hb. exact (loopBody_tidy _ _ _ Ha Hb).
    - reflexivity.
    - split; [intros t s' Hin|intros t s' al Hin]; apply elem_of_nil in Hin; done. }
  destruct Hsets as [Htidy Htrim].
  split; [rewrite finalize_keys; exact Hkeys|]. split.
  - intros target aliases (set & Hset & ->)%finalize_elem.
    destruct (Htidy _ _ Hset) as (Ht & Hne & Hal). split; [exact Ht|]. split.
    + intros Hnil. apply Hne. apply Permutation_nil_r. rewrite <- Hnil.
      symmetry. apply sort_Permutation.
    + intros x Hx. apply (proj1 (sort_elem _ _)) in Hx. exact (Hal x Hx).
  - intros target aliases alias (set & Hset & ->)%finalize_elem Hx.
    apply (proj1 (sort_elem _ _)) in Hx. exact (Htrim _ _ _ Hset Hx).
Qed.

Lemma extractAliases_tidy_witness :
  NoDup [("Plan", ["road map"; "x"])].*1
  /\ tidy [("Plan", ["road map"; "x"])]
  /\ forall target aliases alias,
       (target, aliases) ∈ [("Plan", ["road map"; "x"])] -> alias ∈ aliases ->
       trimmed target /\ trimmed alias.
Proof.
  exact (extractAliases_tidy "[[ Plan | Road Map ]] [[Q]] [[Plan|x]] [[ |y]]"
           [("Plan", ["road map"; "x"])] eq_refl).
Defined.

Lemma closing_other c s : Ascii.eqb c "]" = false -> closing (String c s) = None.
Proof. intros Hc. unfold closing. destruct s; [reflexivity|]. rewrite Hc. reflexivity. Qed.

Lemma pipe_other c s : Ascii.eqb c "|" = false -> pipe (String c s) = None.
Proof. intros Hc. unfold pipe. rewrite Hc. reflexivity. Qed.

Lemma lazyToClose_plain a rest :
  plainAlias a -> lazyToClose (a +:+ "]]" +:+ rest) = Some (a, rest).
Proof.
  unfold plainAlias. induction a as [|c a IH]; [reflexivity|].
  cbn [forallb]. intros [[Hc Hlt]%andb_prop Ha]%andb_prop.
  apply negb_true_iff in Hc, Hlt.
  rewrite append_cons. cbn [lazyToClose]. rewrite (closing_other _ _ Hc), Hlt, (IH Ha).
  reflexivity.
Qed.

Lemma matchTarget_plain t a rest :
  plainTarget t -> plainAlias a ->
  matchTarget (t +:+ "|" +:+ a +:+ "]]" +:+ rest) = Some ({| m1 := t; m2 := Some a |}, rest).
Proof.
  unfold plainTarget. intros Ht Ha. induction t as [|c t IH].
  - change ("" +:+ "|" +:+ a +:+ "]]" +:+ rest) with (String "|" (a +:+ "]]" +:+ rest)).
    cbn [matchTarget]. unfold afterTarget.
    change (pipe (String "|" (a +:+ "]]" +:+ rest))) with (Some (a +:+ "]]" +:+ rest)).
    cbn [mbind option_bind]. rewrite (lazyToClose_plain a rest Ha). reflexivity.
  - cbn [forallb] in Ht. apply andb_prop in Ht as [[[Hp Hc]%andb_prop Hlt]%andb_prop Ht].
    apply negb_true_iff in Hp, Hc, Hlt.
    rewrite append_cons. cbn [matchTarget]. unfold afterTarget.
    rewrite (pipe_other _ _ Hp), (closing_other _ _ Hc). cbn [mbind option_bind].
    rewrite Hlt, (IH Ht). reflexivity.
Qed.

Lemma exec_plain_link pre t a rest :
  noOpening pre -> plainTarget t -> plainAlias a ->
  exec (pre +:+ "[[" +:+ t +:+ "|" +:+ a +:+ "]]" +:+ rest)
  = Some ({| m1 := t; m2 := Some a |}, rest).
Proof.
  intros Hpre Ht Ha. rewrite (exec_noOpening_app _ _ Hpre).
  change ("[[" +:+ t +:+ "|" +:+ a +:+ "]]" +:+ rest)
    with (String "[" (String "[" (t +:+ "|" +:+ a +:+ "]]" +:+ rest))).
  cbn [exec]. unfold matchAt.
  change (opening (String "[" (String "[" (t +:+ "|" +:+ a +:+ "]]" +:+ rest))))
    with (Some (t +:+ "|" +:+ a +:+ "]]" +:+ rest)).
  cbn [mbind option_bind]. rewrite (matchTarget_plain t a rest Ht Ha). reflexivity.
Qed.

Lemma nonempty_truthy s : s <> "" -> truthy s = true.
Proof. destruct s; [done|reflexivity]. Qed.

(** X5.  A text that holds one link [[[t|a]]], where [t] has no pipe, [t] and
    [a] have no closing bracket and no line break, and the text around the
    link has no opening bracket, yields the map with the trimmed target and
    its trimmed, lower-cased alias (when neither is empty and the target
    names no property inherited from [Object.prototype]). *)
Theorem extractAliases_one_link pre t a post :
  noOpening pre -> noOpening post -> plainTarget t -> plainAlias a ->
  trim t <> "" -> trim a <> "" -> JsObject.inherited (trim t) = false ->
  extractAliases (pre +:+ "[[" +:+ t +:+ "|" +:+ a +:+ "]]" +:+ post)
  = Normal [(trim t, [toLowerCase (trim a)])].
Proof.
  intros Hpre Hpost Ht Ha Htn Han Hin. rewrite extractAliases_scan.
  assert (Hb : loopBody {| m1 := t; m2 := Some a |} []
               = Normal [(trim t, [toLowerCase (trim a)])]).
  { unfold loopBody. cbn [m1 m2 fmap option_fmap option_map].
    rewrite (nonempty_truthy _ Htn), (nonempty_truthy _ Han). cbn [andb JsObject.getOwn].
    rewrite Hin. reflexivity. }
  rewrite (scan_step _ _ post _ _ (exec_plain_link pre t a post Hpre Ht Ha) Hb).
  rewrite (scan_done _ _ (exec_noOpening _ Hpost)). reflexivity.
Qed.

Lemma extractAliases_one_link_witness :
  extractAliases ("Talk about " +:+ "[[" +:+ " Project Plan " +:+ "|" +:+ " The Plan" +:+ "]]"
                  +:+ " today.")
  = Normal [("Project Plan", ["the plan"])].
Proof.
  exact (extractAliases_one_link "Talk about " " Project Plan " " The Plan" " today."
           eq_refl eq_refl eq_refl eq_refl
           ltac:(discriminate) ltac:(discriminate) eq_refl).
Defined.

Lemma matchTarget_plain_no_alias t rest :
  plainTarget t ->
  matchTarget (t +:+ "]]" +:+ rest) = Some ({| m1 := t; m2 := None |}, rest).
Proof.
  unfold plainTarget. intros Ht. induction t as [|c t IH].
  - reflexivity.
  - cbn [forallb] in Ht. apply andb_prop in Ht as [[[Hp Hc]%andb_prop Hlt]%andb_prop Ht].
    apply negb_true_iff in Hp, Hc, Hlt.
    rewrite append_cons. cbn [matchTarget]. unfold afterTarget.
    rewrite (pipe_other _ _ Hp), (closing_other _ _ Hc). cbn [mbind option_bind].
    rewrite Hlt, (IH Ht). reflexivity.
Qed.

(** X6.  A link without alias, [[[t]]], leaves no entry: a text that holds
    nothing else that opens a link yields the empty map. *)
Theorem extractAliases_link_without_alias pre t post :
  noOpening pre -> noOpening post -> plainTarget t ->
  extractAliases (pre +:+ "[[" +:+ t +:+ "]]" +:+ post) = Normal [].
Proof.
  intros Hpre Hpost Ht. rewrite extractAliases_scan.
  assert (Hexec : exec (pre +:+ "[[" +:+ t +:+ "]]" +:+ post)
                  = Some ({| m1 := t; m2 := None |}, post)).
  { rewrite (exec_noOpening_app _ _ Hpre).
    change ("[[" +:+ t +:+ "]]" +:+ post) with (String "[" (String "[" (t +:+ "]]" +:+ post))).
    cbn [exec]. unfold matchAt.
    change (opening (String "[" (String "[" (t +:+ "]]" +:+ post))))
      with (Some (t +:+ "]]" +:+ post)).
    cbn [mbind option_bind]. rewrite (matchTarget_plain_no_alias t post Ht). reflexivity. }
  rewrite (scan_step _ _ post [] [] Hexec eq_refl).
  rewrite (scan_done _ _ (exec_noOpening _ Hpost)). reflexivity.
Qed.

Lemma extractAliases_link_without_alias_witness :
  extractAliases ("See " +:+ "[[" +:+ "Project Plan" +:+ "]]" +:+ " today.") = Normal [].
Proof.
  exact (extractAliases_link_without_alias "See " "Project Plan" " today."
           eq_refl eq_refl eq_refl).
Defined.

Lemma inherited_nonempty k : JsObject.inherited k = true -> k <> "".
Proof. intros Hk ->. discriminate Hk. Qed.

(** X7.  A link with an alias whose trimmed target names a property that every
    object inherits ([constructor], [toString], ...) makes [extractAliases]
    throw a [TypeError] when it is the first link of the text, whatever
    follows it. *)
Theorem extractAliases_inherited_target pre t a post :
  noOpening pre -> plainTarget t -> plainAlias a ->
  trim a <> "" -> JsObject.inherited (trim t) = true ->
  extractAliases (pre +:+ "[[" +:+ t +:+ "|" +:+ a +:+ "]]" +:+ post) = Throw TypeError.
Proof.
  intros Hpre Ht Ha Han Hin. rewrite extractAliases_scan.
  rewrite scan_eq, (exec_plain_link pre t a post Hpre Ht Ha).
  unfold loopBody. cbn [m1 m2 fmap option_fmap option_map].
  rewrite (nonempty_truthy _ (inherited_nonempty _ Hin)), (nonempty_truthy _ Han).
  cbn [andb JsObject.getOwn]. rewrite Hin. reflexivity.
Qed.

Lemma extractAliases_inherited_target_witness :
  extractAliases ("See " +:+ "[[" +:+ "constructor" +:+ "|" +:+ "maker" +:+ "]]"
                  +:+ " and [[Plan|p]].")
  = Throw TypeError.
Proof.
  exact (extractAliases_inherited_target "See " "constructor" "maker" " and [[Plan|p]]."
           eq_refl eq_refl eq_refl ltac:(discriminate) eq_refl).
Defined.

(** A text without two opening brackets in a row holds no match. *)
Lemma exec_noLinkOpening s : noLinkOpening s -> exec s = None.
Proof.
  unfold noLinkOpening. induction s as [|c s IH]; [reflexivity|].
  cbn [hasLinkOpening exec]. unfold matchAt.
  destruct (opening (String c s)); [discriminate|]. exact IH.
Qed.

Lemma extractAliases_noLinkOpening content :
  noLinkOpening content -> extractAliases content = Normal [].
Proof.
  intros Hc. rewrite extractAliases_scan, (scan_done _ _ (exec_noLinkOpening _ Hc)).
  reflexivity.
Qed.

(** A text with no opening bracket yields the empty map. *)
Lemma extractAliases_noOpening content :
  noOpening content -> extractAliases content = Normal [].
Proof.
  intros Hc. rewrite extractAliases_scan, (scan_done _ _ (exec_noOpening _ Hc)). reflexivity.
Qed.

End ExtractorMore.

(** ** More on the document pipeline *)

Module PipelineMore.
Import JsString JsArray AliasRegex Host Merger Extractor Pipeline Notions.
Import JsStringFacts JsArrayFacts MergerFacts MergerMore ExtractorFacts ExtractorMore.
Import PipelineFacts.

Lemma sameData_refl st : sameData st st.
Proof. split; reflexivity. Qed.

Lemma sameData_emit e st st' : sameData st st' -> sameData (emit e st) st'.
Proof. intros [Hf Hs]. split; [exact Hf|exact Hs]. Qed.

Lemma sameData_emit_r e st st' : sameData st st' -> sameData st (emit e st').
Proof. intros [Hf Hs]. split; [exact Hf|exact Hs]. Qed.

(** The update of a note depends on the data of the store only, not on
    its trace. *)
Lemma updateFrontmatter_sameData env file aliases st st' :
  sameData st st' ->
  sameData (updateFrontmatter env file aliases st).1 (updateFrontmatter env file aliases st').1
  /\ (updateFrontmatter env file aliases st).2 = (updateFrontmatter env file aliases st').2.
Proof.
  intros [Hf Hs]. unfold updateFrontmatter, tryCatch, processFrontMatter.
  destruct (unwritable env file).
  - run_steps. split; [split; assumption|reflexivity].
  - unfold frontmatterOf. cbn [emit frontmatters]. rewrite <- Hf.
    destruct (callback aliases (default ∅ (frontmatters st !! file))) as [fm|e].
    + run_steps. split; [|reflexivity]. split; cbn; [rewrite Hf; reflexivity|exact Hs].
    + run_steps. split; [split; assumption|reflexivity].
Qed.

Lemma updateFrontmatter_frontmatters env file aliases st st' :
  frontmatters st = frontmatters st' ->
  frontmatters (updateFrontmatter env file aliases st).1
  = frontmatters (updateFrontmatter env file aliases st').1
  /\ (updateFrontmatter env file aliases st).2 = (updateFrontmatter env file aliases st').2.
Proof.
  intros Hf. unfold updateFrontmatter, tryCatch, processFrontMatter.
  destruct (unwritable env file).
  - run_steps. split; [exact Hf|reflexivity].
  - unfold frontmatterOf. cbn [emit frontmatters]. rewrite <- Hf.
    destruct (callback aliases (default ∅ (frontmatters st !! file))) as [fm|e].
    + run_steps. split; [rewrite Hf; reflexivity|reflexivity].
    + run_steps. split; [exact Hf|reflexivity].
Qed.

Lemma forEntries_sameData env file entries : forall count st st',
  sameData st st' ->
  sameData (forEntries env file entries count st).1 (forEntries env file entries count st').1
  /\ (forEntries env file entries count st).2 = (forEntries env file entries count st').2.
Proof.
  induction entries as [|[target aliases] rest IH]; intros count st st' Hsame.
  - split; [exact Hsame|reflexivity].
  - cbn [forEntries]. destruct (getFirstLinkpathDest env target _) as [targetFile|].
    + destruct (String.eqb _ "md").
      * unfold mbind, Run_bind.
        destruct (updateFrontmatter_sameData env targetFile aliases st st' Hsame) as [Hs Hr].
        destruct (updateFrontmatter env targetFile aliases st) as [st1 r1],
                 (updateFrontmatter env targetFile aliases st') as [st1' r1'].
        cbn [fst snd] in Hs, Hr. subst r1'. destruct r1 as [[]|e]; [apply IH, Hs|].
        split; [exact Hs|reflexivity].
      * unfold mbind, Run_bind, effect. apply IH, sameData_emit, sameData_emit_r, Hsame.
    + unfold mbind, Run_bind, effect. apply IH, sameData_emit, sameData_emit_r, Hsame.
Qed.

Lemma forEntries_skips_from env file entries : forall count st st',
  sameData st st' ->
  sameData (forEntries env file entries count st).1
           (forEntries env file (filter (fun e => resolves env file e = true) entries) count st').1
  /\ (forEntries env file entries count st).2
     = (forEntries env file (filter (fun e => resolves env file e = true) entries) count st').2.
Proof.
  induction entries as [|[target aliases] rest IH]; intros count st st' Hsame.
  - split; [exact Hsame|reflexivity].
  - destruct (resolves env file (target, aliases)) eqn:Hres.
    + rewrite filter_cons_True by exact Hres. unfold resolves in Hres. cbn [fst] in Hres.
      cbn [forEntries]. destruct (getFirstLinkpathDest env target _) as [targetFile|]; [|done].
      rewrite Hres. unfold mbind, Run_bind.
      destruct (updateFrontmatter_sameData env targetFile aliases st st' Hsame) as [Hs Hr].
      destruct (updateFrontmatter env targetFile aliases st) as [st1 r1],
               (updateFrontmatter env targetFile aliases st') as [st1' r1'].
      cbn [fst snd] in Hs, Hr. subst r1'. destruct r1 as [[]|e]; [apply IH, Hs|].
      split; [exact Hs|reflexivity].
    + rewrite filter_cons_False by (rewrite Hres; discriminate).
      unfold resolves in Hres. cbn [fst] in Hres. cbn [forEntries].
      destruct (getFirstLinkpathDest env target _) as [targetFile|].
      * rewrite Hres. unfold mbind, Run_bind, effect. apply IH, sameData_emit, Hsame.
      * unfold mbind, Run_bind, effect. apply IH, sameData_emit, Hsame.
Qed.

(** X8.  A target that does not resolve to a note is skipped and the loop goes
    on: the frontmatters, the saved settings, the count of updated notes and
    the error, if any, are those of the loop over the targets that
    resolve. *)
Theorem forEntries_skips env file entries count st :
  sameData (forEntries env file entries count st).1
           (forEntries env file (filter (fun e => resolves env file e = true) entries) count st).1
  /\ (forEntries env file entries count st).2
     = (forEntries env file (filter (fun e => resolves env file e = true) entries) count st).2.
Proof. apply forEntries_skips_from, sameData_refl. Qed.

Lemma mapM_lowerElement_lowerCased l r :
  mapM lowerElement l = Normal r -> Forall lowerCased r.
Proof.
  intros Hr. destruct (mapM_lowerElement_Normal _ _ Hr) as [ss ->].
  rewrite mapM_lowerElement in Hr. injection Hr as <-.
  apply Forall_forall. intros x Hx. exact (lowerCased_fmap _ _ Hx).
Qed.

Lemma existingAliases_lowerCased (fm : gmap string Value) existing :
  existingAliases fm = Normal existing -> Forall lowerCased existing.
Proof.
  unfold existingAliases. destruct (fm !! "aliases") as [v|]; [|intros [= <-]; constructor].
  destruct (truthy v); [|intros [= <-]; constructor].
  destruct v; try discriminate. apply mapM_lowerElement_lowerCased.
Qed.

Lemma combine_lowerCased l1 l2 :
  Forall lowerCased l1 -> Forall lowerCased l2 -> Forall lowerCased (combine l1 l2).
Proof.
  intros H1 H2. apply Forall_forall. intros x [Hx|Hx]%combine_elem.
  - exact (proj1 (Forall_forall _ _) H1 x Hx).
  - exact (proj1 (Forall_forall _ _) H2 x Hx).
Qed.

(** What a successful update leaves in the store. *)
Lemma updateFrontmatter_Normal env file aliases st st1 :
  updateFrontmatter env file aliases st = (st1, Normal ()) ->
  exists existing,
    existingAliases (frontmatterOf file st) = Normal existing
    /\ frontmatters st1
       = <[file := <["aliases" := VArray (VString <$> combine existing aliases)]>
                     (frontmatterOf file st)]> (frontmatters st).
Proof.
  unfold updateFrontmatter, tryCatch, processFrontMatter.
  destruct (unwritable env file); [run_steps; discriminate|].
  change (frontmatterOf file (emit (ProcessFrontMatter file) st)) with (frontmatterOf file st).
  unfold callback.
  destruct (existingAliases (frontmatterOf file st)) as [existing|e]; [|run_steps; discriminate].
  cbn. intros [= <-]. exists existing. split; reflexivity.
Qed.

(** After a successful update the note records the aliases it was given. *)
Lemma updateFrontmatter_recorded env file aliases st st1 :
  Forall lowerCased aliases ->
  updateFrontmatter env file aliases st = (st1, Normal ()) ->
  recorded (frontmatters st1) file aliases.
Proof.
  intros Hlow Hup. apply updateFrontmatter_Normal in Hup as (existing & Hex & ->).
  eexists _, (combine existing aliases). split; [apply lookup_insert_eq|].
  split; [apply lookup_insert_eq|]. split; [apply combine_strict|].
  split; [apply combine_lowerCased; [exact (existingAliases_lowerCased _ _ Hex)|exact Hlow]|].
  intros x Hx. apply combine_elem. right. exact Hx.
Qed.

(** A note that records the aliases it is given is left as it is. *)
Lemma updateFrontmatter_absorbed env file aliases st :
  recorded (frontmatters st) file aliases -> unwritable env file = false ->
  frontmatters (updateFrontmatter env file aliases st).1 = frontmatters st
  /\ (updateFrontmatter env file aliases st).2 = Normal ().
Proof.
  intros (fm & l & Hfm & Hal & Hs & Hlow & Hsub) Hw.
  unfold updateFrontmatter, tryCatch, processFrontMatter. rewrite Hw.
  change (frontmatterOf file (emit (ProcessFrontMatter file) st)) with (frontmatterOf file st).
  unfold frontmatterOf. rewrite Hfm. cbn [default from_option]. change (id fm) with fm.
  rewrite (callback_merge aliases fm l Hal), (merge_absorb l aliases Hs Hlow Hsub).
  cbn [fst snd setFrontmatter emit frontmatters].
  rewrite (insert_id fm "aliases" _ Hal), (insert_id (frontmatters st) file fm Hfm).
  split; reflexivity.
Qed.

(** What a note records is still recorded after any update. *)
Lemma updateFrontmatter_keeps_recorded env file' aliases' st f aliases :
  Forall lowerCased aliases' ->
  recorded (frontmatters st) f aliases ->
  recorded (frontmatters (updateFrontmatter env file' aliases' st).1) f aliases.
Proof.
  intros Hlow' Hrec.
  destruct (updateFrontmatter env file' aliases' st) as [st1 [[]|e]] eqn:Hup; cbn [fst].
  - pose proof Hup as (existing & Hex & ->)%updateFrontmatter_Normal.
    destruct (decide (f = file')) as [->|Hne].
    + destruct Hrec as (fm & l & Hfm & Hal & Hs & Hl & Hsub).
      unfold frontmatterOf in Hex |- *. rewrite Hfm in Hex |- *.
      cbn [default from_option] in Hex |- *. change (id fm) with fm in Hex |- *.
      assert (Hexl : existing = l).
      { unfold existingAliases in Hex. rewrite Hal in Hex. cbn [truthy] in Hex.
        rewrite mapM_lowerElement in Hex. injection Hex as <-.
        apply list_eq_Forall2, Forall2_fmap_l, Forall_Forall2_diag.
        exact Hl. }
      subst existing. eexists _, (combine l aliases').
      split; [apply lookup_insert_eq|]. split; [apply lookup_insert_eq|].
      split; [apply combine_strict|]. split; [apply combine_lowerCased; assumption|].
      intros x Hx. apply combine_elem. left. apply Hsub, Hx.
    + destruct Hrec as (fm & l & Hfm & Hrest). exists fm, l.
      split; [rewrite lookup_insert_ne by congruence; exact Hfm|exact Hrest].
  - pose proof (updateFrontmatter_Throw env file' aliases' st e) as Hst.
    rewrite Hup in Hst. cbn [fst snd] in Hst. rewrite (Hst eq_refl). exact Hrec.
Qed.

Lemma forEntries_keeps_recorded env file entries f aliases : forall count st,
  Forall (fun e => Forall lowerCased e.2) entries ->
  recorded (frontmatters st) f aliases ->
  recorded (frontmatters (forEntries env file entries count st).1) f aliases.
Proof.
  induction entries as [|[target aliases'] rest IH]; intros count st Hlow Hrec; [exact Hrec|].
  apply Forall_cons in Hlow as [Hlow' Hlow]. cbn [snd] in Hlow'. cbn [forEntries].
  destruct (getFirstLinkpathDest env target _) as [targetFile|].
  - destruct (String.eqb _ "md").
    + unfold mbind, Run_bind.
      pose proof (updateFrontmatter_keeps_recorded env targetFile aliases' st f aliases
                    Hlow' Hrec) as Hrec'.
      destruct (updateFrontmatter env targetFile aliases' st) as [st1 [[]|e]];
        cbn [fst] in Hrec' |- *; [apply IH; assumption|exact Hrec'].
    + unfold mbind, Run_bind, effect. apply IH; assumption.
  - unfold mbind, Run_bind, effect. apply IH; assumption.
Qed.

(** The loop run again on the frontmatters that it has left changes none
    of them. *)
Lemma forEntries_again env file entries : forall count st count' st',
  Forall (fun e => Forall lowerCased e.2) entries ->
  frontmatters st' = frontmatters (forEntries env file entries count st).1 ->
  frontmatters (forEntries env file entries count' st').1 = frontmatters st'.
Proof.
  induction entries as [|[target aliases] rest IH]; intros count st count' st' Hlow Hst';
    [reflexivity|].
  apply Forall_cons in Hlow as [Hlow1 Hlow]. cbn [snd] in Hlow1.
  cbn [forEntries] in Hst' |- *.
  destruct (getFirstLinkpathDest env target _) as [targetFile|].
  - destruct (String.eqb _ "md").
    + unfold mbind, Run_bind in Hst' |- *.
      destruct (updateFrontmatter env targetFile aliases st) as [st1 [[]|e]] eqn:Hup.
      * assert (Hrec : recorded (frontmatters st') targetFile aliases).
        { rewrite Hst'. apply forEntries_keeps_recorded; [exact Hlow|].
          exact (updateFrontmatter_recorded _ _ _ _ _ Hlow1 Hup). }
        assert (Hw : unwritable env targetFile = false).
        { unfold updateFrontmatter, tryCatch, processFrontMatter in Hup.
          destruct (unwritable env targetFile); [run_steps; discriminate|reflexivity]. }
        destruct (updateFrontmatter_absorbed env targetFile aliases st' Hrec Hw) as [Hf Hr].
        destruct (updateFrontmatter env targetFile aliases st') as [st1' r1'].
        cbn [fst snd] in Hf, Hr. subst r1'.
        rewrite <- Hf. apply (IH (S count) st1); [exact Hlow|]. rewrite Hf. exact Hst'.
      * cbn [fst] in Hst'.
        pose proof (updateFrontmatter_Throw env targetFile aliases st e) as Hth.
        rewrite Hup in Hth. cbn [fst snd] in Hth. specialize (Hth eq_refl). subst st1.
        cbn [frontmatters] in Hst'.
        assert (Hthrow : (updateFrontmatter env targetFile aliases st').2 = Throw e).
        { rewrite (proj2 (updateFrontmatter_frontmatters env targetFile aliases st' st Hst')).
          rewrite Hup. reflexivity. }
        pose proof (updateFrontmatter_Throw env targetFile aliases st' e Hthrow) as Hst1'.
        destruct (updateFrontmatter env targetFile aliases st') as [st1' r1'].
        cbn [fst snd] in Hthrow, Hst1'. subst r1' st1'. reflexivity.
    + unfold mbind, Run_bind, effect in Hst' |- *. cbn [fst].
      change (frontmatters st') with (frontmatters (emit (ConsoleLogSkipped target) st')).
      apply (IH count (emit (ConsoleLogSkipped target) st)); assumption.
  - unfold mbind, Run_bind, effect in Hst' |- *. cbn [fst].
    change (frontmatters st') with (frontmatters (emit (ConsoleLogSkipped target) st')).
    apply (IH count (emit (ConsoleLogSkipped target) st)); assumption.
Qed.

Lemma sameData_sym st st' : sameData st st' -> sameData st' st.
Proof. intros [Hf Hs]. split; symmetry; assumption. Qed.

Lemma sameData_trans st1 st2 st3 : sameData st1 st2 -> sameData st2 st3 -> sameData st1 st3.
Proof. intros [Hf Hs] [Hf' Hs']. split; [rewrite Hf|rewrite Hs]; assumption. Qed.

Lemma insertIndex_elem {A} n (e : string * A) l x :
  x ∈ JsObject.insertIndex n e l -> x = (n, e) \/ x ∈ l.
Proof.
  induction l as [|[n' e'] l IH]; cbn.
  - intros ->%list_elem_of_singleton. left. reflexivity.
  - destruct (n <=? n')%N; rewrite !elem_of_cons.
    + intros [->|Hx]; [left; reflexivity|right; exact Hx].
    + intros [->|Hx]; [right; left; reflexivity|].
      destruct (IH Hx) as [->|Hx']; [left; reflexivity|right; right; exact Hx'].
Qed.

Lemma indexEntries_elem {A} (o : JsObject.t A) x :
  x ∈ JsObject.indexEntries o -> x.2 ∈ o.
Proof.
  induction o as [|[k v] o IH]; cbn; [intros Hx; apply elem_of_nil in Hx; done|].
  destruct (JsObject.arrayIndex k) as [n|].
  - intros [->|Hx]%insertIndex_elem; [apply elem_of_cons; left; reflexivity|].
    apply elem_of_cons. right. exact (IH Hx).
  - intros Hx. apply elem_of_cons. right. exact (IH Hx).
Qed.

(** [Object.entries] yields own properties only. *)
Lemma entries_elem {A} (o : JsObject.t A) e : e ∈ JsObject.entries o -> e ∈ o.
Proof.
  unfold JsObject.entries. rewrite elem_of_app. intros [Hx|Hx].
  - apply list_elem_of_fmap in Hx as (x & -> & Hx). exact (indexEntries_elem _ _ Hx).
  - apply list_elem_of_filter in Hx as [_ Hx]. exact Hx.
Qed.

Lemma noticeCount_app l1 l2 : noticeCount (l1 ++ l2) = noticeCount l1 + noticeCount l2.
Proof. unfold noticeCount. rewrite List.filter_app, length_app. reflexivity. Qed.

Lemma quiet_ret {A} (a : A) : quiet (mret a).
Proof. intros st. exists []. split; [symmetry; apply app_nil_r|reflexivity]. Qed.

Lemma quiet_throw {A} e : quiet (@throw A e).
Proof. intros st. exists []. split; [symmetry; apply app_nil_r|reflexivity]. Qed.

Lemma quiet_effect e : isNotice e = false -> quiet (effect e).
Proof.
  intros He st. exists [e]. split; [reflexivity|].
  unfold noticeCount. cbn. rewrite He. reflexivity.
Qed.

Lemma quiet_bind {A B} (m : Run A) (k : A -> Run B) :
  quiet m -> (forall a, quiet (k a)) -> quiet (m ≫= k).
Proof.
  intros Hm Hk st. destruct (Hm st) as (l & Hl & Hn). unfold mbind, Run_bind.
  destruct (m st) as [st' [a|e]]; cbn [fst] in Hl.
  - destruct (Hk a st') as (l' & Hl' & Hn'). exists (l ++ l'). split.
    + rewrite Hl', Hl, app_assoc. reflexivity.
    + rewrite noticeCount_app, Hn, Hn'. reflexivity.
  - exists l. split; assumption.
Qed.

Lemma quiet_updateFrontmatter env file aliases : quiet (updateFrontmatter env file aliases).
Proof.
  intros st. unfold updateFrontmatter, tryCatch, processFrontMatter.
  destruct (unwritable env file).
  - run_steps. eexists [_; _]. split; [rewrite <- app_assoc; reflexivity|reflexivity].
  - destruct (callback aliases _) as [fm|e]; run_steps.
    + eexists [_]. split; reflexivity.
    + eexists [_; _]. split; [rewrite <- app_assoc; reflexivity|reflexivity].
Qed.

Lemma quiet_forEntries env file entries : forall count, quiet (forEntries env file entries count).
Proof.
  induction entries as [|[target aliases] rest IH]; intros count; cbn [forEntries].
  - apply quiet_ret.
  - destruct (getFirstLinkpathDest env target _) as [targetFile|].
    + destruct (String.eqb _ "md").
      * apply quiet_bind; [apply quiet_updateFrontmatter|]. intros _. apply IH.
      * apply quiet_bind; [apply quiet_effect; reflexivity|]. intros _. apply IH.
    + apply quiet_bind; [apply quiet_effect; reflexivity|]. intros _. apply IH.
Qed.

(** The loop leaves alone the fields other than [aliases], the notes that
    no target of its entries resolves to, and the saved settings. *)
Lemma forEntries_frame env file entries : forall count st,
  (forall f key, key <> "aliases" ->
     frontmatterOf f (forEntries env file entries count st).1 !! key
     = frontmatterOf f st !! key)
  /\ (forall f,
        (forall target aliases, (target, aliases) ∈ entries ->
           getFirstLinkpathDest env target (path (files env file)) <> Some f) ->
        frontmatters (forEntries env file entries count st).1 !! f = frontmatters st !! f)
  /\ savedData (forEntries env file entries count st).1 = savedData st.
Proof.
  induction entries as [|[target aliases] rest IH]; intros count st; [done|].
  assert (Hrest : forall f,
            (forall t a, (t, a) ∈ (target, aliases) :: rest ->
               getFirstLinkpathDest env t (path (files env file)) <> Some f) ->
            forall t a, (t, a) ∈ rest ->
               getFirstLinkpathDest env t (path (files env file)) <> Some f).
  { intros f Hf t a Hin. apply (Hf t a). apply elem_of_cons. right. exact Hin. }
  assert (Hhead : forall f,
            (forall t a, (t, a) ∈ (target, aliases) :: rest ->
               getFirstLinkpathDest env t (path (files env file)) <> Some f) ->
            getFirstLinkpathDest env target (path (files env file)) <> Some f).
  { intros f Hf. apply (Hf target aliases). apply elem_of_cons. left. reflexivity. }
  cbn [forEntries].
  destruct (getFirstLinkpathDest env target (path (files env file))) as [targetFile|] eqn:Hdest.
  - destruct (String.eqb _ "md").
    + unfold mbind, Run_bind.
      destruct (updateFrontmatter env targetFile aliases st) as [st1 [[]|e]] eqn:Hup.
      * pose proof Hup as (existing & Hex & Hfm)%updateFrontmatter_Normal.
        assert (Hsd : savedData st1 = savedData st).
        { unfold updateFrontmatter, tryCatch, processFrontMatter in Hup.
          destruct (unwritable env targetFile); [revert Hup; run_steps; discriminate|].
          destruct (callback aliases _); revert Hup; run_steps; [|discriminate].
          intros [= <-]. reflexivity. }
        destruct (IH (S count) st1) as (Hkey & Hother & Hsaved).
        split; [|split].
        -- intros f key Hne. rewrite (Hkey f key Hne). unfold frontmatterOf. rewrite Hfm.
           destruct (decide (f = targetFile)) as [->|Hf].
           ++ rewrite lookup_insert_eq. cbn [default from_option id].
              rewrite lookup_insert_ne by congruence. reflexivity.
           ++ rewrite lookup_insert_ne by congruence. reflexivity.
        -- intros f Hf. rewrite (Hother f (Hrest f Hf)), Hfm.
           apply lookup_insert_ne. intros ->. exact (Hhead _ Hf eq_refl).
        -- rewrite Hsaved. exact Hsd.
      * pose proof (updateFrontmatter_Throw env targetFile aliases st e) as Hth.
        rewrite Hup in Hth. cbn [fst snd] in Hth |- *. rewrite (Hth eq_refl). done.
    + unfold mbind, Run_bind, effect.
      destruct (IH count (emit (ConsoleLogSkipped target) st)) as (Hkey & Hother & Hsaved).
      split; [exact Hkey|]. split; [|exact Hsaved].
      intros f Hf. exact (Hother f (Hrest f Hf)).
  - unfold mbind, Run_bind, effect.
    destruct (IH count (emit (ConsoleLogSkipped target) st)) as (Hkey & Hother & Hsaved).
    split; [exact Hkey|]. split; [|exact Hsaved].
    intros f Hf. exact (Hother f (Hrest f Hf)).
Qed.

Lemma insertIndex_elem_rev {A} n (e : string * A) l x :
  x = (n, e) \/ x ∈ l -> x ∈ JsObject.insertIndex n e l.
Proof.
  induction l as [|[n' e'] l IH]; cbn.
  - intros [->|Hx]; [apply elem_of_cons; left; reflexivity|].
    apply elem_of_nil in Hx. done.
  - destruct (n <=? n')%N; rewrite !elem_of_cons.
    + intros [->|[->|Hx]]; [left; reflexivity|right; left; reflexivity|right; right; exact Hx].
    + intros [->|[->|Hx]]; [right; apply IH; left; reflexivity|left; reflexivity|].
      right. apply IH. right. exact Hx.
Qed.

Lemma indexEntries_elem_rev {A} (o : JsObject.t A) k v n :
  (k, v) ∈ o -> JsObject.arrayIndex k = Some n -> (n, (k, v)) ∈ JsObject.indexEntries o.
Proof.
  induction o as [|[k' v'] o IH]; [intros Hx; apply elem_of_nil in Hx; done|].
  intros [[= <- <-]|Hx]%elem_of_cons Hn; cbn [JsObject.indexEntries].
  - rewrite Hn. apply insertIndex_elem_rev. left. reflexivity.
  - destruct (JsObject.arrayIndex k') as [n'|]; [|exact (IH Hx Hn)].
    apply insertIndex_elem_rev. right. exact (IH Hx Hn).
Qed.

(** [Object.entries] yields every own property. *)
Lemma entries_elem_rev {A} (o : JsObject.t A) e : e ∈ o -> e ∈ JsObject.entries o.
Proof.
  intros He. destruct e as [k v]. unfold JsObject.entries. apply elem_of_app.
  destruct (JsObject.arrayIndex k) as [n|] eqn:Hn.
  - left. apply list_elem_of_fmap. exists (n, (k, v)).
    split; [reflexivity|exact (indexEntries_elem_rev _ _ _ _ He Hn)].
  - right. apply list_elem_of_filter. split; [|exact He].
    unfold JsObject.isIndex. cbn [fst]. rewrite Hn. reflexivity.
Qed.

Lemma existingAliases_readable fm :
  readableAliases fm -> exists l, existingAliases fm = Normal l.
Proof.
  unfold readableAliases, existingAliases.
  destruct (fm !! "aliases") as [v|]; [|eauto].
  intros [Hf|[l ->]]; [rewrite Hf; eauto|].
  destruct (truthy _); [rewrite mapM_lowerElement|]; eauto.
Qed.

(** In a healthy vault an update succeeds and leaves the vault healthy. *)
Lemma updateFrontmatter_healthy env f aliases st :
  healthy env st ->
  exists st1, updateFrontmatter env f aliases st = (st1, Normal ()) /\ healthy env st1.
Proof.
  intros [Hw Hr]. unfold updateFrontmatter, tryCatch, processFrontMatter. rewrite Hw.
  change (frontmatterOf f (emit (ProcessFrontMatter f) st)) with (frontmatterOf f st).
  unfold callback. destruct (existingAliases_readable _ (Hr f)) as [l ->].
  cbn. eexists. split; [reflexivity|]. split; [exact Hw|].
  intros f'. unfold frontmatterOf, setFrontmatter, emit. cbn [frontmatters].
  destruct (decide (f' = f)) as [->|Hne].
  - rewrite lookup_insert_eq. cbn [default from_option id]. unfold readableAliases.
    rewrite lookup_insert_eq. right. eauto.
  - rewrite lookup_insert_ne by congruence. apply Hr.
Qed.

(** In a healthy vault the loop ends without error, and every target
    that resolves to a note has its aliases recorded there. *)
Lemma forEntries_healthy env file entries : forall count st,
  healthy env st -> Forall (fun e => Forall lowerCased e.2) entries ->
  exists st' n,
    forEntries env file entries count st = (st', Normal n)
    /\ healthy env st'
    /\ forall target aliases f,
         (target, aliases) ∈ entries ->
         getFirstLinkpathDest env target (path (files env file)) = Some f ->
         extension (files env f) = "md" ->
         recorded (frontmatters st') f aliases.
Proof.
  induction entries as [|[target aliases] rest IH]; intros count st Hh Hlow.
  - exists st, count. split; [reflexivity|]. split; [exact Hh|].
    intros t a f Hin. apply elem_of_nil in Hin. done.
  - apply Forall_cons in Hlow as [Hlow1 Hlow]. cbn [snd] in Hlow1. cbn [forEntries].
    destruct (getFirstLinkpathDest env target (path (files env file))) as [targetFile|] eqn:Hdest.
    + destruct (String.eqb (extension (files env targetFile)) "md") eqn:Hext.
      * destruct (updateFrontmatter_healthy env targetFile aliases st Hh) as (st1 & Hup & Hh1).
        unfold mbind, Run_bind. rewrite Hup.
        destruct (IH (S count) st1 Hh1 Hlow) as (st' & n & Hfor & Hh' & Hrec).
        exists st', n. split; [exact Hfor|]. split; [exact Hh'|].
        intros t a f [[= -> ->]|Hin]%elem_of_cons Hd Hmd; [|exact (Hrec t a f Hin Hd Hmd)].
        rewrite Hdest in Hd. injection Hd as <-.
        replace st' with (forEntries env file rest (S count) st1).1 by (rewrite Hfor; reflexivity).
        apply forEntries_keeps_recorded; [exact Hlow|].
        exact (updateFrontmatter_recorded env targetFile aliases st st1 Hlow1 Hup).
      * unfold mbind, Run_bind, effect.
        destruct (IH count (emit (ConsoleLogSkipped target) st) Hh Hlow)
          as (st' & n & Hfor & Hh' & Hrec).
        exists st', n. split; [exact Hfor|]. split; [exact Hh'|].
        intros t a f [[= -> ->]|Hin]%elem_of_cons Hd Hmd; [|exact (Hrec t a f Hin Hd Hmd)].
        rewrite Hdest in Hd. injection Hd as <-. rewrite Hmd in Hext. discriminate Hext.
    + unfold mbind, Run_bind, effect.
      destruct (IH count (emit (ConsoleLogSkipped target) st) Hh Hlow)
        as (st' & n & Hfor & Hh' & Hrec).
      exists st', n. split; [exact Hfor|]. split; [exact Hh'|].
      intros t a f [[= -> ->]|Hin]%elem_of_cons Hd Hmd; [|exact (Hrec t a f Hin Hd Hmd)].
      rewrite Hdest in Hd. discriminate Hd.
Qed.

Lemma report_sameData env file e st st' :
  sameData st st' -> sameData (report env file e st).1 st'.
Proof. intros Hs. unfold report. run_steps. exact Hs. Qed.

Section WithEngine.
Context `{RegExpEngine}.

(** The data that [processFile] leaves are those that its loop leaves. *)
Lemma processFile_loop settings env file st :
  sameData (processFile settings env file st)
           (forEntries env file (linkedEntries settings env file) 0 st).1.
Proof.
  unfold linkedEntries.
  destruct (RegExp_new ("^" +:+ fileRegex settings +:+ "$")) as [regex|e] eqn:Hnew.
  - destruct (regex (basename (files env file))) eqn:Hm.
    + rewrite (processFile_match _ _ _ _ _ Hnew Hm).
      unfold tryCatch, afterGate. unfold mbind at 1. unfold Run_bind at 1. unfold vaultRead.
      destruct (read env file) as [content|e];
        [|apply report_sameData, sameData_emit, sameData_refl].
      unfold mbind at 1. unfold Run_bind at 1. unfold lift.
      destruct (extractAliases content) as [aliasMap|e];
        [|apply report_sameData, sameData_emit, sameData_refl].
      destruct (forEntries_sameData env file (JsObject.entries aliasMap) 0
                  (emit (VaultRead file) st) st (sameData_emit _ _ _ (sameData_refl st)))
        as [Hsame Hr].
      destruct (0 <? length (JsObject.keys aliasMap))%nat eqn:Hkeys.
      * unfold mbind, Run_bind.
        destruct (forEntries env file (JsObject.entries aliasMap) 0 (emit (VaultRead file) st))
          as [sta [n|e]]; cbn [fst] in Hsame.
        -- destruct (_ && _); exact Hsame.
        -- apply report_sameData. exact Hsame.
      * apply Nat.ltb_ge in Hkeys. unfold JsObject.keys in Hkeys.
        rewrite length_fmap in Hkeys.
        destruct (JsObject.entries aliasMap); [|cbn in Hkeys; lia].
        apply (sameData_emit _ _ _ (sameData_refl st)).
    + rewrite (processFile_no_match _ _ _ _ _ Hnew Hm). apply sameData_refl.
  - rewrite (processFile_invalid _ _ _ _ _ Hnew). apply report_sameData, sameData_refl.
Qed.

Lemma linkedEntries_lowerCased settings env file :
  Forall (fun e => Forall lowerCased e.2) (linkedEntries settings env file).
Proof.
  unfold linkedEntries.
  destruct (RegExp_new _) as [regex|e]; [|constructor].
  destruct (regex _); [|constructor].
  destruct (read env file) as [content|e]; [|constructor].
  destruct (extractAliases content) as [aliasMap|e] eqn:Hex; [|constructor].
  apply Forall_forall. intros [target aliases] He%entries_elem.
  exact (proj1 (extractAliases_good _ _ _ _ Hex He)).
Qed.

(** X9.  Processing a file a second time changes no frontmatter: what the
    first pass has left is what the second pass leaves, whether the first
    pass ended with an error or not. *)
Theorem processFile_twice settings env file st :
  frontmatters (processFile settings env file (processFile settings env file st))
  = frontmatters (processFile settings env file st).
Proof.
  destruct (processFile_loop settings env file st) as [Hf1 _].
  destruct (processFile_loop settings env file (processFile settings env file st)) as [Hf2 _].
  rewrite Hf2. apply (forEntries_again env file _ 0 st 0).
  - apply linkedEntries_lowerCased.
  - exact Hf1.
Qed.

(** The entries of the loop are entries of the map of the content. *)
Lemma linkedEntries_elem settings env file entry :
  entry ∈ linkedEntries settings env file ->
  exists content aliasMap,
    read env file = Normal content /\ extractAliases content = Normal aliasMap
    /\ entry ∈ aliasMap.
Proof.
  unfold linkedEntries.
  destruct (RegExp_new _) as [regex|e]; [|intros Hin; apply elem_of_nil in Hin; done].
  destruct (regex _); [|intros Hin; apply elem_of_nil in Hin; done].
  destruct (read env file) as [content|e]; [|intros Hin; apply elem_of_nil in Hin; done].
  destruct (extractAliases content) as [aliasMap|e] eqn:Hex;
    [|intros Hin; apply elem_of_nil in Hin; done].
  intros Hin. exists content, aliasMap. split; [reflexivity|]. split; [exact Hex|].
  exact (entries_elem _ _ Hin).
Qed.

(** X10.  [processFile] changes nothing but the field [aliases] of notes that
    link targets of the file resolve to: every other field of every
    frontmatter, the whole frontmatter of every note that no link target of
    the content of the file resolves to, and the saved settings are as
    before. *)
Theorem processFile_frame settings env file st :
  (forall f key, key <> "aliases" ->
     frontmatterOf f (processFile settings env file st) !! key = frontmatterOf f st !! key)
  /\ (forall f,
        (forall content aliasMap target aliases,
           read env file = Normal content -> extractAliases content = Normal aliasMap ->
           (target, aliases) ∈ aliasMap ->
           getFirstLinkpathDest env target (path (files env file)) <> Some f) ->
        frontmatters (processFile settings env file st) !! f = frontmatters st !! f)
  /\ savedData (processFile settings env file st) = savedData st.
Proof.
  destruct (processFile_loop settings env file st) as [Hf Hs].
  destruct (forEntries_frame env file (linkedEntries settings env file) 0 st)
    as (Hkey & Hother & Hsaved).
  split; [|split].
  - intros f key Hne. unfold frontmatterOf. rewrite Hf. apply (Hkey f key Hne).
  - intros f Hno. rewrite Hf. apply (Hother f).
    intros target aliases (content & aliasMap & Hread & Hex & Hin)%linkedEntries_elem.
    exact (Hno content aliasMap target aliases Hread Hex Hin).
  - rewrite Hs. exact Hsaved.
Qed.

(** What [processFile] adds to the trace holds at most one notice. *)
Lemma processFile_trace settings env file st :
  exists l, trace (processFile settings env file st) = trace st ++ l /\ noticeCount l <= 1.
Proof.
  assert (Hrep : forall e st0 l0, trace st0 = trace st ++ l0 -> noticeCount l0 = 0 ->
            exists l, trace (report env file e st0).1 = trace st ++ l /\ noticeCount l <= 1).
  { intros e st0 l0 Hl Hn. unfold report. run_steps. eexists (l0 ++ [_; _]). split.
    - rewrite Hl, <- !app_assoc. reflexivity.
    - rewrite noticeCount_app, Hn. cbn. lia. }
  destruct (RegExp_new ("^" +:+ fileRegex settings +:+ "$")) as [regex|e] eqn:Hnew.
  - destruct (regex (basename (files env file))) eqn:Hm.
    + rewrite (processFile_match _ _ _ _ _ Hnew Hm).
      unfold tryCatch, afterGate. unfold mbind at 1. unfold Run_bind at 1. unfold vaultRead.
      assert (Hread : trace (emit (VaultRead file) st) = trace st ++ [VaultRead file])
        by reflexivity.
      destruct (read env file) as [content|e]; [|exact (Hrep e _ _ Hread eq_refl)].
      unfold mbind at 1. unfold Run_bind at 1. unfold lift.
      destruct (extractAliases content) as [aliasMap|e]; [|exact (Hrep e _ _ Hread eq_refl)].
      destruct (0 <? length (JsObject.keys aliasMap))%nat.
      * unfold mbind, Run_bind.
        destruct (quiet_forEntries env file (JsObject.entries aliasMap) 0
                    (emit (VaultRead file) st)) as (l & Hl & Hn).
        destruct (forEntries env file (JsObject.entries aliasMap) 0 (emit (VaultRead file) st))
          as [sta [n|e]]; cbn [fst] in Hl.
        -- destruct (_ && _); run_steps.
           ++ eexists ([VaultRead file] ++ l ++ [_]). split.
              ** rewrite Hl, Hread, <- !app_assoc. reflexivity.
              ** rewrite !noticeCount_app, Hn. cbn. lia.
           ++ exists ([VaultRead file] ++ l). split.
              ** rewrite Hl, Hread, <- !app_assoc. reflexivity.
              ** rewrite !noticeCount_app, Hn. cbn. lia.
        -- apply (Hrep e sta ([VaultRead file] ++ l)).
           ++ rewrite Hl, Hread, <- !app_assoc. reflexivity.
           ++ rewrite noticeCount_app, Hn. reflexivity.
      * run_steps. exists [VaultRead file]. split; [reflexivity|cbn; lia].
    + rewrite (processFile_no_match _ _ _ _ _ Hnew Hm). exists []. split.
      * symmetry. apply app_nil_r.
      * cbn. lia.
  - rewrite (processFile_invalid _ _ _ _ _ Hnew).
    apply (Hrep e st []); [symmetry; apply app_nil_r|reflexivity].
Qed.

(** X11.  One call of [processFile] shows at most one notice, however many
    notes it updates and whether it fails or not; the updates and the
    skipped targets show none. *)
Theorem processFile_one_notice settings env file st :
  noticeCount (added st (processFile settings env file st)) <= 1.
Proof.
  destruct (processFile_trace settings env file st) as (l & Hl & Hn).
  unfold added. rewrite Hl, drop_app_length. exact Hn.
Qed.

(** X12.  A file whose name passes the test and whose content does not
    hold two opening brackets in a row (single brackets, as in a task list
    or an ordinary link, are allowed) is read and nothing else happens: no
    note is looked up or changed, nothing is logged and no notice is
    shown. *)
Theorem processFile_no_links settings env file content st :
  nameMatches settings env file ->
  read env file = Normal content -> noLinkOpening content ->
  processFile settings env file st = emit (VaultRead file) st.
Proof.
  intros (regex & Hnew & Hm) Hread Hc.
  rewrite (processFile_match _ _ _ _ _ Hnew Hm).
  unfold tryCatch, afterGate. unfold mbind at 1. unfold Run_bind at 1. unfold vaultRead.
  rewrite Hread. unfold mbind at 1. unfold Run_bind at 1. unfold lift.
  rewrite (extractAliases_noLinkOpening _ Hc). reflexivity.
Qed.

(** X13.  When the content of a file that passes the test cannot be read, or
    [extractAliases] throws on it, [processFile] reads the file, logs the
    error, shows the error notice, and changes no data: no link target is
    looked up and no note is touched. *)
Theorem processFile_fails_before_loop settings env file e st :
  nameMatches settings env file ->
  read env file = Throw e
  \/ (exists content, read env file = Normal content /\ extractAliases content = Throw e) ->
  added st (processFile settings env file st)
  = [VaultRead file;
     ConsoleErrorProcessing (path (files env file)) e;
     ShowNotice (NoticeProcessError (basename (files env file)) e)]
  /\ sameData (processFile settings env file st) st.
Proof.
  intros (regex & Hnew & Hm) Hfail.
  assert (Heq : processFile settings env file st
                = (report env file e (emit (VaultRead file) st)).1).
  { rewrite (processFile_match _ _ _ _ _ Hnew Hm).
    unfold tryCatch, afterGate. unfold mbind at 1. unfold Run_bind at 1. unfold vaultRead.
    destruct Hfail as [Hread|(content & Hread & Hex)]; rewrite Hread; [reflexivity|].
    unfold mbind at 1. unfold Run_bind at 1. unfold lift. rewrite Hex. reflexivity. }
  rewrite Heq. unfold report, added. run_steps. split; [|split; reflexivity].
  rewrite <- !app_assoc, drop_app_length. reflexivity.
Qed.

(** X14.  In a healthy vault (every frontmatter can be written and has a
    readable field [aliases]), processing a file whose name passes the test
    records, for every link target that resolves to a note, all the aliases
    that [extractAliases] gives it: the field [aliases] of that note is then
    a sorted array of lower-cased strings that holds them.  The vault is
    healthy afterwards. *)
Theorem processFile_records settings env file content aliasMap st :
  nameMatches settings env file ->
  read env file = Normal content ->
  extractAliases content = Normal aliasMap ->
  healthy env st ->
  healthy env (processFile settings env file st)
  /\ forall target aliases f,
       (target, aliases) ∈ aliasMap ->
       getFirstLinkpathDest env target (path (files env file)) = Some f ->
       extension (files env f) = "md" ->
       recorded (frontmatters (processFile settings env file st)) f aliases.
Proof.
  intros (regex & Hnew & Hm) Hread Hex Hh.
  destruct (processFile_loop settings env file st) as [Hf _].
  pose proof (linkedEntries_lowerCased settings env file) as Hlow.
  assert (Hl : linkedEntries settings env file = JsObject.entries aliasMap).
  { unfold linkedEntries. rewrite Hnew, Hm, Hread, Hex. reflexivity. }
  rewrite Hl in Hf, Hlow.
  destruct (forEntries_healthy env file (JsObject.entries aliasMap) 0 st Hh Hlow)
    as (st' & n & Hfor & [Hw Hr] & Hrec).
  rewrite Hfor in Hf. cbn [fst] in Hf. split.
  - split; [exact Hw|]. intros f. unfold frontmatterOf. rewrite Hf. apply Hr.
  - intros target aliases f Hin Hd Hmd. rewrite Hf.
    exact (Hrec target aliases f (entries_elem_rev _ _ Hin) Hd Hmd).
Qed.

End WithEngine.
End PipelineMore.

(** ** More on the settings and the scheduler *)

Module SchedulerMore.
Import Host Pipeline Scheduler Notions.
Import PipelineMore SchedulerFacts.

Lemma clampTimeout_closed t :
  clampTimeout t = (if (t <? 1000)%Z then 1000 else if (5000 <? t)%Z then 5000 else t)%Z.
Proof.
  unfold clampTimeout. cbn [debounceTimeout DEFAULT_SETTINGS].
  destruct (Z.eqb_spec t 0), (Z.ltb_spec t 1000), (Z.ltb_spec 5000 t); lia.
Qed.

(** X15.  A stored timeout is clamped to the range from 1000 to 5000 when the
    settings are loaded: a value below 1000 (0 and negative numbers
    included) becomes 1000, a value above 5000 becomes 5000, a value in
    range is kept; the other stored fields are taken as they are and
    nothing is reported. *)
Theorem loadSettings_clamps e d r b t :
  loadData e = Normal (Some d) ->
  dataFileRegex d = Some r -> dataShowUpdateNotice d = Some b ->
  dataDebounceTimeout d = Some t ->
  loadSettings e
  = ({| fileRegex := r; showUpdateNotice := b;
        debounceTimeout := if (t <? 1000)%Z then 1000 else if (5000 <? t)%Z then 5000 else t |},
     []).
Proof.
  intros Hload Hr Hb Ht. unfold loadSettings. rewrite Hload.
  unfold assignData. rewrite Hr, Hb, Ht. cbn [default from_option id fileRegex
    showUpdateNotice debounceTimeout]. rewrite clampTimeout_closed. reflexivity.
Qed.


(** Settings with a timeout in range that have been saved are loaded
    back as they are. *)
Lemma loadSettings_reopened e st s :
  savedData st = Some s -> timeoutInRange s -> loadSettings (reopened e st) = (s, []).
Proof.
  intros Hsaved Hrange. unfold loadSettings, reopened. cbn [loadData]. rewrite Hsaved.
  destruct s as [r b t]. unfold timeoutInRange in Hrange. cbn in Hrange. cbn.
  rewrite clampTimeout_closed.
  destruct (Z.ltb_spec t 1000); [lia|]. destruct (Z.ltb_spec 5000 t); [lia|]. reflexivity.
Qed.

Lemma fold_emit_savedData l : forall st,
  savedData (fold_left (fun st eff => emit eff st) l st) = savedData st.
Proof. induction l as [|eff l IH]; intros st; [reflexivity|]. cbn [fold_left]. rewrite IH. reflexivity. Qed.

Lemma onload_savedData e st t : savedData (store (onload e st t)) = savedData st.
Proof.
  unfold onload. destruct (loadSettings e) as [s effects]. cbn [store].
  apply fold_emit_savedData.
Qed.

Lemma onload_calls e st t : calls (onload e st t) = [].
Proof. unfold onload. destruct (loadSettings e) as [s effects]. reflexivity. Qed.

Lemma saveSettings_fields sys :
  timers (saveSettings sys) = timers sys /\ calls (saveSettings sys) = calls sys
  /\ now (saveSettings sys) = now sys /\ env (saveSettings sys) = env sys.
Proof. unfold saveSettings. destruct (saveDataRejects (env sys)); repeat split. Qed.

Lemma saveSettings_savedData sys s :
  savedData (store (saveSettings sys)) = Some s ->
  savedData (store sys) = Some s \/ s = settings (plugin sys).
Proof.
  unfold saveSettings. destruct (saveDataRejects (env sys)); cbn.
  - intros Hs. left. exact Hs.
  - intros [= <-]. right. reflexivity.
Qed.

Section WithEngine.
Context `{RegExpEngine}.

Lemma processFile_savedData s e file st : savedData (processFile s e file st) = savedData st.
Proof.
  destruct (processFile_loop s e file st) as [_ Hs]. rewrite Hs.
  apply (forEntries_frame e file (linkedEntries s e file) 0 st).
Qed.

Lemma debouncedFunc_savedData file sys :
  savedData (store (debouncedFunc file sys)) = savedData (store sys).
Proof.
  unfold debouncedFunc. destruct (_ && _); [|reflexivity].
  cbn [store callProcessFile]. apply processFile_savedData.
Qed.

Lemma runDue_savedData target pending : forall sys,
  savedData (store (runDue target pending sys)) = savedData (store sys).
Proof.
  induction pending as [|t rest IH]; intros sys; cbn [runDue]; [reflexivity|].
  destruct (due t <=? target)%Z; [|reflexivity].
  rewrite IH, debouncedFunc_savedData. reflexivity.
Qed.

(** An event that is no file event and no passing of time leaves the
    clock, the timers and the calls as they are. *)
Lemma step_edit_fields ev sys :
  match ev with
  | FileOpen _ | Modify _ | Elapse _ => True
  | _ => timers (step ev sys) = timers sys /\ calls (step ev sys) = calls sys
         /\ now (step ev sys) = now sys
  end.
Proof.
  destruct ev as [file|file|ms|e|value|value|value]; cbn [step]; try exact I.
  - repeat split.
  - unfold onChangeFileRegex. destruct (RegExp_new value); [|repeat split].
    destruct (saveSettings_fields
                (setSettings {| fileRegex := if JsString.truthy value then value
                                             else fileRegex DEFAULT_SETTINGS;
                                showUpdateNotice := showUpdateNotice (settings (plugin sys));
                                debounceTimeout := debounceTimeout (settings (plugin sys)) |}
                   sys)) as (-> & -> & -> & _).
    repeat split.
  - unfold onChangeShowNotice.
    destruct (saveSettings_fields
                (setSettings {| fileRegex := fileRegex (settings (plugin sys));
                                showUpdateNotice := value;
                                debounceTimeout := debounceTimeout (settings (plugin sys)) |}
                   sys)) as (-> & -> & -> & _).
    repeat split.
  - unfold onChangeDebounce. destruct (parseInt value) as [n|]; [|repeat split].
    destruct (_ || _); [repeat split|]. cbn [emitS setStore timers calls now].
    destruct (saveSettings_fields
                (setSettings {| fileRegex := fileRegex (settings (plugin sys));
                                showUpdateNotice := showUpdateNotice (settings (plugin sys));
                                debounceTimeout := n |}
                   sys)) as (-> & -> & -> & _).
    repeat split.
Qed.

(** What every event keeps: the timeout of the settings and of the saved
    settings is in range. *)
Lemma step_ranges ev sys :
  timeoutInRange (settings (plugin sys)) /\ savedInRange (store sys) ->
  timeoutInRange (settings (plugin (step ev sys))) /\ savedInRange (store (step ev sys)).
Proof.
  intros [Hset Hsaved]. unfold savedInRange in *.
  destruct ev as [file|file|ms|e|value|value|value]; cbn [step].
  - unfold onFileOpen. destruct file as [f|]; [|split; assumption].
    destruct (String.eqb _ _); [|split; assumption].
    cbn [callProcessFile plugin store]. rewrite processFile_savedData. split; assumption.
  - split; assumption.
  - unfold elapse. cbn [plugin store setNow]. rewrite runDue_plugin, runDue_savedData.
    split; assumption.
  - split; assumption.
  - unfold onChangeFileRegex. destruct (RegExp_new value); [|split; assumption].
    rewrite saveSettings_plugin. split; [exact Hset|].
    intros s [Hs| ->]%saveSettings_savedData; [exact (Hsaved s Hs)|exact Hset].
  - unfold onChangeShowNotice. rewrite saveSettings_plugin. split; [exact Hset|].
    intros s [Hs| ->]%saveSettings_savedData; [exact (Hsaved s Hs)|exact Hset].
  - unfold onChangeDebounce. destruct (parseInt value) as [n|]; [|split; assumption].
    destruct (Z.ltb_spec n 1000); [split; assumption|].
    destruct (Z.ltb_spec 5000 n); [split; assumption|].
    cbn [orb emitS setStore plugin store emit savedData]. rewrite saveSettings_plugin.
    assert (Hn : timeoutInRange {| fileRegex := fileRegex (settings (plugin sys));
                                   showUpdateNotice := showUpdateNotice (settings (plugin sys));
                                   debounceTimeout := n |})
      by (unfold timeoutInRange; cbn; lia).
    split; [exact Hn|].
    intros s [Hs| ->]%saveSettings_savedData; [exact (Hsaved s Hs)|exact Hn].
Qed.

Lemma run_ranges evs : forall sys,
  timeoutInRange (settings (plugin sys)) /\ savedInRange (store sys) ->
  timeoutInRange (settings (plugin (run evs sys))) /\ savedInRange (store (run evs sys)).
Proof.
  unfold run. induction evs as [|ev evs IH]; intros sys Hinv; [exact Hinv|].
  cbn [fold_left]. apply IH, step_ranges, Hinv.
Qed.

Lemma onload_range e st t : timeoutInRange (settings (plugin (onload e st t))).
Proof. rewrite onload_plugin. apply loadSettings_range. Qed.


(** X18.  When the stored settings have a timeout in range at load, the
    settings that the plugin has saved, at any later moment, are loaded
    back unchanged by the next [loadSettings]: nothing is clamped and
    nothing is reported. *)
Theorem saved_settings_reload e st t evs s :
  savedInRange st ->
  savedData (store (run evs (onload e st t))) = Some s ->
  loadSettings (reopened (env (run evs (onload e st t))) (store (run evs (onload e st t))))
  = (s, []).
Proof.
  intros Hst Hs.
  assert (Hinv : timeoutInRange (settings (plugin (onload e st t)))
                 /\ savedInRange (store (onload e st t))).
  { split; [apply onload_range|]. unfold savedInRange. rewrite onload_savedData. exact Hst. }
  apply (run_ranges evs) in Hinv as [_ Hsaved].
  apply (loadSettings_reopened _ _ s Hs (Hsaved s Hs)).
Qed.

(** X19.  A timeout typed into the settings tab that is accepted and saved does
    not change the wait of the running handler, and it is the wait of the
    handler that the next [onload] builds. *)
Theorem edited_timeout_applies_after_reload value n sys st' t' :
  parseInt value = Some n -> (1000 <= n <= 5000)%Z ->
  saveDataRejects (env sys) = false ->
  let sys' := step (EditDebounce value) sys in
  handlerWait sys' = handlerWait sys
  /\ handlerWait (onload (reopened (env sys') (store sys')) st' t') = n.
Proof.
  intros Hparse Hn Hsave sys'. split; [apply step_plugin_wait|].
  unfold handlerWait. rewrite onload_plugin. cbn [debouncedProcessFile wait].
  assert (Hsaved : savedData (store sys')
                   = Some {| fileRegex := fileRegex (settings (plugin sys));
                             showUpdateNotice := showUpdateNotice (settings (plugin sys));
                             debounceTimeout := n |}).
  { unfold sys'. cbn [step]. unfold onChangeDebounce. rewrite Hparse.
    destruct (Z.ltb_spec n 1000); [lia|]. destruct (Z.ltb_spec 5000 n); [lia|].
    cbn [orb emitS setStore store emit savedData]. unfold saveSettings.
    cbn [setSettings setPlugin env]. rewrite Hsave. reflexivity. }
  rewrite (loadSettings_reopened _ _ _ Hsaved); [reflexivity|].
  unfold timeoutInRange. cbn. exact Hn.
Qed.

(** X20.  The configured pattern stays one that [new RegExp] accepts: when the
    default pattern and the current one compile, so does the pattern after
    any events, whatever is typed into the settings tab. *)
Theorem pattern_stays_valid evs : forall sys,
  patternCompiles DEFAULT_SETTINGS ->
  patternCompiles (settings (plugin sys)) ->
  patternCompiles (settings (plugin (run evs sys))).
Proof.
  unfold run. induction evs as [|ev evs IH]; intros sys Hdef Hinv; [exact Hinv|].
  cbn [fold_left]. apply (IH _ Hdef). clear IH.
  destruct ev as [file|file|ms|e'|value|value|value]; cbn [step].
  - unfold onFileOpen. destruct file as [f|]; [|exact Hinv].
    destruct (String.eqb _ _); exact Hinv.
  - exact Hinv.
  - unfold elapse. cbn [plugin setNow]. rewrite runDue_plugin. exact Hinv.
  - exact Hinv.
  - unfold onChangeFileRegex. destruct (RegExp_new value) as [regex|err] eqn:Hnew; [|exact Hinv].
    rewrite saveSettings_plugin. unfold patternCompiles. cbn.
    destruct (JsString.truthy value); [exists regex; exact Hnew|exact Hdef].
  - unfold onChangeShowNotice. rewrite saveSettings_plugin. exact Hinv.
  - unfold onChangeDebounce. destruct (parseInt value) as [n|]; [|exact Hinv].
    destruct (_ || _); [exact Hinv|].
    cbn [emitS setStore plugin]. rewrite saveSettings_plugin. exact Hinv.
Qed.

Lemma elapse_timers_single ms sys t :
  timers sys = [t] ->
  timers (elapse ms sys) = if (due t <=? now sys + Z.of_N ms)%Z then [] else [t].
Proof.
  intros Ht. unfold elapse. cbn [timers setNow]. rewrite Ht. cbn [runDue].
  destruct (due t <=? now sys + Z.of_N ms)%Z; reflexivity.
Qed.

Lemma elapse_timers_none ms sys : timers sys = [] -> timers (elapse ms sys) = [].
Proof. intros Ht. unfold elapse. cbn [timers setNow]. rewrite Ht. reflexivity. Qed.

Lemma debouncedFunc_calls file sys :
  length (calls (debouncedFunc file sys)) <= S (length (calls sys)).
Proof.
  unfold debouncedFunc. destruct (_ && _); [|lia].
  cbn [calls callProcessFile]. rewrite length_app. cbn. lia.
Qed.

Lemma leadingDigits_suffix ds rest : forall acc,
  allDigits ds -> startsNoDigit rest ->
  leadingDigits acc (ds +:+ rest) = leadingDigits acc ds.
Proof.
  unfold allDigits. induction ds as [|c ds IH]; intros acc Hds Hrest.
  - change ("" +:+ rest) with rest. destruct rest as [|c r]; [reflexivity|].
    cbn in Hrest |- *. rewrite Hrest. reflexivity.
  - change (String c ds +:+ rest) with (String c (ds +:+ rest)).
    cbn [JsString.forallb] in Hds. apply andb_true_iff in Hds as [Hc Hds].
    cbn [leadingDigits]. destruct (JsObject.digit c) as [d|]; [|reflexivity].
    apply IH; assumption.
Qed.

Lemma digit_first c r :
  is_Some (JsObject.digit c) -> parseInt (String c r) = leadingDigits None (String c r).
Proof.
  intros [d Hd]. unfold parseInt.
  destruct c as [[] [] [] [] [] [] [] []]; vm_compute in Hd; try discriminate Hd; reflexivity.
Qed.

(** [parseInt] reads the digits at the start of the text and ignores what
    follows them. *)
Lemma parseInt_suffix ds rest :
  ds <> "" -> allDigits ds -> startsNoDigit rest -> parseInt (ds +:+ rest) = parseInt ds.
Proof.
  intros Hne Hds Hrest. destruct ds as [|c ds]; [done|].
  assert (Hc : is_Some (JsObject.digit c)).
  { unfold allDigits in Hds. cbn [JsString.forallb] in Hds.
    apply andb_true_iff in Hds as [Hc _]. apply bool_decide_eq_true in Hc. exact Hc. }
  change (String c ds +:+ rest) with (String c (ds +:+ rest)).
  rewrite !(digit_first _ _ Hc).
  change (String c (ds +:+ rest)) with (String c ds +:+ rest).
  apply leadingDigits_suffix; assumption.
Qed.

(** X21.  The field of the timeout takes a number followed by any text that
    does not start with a digit ([3000ms], [2500.75]) as the number
    alone. *)
Theorem onChangeDebounce_ignores_suffix ds rest sys :
  ds <> "" -> allDigits ds -> startsNoDigit rest ->
  onChangeDebounce (ds +:+ rest) sys = onChangeDebounce ds sys.
Proof.
  intros Hne Hds Hrest. unfold onChangeDebounce.
  rewrite (parseInt_suffix ds rest Hne Hds Hrest). reflexivity.
Qed.

(** X22.  When [saveData] is rejected, an accepted edit of the timeout still
    changes the settings in memory and still announces the update after
    the failure has been reported; what is saved stays as it was. *)
Theorem rejected_save_keeps_edit value n sys :
  parseInt value = Some n -> (1000 <= n <= 5000)%Z ->
  saveDataRejects (env sys) = true ->
  let sys' := step (EditDebounce value) sys in
  debounceTimeout (settings (plugin sys')) = n
  /\ savedData (store sys') = savedData (store sys)
  /\ added (store sys) (store sys')
     = [ConsoleErrorSaving HostError; ShowNotice NoticeSaveFailed;
        ShowNotice NoticeDebounceUpdated].
Proof.
  intros Hparse Hn Hsave sys'. unfold sys'. cbn [step]. unfold onChangeDebounce.
  rewrite Hparse.
  destruct (Z.ltb_spec n 1000); [lia|]. destruct (Z.ltb_spec 5000 n); [lia|].
  cbn [orb]. unfold saveSettings. cbn [setSettings setPlugin env]. rewrite Hsave.
  cbn. split; [reflexivity|]. split; [reflexivity|].
  unfold added. cbn. rewrite <- !app_assoc, drop_app_length. reflexivity.
Qed.

(** Calls and pending timers together never outnumber the trigger events. *)
Lemma step_budget ev sys k :
  singleTimer sys -> length (calls sys) + length (timers sys) <= k ->
  length (calls (step ev sys)) + length (timers (step ev sys))
  <= (if isTrigger ev then S k else k).
Proof.
  intros Hinv Hk. pose proof (step_edit_fields ev sys) as Hedit.
  destruct ev as [file|file|ms|e|value|value|value];
    try (destruct Hedit as (-> & -> & _); cbn [isTrigger]; exact Hk).
  - cbn [step isTrigger]. unfold onFileOpen. destruct file as [f|]; [|exact Hk].
    destruct (String.eqb _ _); [|lia].
    cbn [calls timers callProcessFile]. rewrite length_app. cbn. lia.
  - cbn [step isTrigger]. rewrite (onModify_singleTimer _ _ Hinv). cbn. lia.
  - cbn [step isTrigger]. unfold singleTimer in Hinv.
    destruct (timers sys) as [|t [|t' rest]] eqn:Ht; [| |contradiction].
    + rewrite (elapse_timers_none _ _ Ht). unfold elapse. cbn [calls setNow].
      rewrite Ht. cbn. lia.
    + rewrite (elapse_timers_single _ _ _ Ht). unfold elapse. cbn [calls setNow].
      rewrite Ht. cbn [runDue]. destruct (due t <=? now sys + Z.of_N ms)%Z.
      * cbn [runDue calls setTimers length].
        pose proof (debouncedFunc_calls (timerArg t)
                      (setNow (Z.max (now sys) (due t)) (setTimers [] sys))) as Hc.
        cbn [calls setNow setTimers] in Hc. cbn [length] in Hk. lia.
      * cbn [calls setTimers length] in *. lia.
Qed.

Lemma run_budget evs : forall sys k,
  singleTimer sys -> length (calls sys) + length (timers sys) <= k ->
  length (calls (run evs sys)) + length (timers (run evs sys)) <= k + triggers evs.
Proof.
  unfold run, triggers. induction evs as [|ev evs IH]; intros sys k Hinv Hk; [cbn; lia|].
  cbn [fold_left List.filter].
  pose proof (step_budget ev sys k Hinv Hk) as Hstep.
  pose proof (IH (step ev sys) _ (step_singleTimer _ _ Hinv) Hstep) as Hrun.
  destruct (isTrigger ev); cbn [length]; lia.
Qed.

(** X23.  The plugin never runs [processFile] more often than files have been
    opened or modified since it was loaded: time passing and the settings
    tab cause no run of their own, and a timer that has fired does not fire
    again. *)
Theorem calls_bounded_by_triggers e st t evs :
  length (calls (run evs (onload e st t))) <= triggers evs.
Proof.
  pose proof (run_budget evs (onload e st t) 0 (onload_singleTimer e st t)) as Hb.
  rewrite onload_calls, onload_timers in Hb. specialize (Hb (Nat.le_refl 0)). lia.
Qed.

(** What every event keeps: a pending timer is due no earlier than now
    and no later than one wait from now. *)
Lemma step_dueSoon ev sys :
  (0 <= handlerWait sys)%Z -> singleTimer sys -> timersDueSoon sys ->
  timersDueSoon (step ev sys).
Proof.
  intros Hw Hinv Hdue. unfold timersDueSoon in *.
  pose proof (step_plugin_wait ev sys) as Hwait. unfold handlerWait in Hwait, Hw.
  rewrite Hwait. pose proof (step_edit_fields ev sys) as Hedit.
  destruct ev as [file|file|ms|e|value|value|value];
    try (destruct Hedit as (-> & _ & ->); exact Hdue).
  - cbn [step]. unfold onFileOpen. destruct file as [f|]; [|exact Hdue].
    destruct (String.eqb _ _); exact Hdue.
  - cbn [step]. rewrite (onModify_singleTimer _ _ Hinv). unfold handlerWait.
    intros tm ->%list_elem_of_singleton. cbn [due onModify now]. lia.
  - cbn [step]. unfold singleTimer in Hinv.
    destruct (timers sys) as [|tm [|tm' rest]] eqn:Ht; [| |contradiction].
    + rewrite (elapse_timers_none _ _ Ht). intros tm Htm. apply elem_of_nil in Htm. done.
    + rewrite (elapse_timers_single _ _ _ Ht).
      destruct (Z.leb_spec (due tm) (now sys + Z.of_N ms)) as [Hle|Hgt].
      * intros tm1 Htm. apply elem_of_nil in Htm. done.
      * intros tm1 ->%list_elem_of_singleton. unfold elapse. cbn [now setNow].
        pose proof (Hdue tm ltac:(apply elem_of_cons; left; reflexivity)). lia.
Qed.

(** X24.  At any moment after the plugin is loaded, at most one timer is
    pending, it is the one that the handler would clear, and it is due no
    earlier than now and no later than one wait from now. *)
Theorem pending_timer_due_within_wait e st t evs :
  let sys := run evs (onload e st t) in
  length (timers sys) <= 1 /\ singleTimer sys /\ timersDueSoon sys.
Proof.
  assert (Hgen : forall sys, (0 <= handlerWait sys)%Z -> singleTimer sys -> timersDueSoon sys ->
                   singleTimer (run evs sys) /\ timersDueSoon (run evs sys)).
  { unfold run. induction evs as [|ev evs IH]; intros sys Hw Hinv Hdue; [split; assumption|].
    cbn [fold_left]. apply IH.
    - rewrite step_plugin_wait. exact Hw.
    - apply step_singleTimer, Hinv.
    - apply step_dueSoon; assumption. }
  intros sys. destruct (Hgen (onload e st t)) as [Hsingle Hdue].
  - pose proof (onload_wait_range e st t). lia.
  - apply onload_singleTimer.
  - unfold timersDueSoon. rewrite onload_timers. intros tm Htm. apply elem_of_nil in Htm. done.
  - split; [|split; [exact Hsingle|exact Hdue]].
    unfold singleTimer in Hsingle. fold sys in Hsingle.
    destruct (timers sys) as [|tm [|tm' rest]]; cbn; [lia|lia|contradiction].
Qed.

End WithEngine.
End SchedulerMore.

(** ** The further properties at work in the vault *)

Module MoreRuns.
Import Host Merger Pipeline Scheduler Notions Vault Outage.
Import MergerMore PipelineMore SchedulerMore.

(** A frontmatter whose field [aliases] is a number makes the callback
    throw. *)
Lemma callback_returns_iff_witness :
  callback ["x"] {[ "aliases" := VNumber 7 ]} = Throw TypeError.
Proof.
  apply (proj2 (callback_returns_iff ["x"] {[ "aliases" := VNumber 7 ]})).
  unfold readableAliases. rewrite lookup_singleton_eq.
  intros [Hf|[l Hl]]; discriminate.
Defined.

(** The note [notes] links to [A] only: the field [tags] of [A] and the
    whole frontmatter of the note [B], which has aliases of its own, are as
    before. *)
Lemma processFile_frame_witness :
  frontmatterOf noteA (@processFile Fragment.engine DEFAULT_SETTINGS editing daily taggedStore)
    !! "tags"
  = frontmatterOf noteA taggedStore !! "tags"
  /\ frontmatters (@processFile Fragment.engine lowerCaseNames editing notes taggedB) !! noteB
     = frontmatters taggedB !! noteB.
Proof.
  split.
  - apply (proj1 (@processFile_frame Fragment.engine DEFAULT_SETTINGS editing daily
                    taggedStore)).
    discriminate.
  - apply (proj1 (proj2 (@processFile_frame Fragment.engine lowerCaseNames editing notes
                           taggedB))).
    intros content aliasMap target aliases Hread Hex Hin Hdest.
    injection Hread as <-. vm_compute in Hex. injection Hex as <-.
    apply list_elem_of_singleton in Hin. injection Hin as -> ->.
    vm_compute in Hdest. discriminate Hdest.
Defined.

(** The daily note links to [A] with the alias [x]. *)
Lemma processFile_records_witness :
  recorded
    (frontmatters (@processFile Fragment.engine DEFAULT_SETTINGS editing daily emptyStore))
    noteA ["x"].
Proof.
  refine (proj2 (@processFile_records Fragment.engine DEFAULT_SETTINGS editing daily
                   "On [[A|x]] and [[B|y]]." [("A", ["x"]); ("B", ["y"])] emptyStore
                   _ eq_refl eq_refl _)
            "A" ["x"] noteA _ eq_refl eq_refl).
  - eexists. split; [vm_compute; reflexivity|]. vm_compute. reflexivity.
  - split; [reflexivity|]. intros f. exact I.
  - apply elem_of_cons. left. reflexivity.
Defined.

(** A task list with an ordinary link is read and that is all. *)
Lemma processFile_no_links_witness :
  @processFile Fragment.engine upperCaseNames taskLists noteA emptyStore
  = emit (VaultRead noteA) emptyStore.
Proof.
  refine (@processFile_no_links Fragment.engine upperCaseNames taskLists noteA
            "- [ ] call [Ann](https://example.org) [x]" emptyStore _ eq_refl eq_refl).
  eexists. split; [vm_compute; reflexivity|]. vm_compute. reflexivity.
Defined.

(** The daily note cannot be read. *)
Lemma processFile_fails_before_loop_witness :
  added emptyStore (@processFile Fragment.engine DEFAULT_SETTINGS failingDisk daily emptyStore)
  = [VaultRead daily;
     ConsoleErrorProcessing "2024-01-01.md" HostError;
     ShowNotice (NoticeProcessError "2024-01-01" HostError)]
  /\ sameData (@processFile Fragment.engine DEFAULT_SETTINGS failingDisk daily emptyStore)
       emptyStore.
Proof.
  refine (@processFile_fails_before_loop Fragment.engine DEFAULT_SETTINGS failingDisk daily
            HostError emptyStore _ (or_introl eq_refl)).
  eexists. split; [vm_compute; reflexivity|]. vm_compute. reflexivity.
Defined.

(** A stored timeout of 9000 ms is loaded as 5000 ms. *)
Lemma loadSettings_clamps_witness :
  loadSettings storedSlow
  = ({| fileRegex := "[a-z]+"; showUpdateNotice := false; debounceTimeout := 5000 |}, []).
Proof.
  exact (loadSettings_clamps storedSlow slowData "[a-z]+" false 9000%Z
           eq_refl eq_refl eq_refl eq_refl).
Defined.



(** C5.  The test of [processFile] at the input where it departs from the
    claim.  The settings tab accepts the pattern [n|zzz].  The base name
    [notes] is not matched by the pattern as a whole (the pattern matches
    the names [n] and [zzz]), but [^n|zzz$] finds a match in it: the anchors
    are put around the source of the pattern, so [^] belongs to the first
    alternative and [$] to the second, and [^n] matches at the start of
    [notes].  [processFile] reads the note and writes the alias of its link
    into the note [A].  With the default pattern the two tests agree on the
    names of the vault. *)
Theorem processFile_alternation_unanchored :
  NameTest.specMatches (fileRegex alternation)
    (basename (files (vault (fun _ => false) None) notes)) = false
  /\ NameTest.specMatches (fileRegex alternation) "n" = true
  /\ NameTest.specMatches (fileRegex alternation) "zzz" = true
  /\ fileRegex (settings (plugin (@step Fragment.engine (EditFileRegex "n|zzz") loaded)))
     = fileRegex alternation
  /\ trace (@processFile Fragment.engine alternation (vault (fun _ => false) None)
              notes emptyStore)
     = [VaultRead notes; ProcessFrontMatter noteA; ShowNotice (NoticeUpdated 1)]
  /\ frontmatterOf noteA
       (@processFile Fragment.engine alternation (vault (fun _ => false) None)
          notes emptyStore) !! "aliases"
     = Some (VArray [VString "z"])
  /\ NameTest.specMatches (fileRegex DEFAULT_SETTINGS) "2024-01-01" = true
  /\ NameTest.specMatches (fileRegex DEFAULT_SETTINGS) "notes" = false
  /\ trace (@processFile Fragment.engine DEFAULT_SETTINGS (vault (fun _ => false) None)
              notes emptyStore)
     = [].
Proof. repeat split; vm_compute; reflexivity. Qed.

(** The timeout is set to 3000 ms and the settings are loaded again. *)
Lemma saved_settings_reload_witness :
  loadSettings
    (reopened (env (@run Fragment.engine [EditDebounce "3000"] loaded))
       (store (@run Fragment.engine [EditDebounce "3000"] loaded)))
  = ({| fileRegex := fileRegex DEFAULT_SETTINGS; showUpdateNotice := true;
        debounceTimeout := 3000 |}, []).
Proof.
  refine (@saved_settings_reload Fragment.engine editing emptyStore 0 [EditDebounce "3000"]
            _ _ eq_refl).
  intros s Hs. discriminate Hs.
Defined.

Lemma edited_timeout_applies_after_reload_witness :
  handlerWait (@step Fragment.engine (EditDebounce "3000") loaded) = 1000%Z
  /\ handlerWait
       (onload
          (reopened (env (@step Fragment.engine (EditDebounce "3000") loaded))
             (store (@step Fragment.engine (EditDebounce "3000") loaded)))
          emptyStore 0)
     = 3000%Z.
Proof.
  refine (@edited_timeout_applies_after_reload Fragment.engine "3000" 3000%Z loaded
            emptyStore 0%Z eq_refl _ eq_refl).
  lia.
Defined.

(** A valid pattern, then an invalid one, are typed into the field. *)
Lemma pattern_stays_valid_witness :
  @patternCompiles Fragment.engine
    (settings (plugin (@run Fragment.engine [EditFileRegex "[a-z]+"; EditFileRegex "("] loaded))).
Proof.
  apply (@pattern_stays_valid Fragment.engine [EditFileRegex "[a-z]+"; EditFileRegex "("] loaded).
  - eexists. vm_compute. reflexivity.
  - eexists. vm_compute. reflexivity.
Defined.

Lemma onChangeDebounce_ignores_suffix_witness :
  onChangeDebounce ("3000" +:+ "ms") loaded = onChangeDebounce "3000" loaded.
Proof.
  refine (onChangeDebounce_ignores_suffix "3000" "ms" loaded _ eq_refl eq_refl).
  discriminate.
Defined.

(** The timeout is set to 3000 ms while nothing can be saved. *)
Lemma rejected_save_keeps_edit_witness :
  debounceTimeout
    (settings (plugin (@step Fragment.engine (EditDebounce "3000")
                         (onload failingDisk emptyStore 0)))) = 3000%Z
  /\ savedData (store (@step Fragment.engine (EditDebounce "3000")
                         (onload failingDisk emptyStore 0))) = None
  /\ added (store (onload failingDisk emptyStore 0))
       (store (@step Fragment.engine (EditDebounce "3000") (onload failingDisk emptyStore 0)))
     = [ConsoleErrorSaving HostError; ShowNotice NoticeSaveFailed;
        ShowNotice NoticeDebounceUpdated].
Proof.
  refine (@rejected_save_keeps_edit Fragment.engine "3000" 3000%Z
            (onload failingDisk emptyStore 0) eq_refl _ eq_refl).
  lia.
Defined.

End MoreRuns.

(** ** Evaluations on concrete inputs *)

Example toLowerCase_ex : JsString.toLowerCase "Foo Bar" = "foo bar".
Proof. reflexivity. Qed.

Example trim_ex : JsString.trim "  a b  " = "a b".
Proof. reflexivity. Qed.

Example sort_ex : JsArray.sort ["x"; "X"; "bar"; "Foo"] = ["Foo"; "X"; "bar"; "x"].
Proof. reflexivity. Qed.

Example Set_from_ex : JsArray.Set_from ["b"; "a"; "b"; "c"; "a"] = ["b"; "a"; "c"].
Proof. reflexivity. Qed.

Example exec_ex1 :
  AliasRegex.exec "see [[Project Plan|plan]] and" =
  Some ({| AliasRegex.m1 := "Project Plan"; AliasRegex.m2 := Some "plan" |}, " and").
Proof. reflexivity. Qed.

Example exec_ex2 :
  AliasRegex.exec "[[C]] x" = Some ({| AliasRegex.m1 := "C"; AliasRegex.m2 := None |}, " x").
Proof. reflexivity. Qed.

Example exec_ex3 : AliasRegex.exec "[[a|b
]] [[c|d]]" = Some ({| AliasRegex.m1 := "c"; AliasRegex.m2 := Some "d" |}, "").
Proof. reflexivity. Qed.

Example exec_ex4 :
  AliasRegex.exec "[[[a|b]c]]]" = Some ({| AliasRegex.m1 := "[a"; AliasRegex.m2 := Some "b]c" |}, "]").
Proof. reflexivity. Qed.

Example entries_ex :
  JsObject.entries [("b", 1); ("10", 2); ("a", 3); ("2", 4); ("02", 5)]
  = [("2", 4); ("10", 2); ("b", 1); ("a", 3); ("02", 5)].
Proof. reflexivity. Qed.

Example extract_ex1 :
  Extractor.extractAliases "Some text [[Project Plan|plan]] more [[Project Plan|Roadmap]]"
  = Normal [("Project Plan", ["plan"; "roadmap"])].
Proof. reflexivity. Qed.

Example extract_ex2 : Extractor.extractAliases "" = Normal [].
Proof. reflexivity. Qed.

Example extract_ex3 : Extractor.extractAliases "a [[C]] b [[ |x]] [[D| ]]" = Normal [].
Proof. reflexivity. Qed.

Example extract_ex4 : Extractor.extractAliases "[[constructor|x]]" = Throw TypeError.
Proof. reflexivity. Qed.

Example merge_ex1 : Merger.merge ["Foo"] ["bar"; "foo"] = ["bar"; "foo"].
Proof. reflexivity. Qed.

Example merge_ex2 : Merger.merge ["plan"] ["plan"; "roadmap"] = ["plan"; "roadmap"].
Proof. reflexivity. Qed.

Example callback_ex1 :
  Merger.callback ["bar"; "foo"]
    {[ "aliases" := Merger.VArray [Merger.VString "Foo"]; "tags" := Merger.VString "x" ]}
  = Normal {[ "aliases" := Merger.VArray [Merger.VString "bar"; Merger.VString "foo"];
              "tags" := Merger.VString "x" ]}.
Proof. vm_compute. reflexivity. Qed.

Example callback_ex2 :
  Merger.callback ["bar"] {[ "aliases" := Merger.VString "Foo" ]} = Throw TypeError.
Proof. reflexivity. Qed.

(** The anchors are put around the source of the pattern: with an
    alternation at the top of the pattern each anchor belongs to one
    alternative. *)
Example anchored_alternation :
  (regex ← Fragment.engine "^a|b$"; Normal (regex "ax", regex "xb", regex "xax"))
  = Normal (true, true, false).
Proof. vm_compute. reflexivity. Qed.

Example parseInt_ex :
  (Scheduler.parseInt "  1500ms", Scheduler.parseInt "-7", Scheduler.parseInt "ms")
  = (Some 1500%Z, Some (-7)%Z, None).
Proof. reflexivity. Qed.
